(** * Gamenewsvnbot: a shallow embedding of [main.py] and its properties

    The bot polls four RSS feeds, keeps per recipient a set of links that
    were already collected ([sent_links], persisted in [sent_links.json]),
    and posts every new article to a chat.

    The embedding follows [main.py] function by function.  Python values
    are modelled as follows:
    - [str] is a list of Unicode code points ([pystr]);
    - the module globals [sent_links] and [active_chats], the two files and
      everything the process does to the outside (HTTP requests, log
      records, file writes) live in an explicit [state];
    - exceptions are values of [exn]; a computation is a function from the
      state to an outcome and a new state ([M]), so that the state changes
      made before an exception are kept, as in Python;
    - the libraries ([requests], [feedparser], [dateutil], the clock) are
      the fields of a [world].

    What is outside the embedding: the ledger file is held as its text,
    and opening and writing it succeed (the byte encoding of the text and
    errors of the file system are not modelled); the registry file, which
    the bot only reads, is held as the value [json.load] gives for it;
    the answers of the libraries are functions of the request, the same
    all through a run. *)

From Stdlib Require Import ZArith List Lia Ascii String DecimalZ DecimalN.
From stdpp Require Import base option list gmap sets.

Local Open Scope Z_scope.

(** ** Python strings *)

(** A Python [str]: its sequence of code points. *)
Abbreviation pystr := (list N) (only parsing).

(** The code points of an ASCII literal. *)
Definition py (s : string) : pystr := map N_of_ascii (list_ascii_of_string s).

(** ** Exceptions and the state-and-exception monad *)

Inductive exn : Type :=
  | OverflowError
  | ValueError
  | TypeError
  | AttributeError
  | JSONDecodeError
  | HTTPError
  | RequestException
  | ParserError.

Inductive result (A : Type) : Type :=
  | Ok (a : A)
  | Raise (e : exn).
Arguments Ok {A} a.
Arguments Raise {A} e.

Definition result_bind {A B} (r : result A) (f : A → result B) : result B :=
  match r with
  | Ok a => f a
  | Raise e => Raise e
  end.

(** ** Dates and times *)

(** The first six fields of a [time.struct_time], which is what
    [entry.published_parsed[:6]] selects. *)
Record struct_time : Type := {
  tm_year : Z; tm_mon : Z; tm_mday : Z;
  tm_hour : Z; tm_min : Z; tm_sec : Z
}.

(** An aware [datetime]: the instant it denotes, in microseconds since
    1970-01-01T00:00:00Z, and the offset of its [tzinfo] in seconds east of
    UTC.  Two aware datetimes compare by their instant. *)
Record datetime : Type := {
  instant : Z;
  utcoffset : Z
}.

(** [datetime.timezone]: a fixed offset in seconds. *)
Definition timezone_utc : Z := 0.
(** [VN_TZ = timezone(timedelta(hours=7))] *)
Definition VN_TZ : Z := 7 * 3600.

Definition is_leap (y : Z) : bool :=
  (y mod 4 =? 0) && (negb (y mod 100 =? 0) || (y mod 400 =? 0)).

Definition days_in_month (y m : Z) : Z :=
  if m =? 2 then (if is_leap y then 29 else 28)
  else if (m =? 4) || (m =? 6) || (m =? 9) || (m =? 11) then 30
  else 31.

(** Days before January 1st of year [y] (proleptic Gregorian calendar). *)
Definition days_before_year (y : Z) : Z :=
  let y1 := y - 1 in
  y1 * 365 + y1 / 4 - y1 / 100 + y1 / 400.

Definition days_before_month (y m : Z) : Z :=
  let cum := nth (Z.to_nat (m - 1))
                 [0; 31; 59; 90; 120; 151; 181; 212; 243; 273; 304; 334] 0 in
  cum + (if (2 <? m) && is_leap y then 1 else 0).

(** The proleptic ordinal of a date; 0001-01-01 has ordinal 1. *)
Definition ymd2ord (y m d : Z) : Z :=
  days_before_year y + days_before_month y m + d.

Definition epoch_ordinal : Z := 719163.
Definition us_per_second : Z := 1000000.

(** The range of [datetime]: 0001-01-01T00:00:00 to
    9999-12-31T23:59:59.999999, as microseconds relative to the epoch. *)
Definition datetime_min : Z := (1 - epoch_ordinal) * 86400 * us_per_second.
Definition datetime_max : Z :=
  ((ymd2ord 9999 12 31 - epoch_ordinal) * 86400 + 86399) * us_per_second + 999999.

Definition in_datetime_range (t : Z) : bool :=
  (datetime_min <=? t) && (t <=? datetime_max).

(** [datetime(y, m, d, H, M, S, tzinfo=timezone.utc)]: the constructor
    raises [ValueError] when a field is out of range. *)
Definition datetime_utc (t : struct_time) : result datetime :=
  let '(Build_struct_time y m d hh mm ss) := t in
  if (1 <=? y) && (y <=? 9999) && (1 <=? m) && (m <=? 12)
     && (1 <=? d) && (d <=? days_in_month y m)
     && (0 <=? hh) && (hh <=? 23) && (0 <=? mm) && (mm <=? 59)
     && (0 <=? ss) && (ss <=? 59)
  then Ok {| instant :=
               ((ymd2ord y m d - epoch_ordinal) * 86400
                + hh * 3600 + mm * 60 + ss) * us_per_second;
             utcoffset := timezone_utc |}
  else Raise ValueError.

(** [d.astimezone(tz)] for a fixed-offset [tz]: the instant is kept and the
    offset replaced.  Python first computes the UTC fields and then the
    local fields in [tz]; either step raises [OverflowError] when it leaves
    the range of [datetime]. *)
Definition astimezone (d : datetime) (tz : Z) : result datetime :=
  if in_datetime_range (instant d)
     && in_datetime_range (instant d + tz * us_per_second)
  then Ok {| instant := instant d; utcoffset := tz |}
  else Raise OverflowError.

(** ** Feed entries *)

(** A [feedparser] entry, as [main.py] looks at it: an attribute that
    [hasattr] does not find is [None] here.  [published_parsed] and
    [updated_parsed] can be present and hold Python's [None] (feedparser
    stores [None] when it cannot parse the date), hence the nested option. *)
Record entry : Type := {
  published_parsed : option (option struct_time);
  updated_parsed : option (option struct_time);
  published : option pystr;
  updated : option pystr;
  link : option pystr;
  title : option pystr
}.

(** The identity of an entry is [getattr(entry, "link", None)]: a string, or
    Python's [None] when the entry has no link. *)
Abbreviation ident := (option (list N)) (only parsing).

(** ** The outside world *)

Record response : Type := {
  status_code : Z;
  resp_text : pystr
}.

(** [response.raise_for_status()] *)
Definition raise_for_status (r : response) : result unit :=
  if (400 <=? status_code r) && (status_code r <? 600)
  then Raise HTTPError else Ok tt.

(** What the libraries answer.  [dateparser_parse s] is
    [dateutil.parser.parse(s)]; a result without time zone is taken in the
    local zone of the machine, as [astimezone] does for a naive datetime.
    The answers are functions of the request: within one run a feed is
    fetched once per recipient. *)
Record world : Type := {
  requests_get : pystr → result response;
  feedparser_parse : pystr → result (list entry);
  requests_post : Z → pystr → result response;
  dateparser_parse : pystr → result datetime;
  now : Z
}.

(** ** [str(int)] and [int(str)] *)

Local Open Scope N_scope.

Fixpoint uint_digits (u : Decimal.uint) : pystr :=
  match u with
  | Decimal.Nil => []
  | Decimal.D0 u => 48 :: uint_digits u
  | Decimal.D1 u => 49 :: uint_digits u
  | Decimal.D2 u => 50 :: uint_digits u
  | Decimal.D3 u => 51 :: uint_digits u
  | Decimal.D4 u => 52 :: uint_digits u
  | Decimal.D5 u => 53 :: uint_digits u
  | Decimal.D6 u => 54 :: uint_digits u
  | Decimal.D7 u => 55 :: uint_digits u
  | Decimal.D8 u => 56 :: uint_digits u
  | Decimal.D9 u => 57 :: uint_digits u
  end.

(** [str(k)] for an [int]: decimal digits, with a minus sign for negative
    numbers. *)
Definition py_str (k : Z) : pystr :=
  match Z.to_int k with
  | Decimal.Pos u => uint_digits u
  | Decimal.Neg u => 45 :: uint_digits u
  end.

Definition digit_of (c : N) : option (Decimal.uint → Decimal.uint) :=
  if c =? 48 then Some Decimal.D0 else if c =? 49 then Some Decimal.D1
  else if c =? 50 then Some Decimal.D2 else if c =? 51 then Some Decimal.D3
  else if c =? 52 then Some Decimal.D4 else if c =? 53 then Some Decimal.D5
  else if c =? 54 then Some Decimal.D6 else if c =? 55 then Some Decimal.D7
  else if c =? 56 then Some Decimal.D8 else if c =? 57 then Some Decimal.D9
  else None.

(** The digits of an integer literal: at least one digit, and single
    underscores allowed between digits. *)
Fixpoint parse_digits (s : pystr) : option Decimal.uint :=
  match s with
  | [] => None
  | c :: t =>
      match digit_of c with
      | None => None
      | Some d =>
          match t with
          | [] => Some (d Decimal.Nil)
          | u :: t' =>
              if u =? 95
              then match parse_digits t' with
                   | Some r => Some (d r)
                   | None => None
                   end
              else match parse_digits t with
                   | Some r => Some (d r)
                   | None => None
                   end
          end
      end
  end.

(** ASCII white space, as [int] strips it (Python also strips the other
    Unicode spaces and reads the other Unicode decimal digits; the keys
    the bot writes have neither). *)
Definition is_space (c : N) : bool :=
  (c =? 32) || ((9 <=? c) && (c <=? 13)) || ((28 <=? c) && (c <=? 31)).

Fixpoint lstrip (s : pystr) : pystr :=
  match s with
  | [] => []
  | c :: t => if is_space c then lstrip t else s
  end.

Fixpoint rstrip (s : pystr) : pystr :=
  match s with
  | [] => []
  | c :: t =>
      match rstrip t with
      | [] => if is_space c then [] else [c]
      | t' => c :: t'
      end
  end.

(** [int(s)] in base 10; [ValueError] for anything that is not an integer
    literal. *)
Definition py_int (s : pystr) : result Z :=
  let body := rstrip (lstrip s) in
  let signed :=
    match body with
    | c :: t =>
        if c =? 45 then option_map Decimal.Neg (parse_digits t)
        else if c =? 43 then option_map Decimal.Pos (parse_digits t)
        else option_map Decimal.Pos (parse_digits body)
    | [] => None
    end in
  match signed with
  | Some i => Ok (Z.of_int i)
  | None => Raise ValueError
  end.

(** ** Python dictionaries with insertion order *)

(** [d[k] = v] on a dictionary kept as the list of its items in insertion
    order: an existing key keeps its place and gets the new value, a new
    key goes last. *)
Fixpoint dict_set {K V} `{EqDecision K} (k : K) (v : V) (d : list (K * V))
  : list (K * V) :=
  match d with
  | [] => [(k, v)]
  | (k', v') :: d' =>
      if decide (k = k') then (k, v) :: d' else (k', v') :: dict_set k v d'
  end.

(** ** The JSON text of the ledger *)

(** The document [sent_links.json] holds: an object whose members are
    arrays of strings and [null]s, in textual order. *)
Abbreviation ledger_doc := (list (list N * list (option (list N)))) (only parsing).

Definition hex_digit (n : N) : N :=
  if n <? 10 then 48 + n else 87 + n.

(** [json.encoder.ESCAPE_DCT] for [ensure_ascii=False]: the quote, the
    backslash and the control characters are escaped, everything else is
    written as it is. *)
Definition escape_char (c : N) : pystr :=
  if c =? 34 then [92; 34]
  else if c =? 92 then [92; 92]
  else if c =? 10 then [92; 110]
  else if c =? 13 then [92; 114]
  else if c =? 9 then [92; 116]
  else if c =? 8 then [92; 98]
  else if c =? 12 then [92; 102]
  else if c <? 32 then [92; 117; 48; 48; hex_digit (c / 16); hex_digit (c mod 16)]
  else [c].

Definition encode_string (s : pystr) : pystr :=
  [34] ++ flat_map escape_char s ++ [34].

Definition encode_elem (x : ident) : pystr :=
  match x with
  | None => py "null"
  | Some s => encode_string s
  end.

(** A line break followed by [n] spaces ([indent=2] at nesting level [n/2]). *)
Definition newline_indent (n : nat) : pystr := 10 :: replicate n 32.

(** [json.dump] of a list at nesting level 1. *)
Definition encode_array (l : list ident) : pystr :=
  match l with
  | [] => py "[]"
  | x :: l' =>
      [91] ++ newline_indent 4 ++ encode_elem x
      ++ flat_map (λ y, [44] ++ newline_indent 4 ++ encode_elem y) l'
      ++ newline_indent 2 ++ [93]
  end.

Definition encode_member (m : pystr * list ident) : pystr :=
  encode_string m.1 ++ [58; 32] ++ encode_array m.2.

(** [json.dumps(data, ensure_ascii=False, indent=2)] for a dictionary of
    lists. *)
Definition encode_doc (d : ledger_doc) : pystr :=
  match d with
  | [] => py "{}"
  | m :: d' =>
      [123] ++ newline_indent 2 ++ encode_member m
      ++ flat_map (λ m', [44] ++ newline_indent 2 ++ encode_member m') d'
      ++ newline_indent 0 ++ [125]
  end.

(** JSON white space. *)
Definition is_json_ws (c : N) : bool :=
  (c =? 32) || (c =? 9) || (c =? 10) || (c =? 13).

Fixpoint skip_ws (s : pystr) : pystr :=
  match s with
  | [] => []
  | c :: t => if is_json_ws c then skip_ws t else s
  end.

Definition hex_value (c : N) : option N :=
  if (48 <=? c) && (c <=? 57) then Some (c - 48)
  else if (97 <=? c) && (c <=? 102) then Some (c - 87)
  else if (65 <=? c) && (c <=? 70) then Some (c - 55)
  else None.

(** The four hexadecimal digits after a backslash-u. *)
Definition decode_uXXXX (h1 h2 h3 h4 : N) : option N :=
  match hex_value h1, hex_value h2, hex_value h3, hex_value h4 with
  | Some a, Some b, Some c, Some d => Some (((a * 16 + b) * 16 + c) * 16 + d)
  | _, _, _, _ => None
  end.

(** A low surrogate escape at the head of [s], if there is one, with the
    text after it. *)
Definition low_surrogate (s : pystr) : option (N * pystr) :=
  match s with
  | b :: u :: h1 :: h2 :: h3 :: h4 :: t =>
      if (b =? 92) && (u =? 117)
      then match decode_uXXXX h1 h2 h3 h4 with
           | Some lo => if (56320 <=? lo) && (lo <=? 57343) then Some (lo, t) else None
           | None => None
           end
      else None
  | _ => None
  end.

(** [json.decoder.scanstring] (strict): the text after an opening quote up
    to the closing one, with the escapes replaced.  [acc] holds the
    characters read so far, last first. *)
Fixpoint scanstring (acc : pystr) (s : pystr) : option (pystr * pystr) :=
  match s with
  | [] => None
  | c :: t =>
      if c =? 34 then Some (rev acc, t)
      else if c =? 92 then
        match t with
        | [] => None
        | e :: t1 =>
            if e =? 117 then
              match t1 with
              | h1 :: h2 :: h3 :: h4 :: t2 =>
                  match decode_uXXXX h1 h2 h3 h4 with
                  | None => None
                  | Some uni =>
                      if (55296 <=? uni) && (uni <=? 56319) then
                        match t2 with
                        | b :: u :: l1 :: l2 :: l3 :: l4 :: t3 =>
                            match low_surrogate t2 with
                            | Some (lo, _) =>
                                scanstring
                                  (65536 + ((uni - 55296) * 1024 + (lo - 56320)) :: acc) t3
                            | None => scanstring (uni :: acc) t2
                            end
                        | _ => scanstring (uni :: acc) t2
                        end
                      else scanstring (uni :: acc) t2
                  end
              | _ => None
              end
            else if e =? 34 then scanstring (34 :: acc) t1
            else if e =? 92 then scanstring (92 :: acc) t1
            else if e =? 47 then scanstring (47 :: acc) t1
            else if e =? 98 then scanstring (8 :: acc) t1
            else if e =? 102 then scanstring (12 :: acc) t1
            else if e =? 110 then scanstring (10 :: acc) t1
            else if e =? 114 then scanstring (13 :: acc) t1
            else if e =? 116 then scanstring (9 :: acc) t1
            else None
        end
      else if c <? 32 then None
      else scanstring (c :: acc) t
  end.

(** An element of an identity list: a string or [null]. *)
Definition parse_elem (s : pystr) : option (ident * pystr) :=
  match s with
  | c :: t =>
      if c =? 34 then
        match scanstring [] t with
        | Some (str, t') => Some (Some str, t')
        | None => None
        end
      else
        match s with
        | n :: u :: l1 :: l2 :: t' =>
            if (n =? 110) && (u =? 117) && (l1 =? 108) && (l2 =? 108)
            then Some (None, t') else None
        | _ => None
        end
  | [] => None
  end.

(** The loop of [JSONArray] after an element: a comma and the next
    element, or the closing bracket.  [acc] holds the elements read so
    far, last first. *)
Fixpoint parse_items (fuel : nat) (acc : list ident) (s : pystr)
  : option (list ident * pystr) :=
  match fuel with
  | O => None
  | S fuel' =>
      match skip_ws s with
      | c :: t =>
          if c =? 44 then
            match parse_elem (skip_ws t) with
            | Some (x, t') => parse_items fuel' (x :: acc) t'
            | None => None
            end
          else if c =? 93 then Some (rev acc, t)
          else None
      | [] => None
      end
  end.

Definition parse_array (fuel : nat) (s : pystr) : option (list ident * pystr) :=
  match s with
  | c :: t =>
      if c =? 91 then
        match skip_ws t with
        | c' :: t' =>
            if c' =? 93 then Some ([], t')
            else match parse_elem (c' :: t') with
                 | Some (x, t'') => parse_items fuel [x] t''
                 | None => None
                 end
        | [] => None
        end
      else None
  | [] => None
  end.

(** A member of the object: a key, a colon and an array. *)
Definition parse_member (fuel : nat) (s : pystr)
  : option ((pystr * list ident) * pystr) :=
  match s with
  | c :: t =>
      if c =? 34 then
        match scanstring [] t with
        | Some (key, t1) =>
            match skip_ws t1 with
            | c1 :: t2 =>
                if c1 =? 58 then
                  match parse_array fuel (skip_ws t2) with
                  | Some (l, t3) => Some ((key, l), t3)
                  | None => None
                  end
                else None
            | [] => None
            end
        | None => None
        end
      else None
  | [] => None
  end.

(** The loop of [JSONObject] after a member. *)
Fixpoint parse_members (fuel : nat) (acc : ledger_doc) (s : pystr)
  : option (ledger_doc * pystr) :=
  match fuel with
  | O => None
  | S fuel' =>
      match skip_ws s with
      | c :: t =>
          if c =? 44 then
            match parse_member fuel' (skip_ws t) with
            | Some (m, t') => parse_members fuel' (m :: acc) t'
            | None => None
            end
          else if c =? 125 then Some (rev acc, t)
          else None
      | [] => None
      end
  end.

Definition parse_object (fuel : nat) (s : pystr) : option (ledger_doc * pystr) :=
  match s with
  | c :: t =>
      if c =? 123 then
        match skip_ws t with
        | c' :: t' =>
            if c' =? 125 then Some ([], t')
            else match parse_member fuel (c' :: t') with
                 | Some (m, t'') => parse_members fuel [m] t''
                 | None => None
                 end
        | [] => None
        end
      else None
  | [] => None
  end.

(** [json.loads] on the text of a ledger file: one object, then nothing
    but white space.  Texts that are not JSON raise [JSONDecodeError];
    the decoder covers the documents of the ledger (objects of arrays of
    strings and [null]s), which are the ones [save_sent_links] writes. *)
Definition decode_doc (s : pystr) : result ledger_doc :=
  match parse_object (length s) (skip_ws s) with
  | Some (d, t) =>
      match skip_ws t with
      | [] => Ok d
      | _ :: _ => Raise JSONDecodeError
      end
  | None => Raise JSONDecodeError
  end.

Local Close Scope N_scope.

(** ** The state of the process and of its surroundings *)

Inductive level : Type := LInfo | LWarning | LError.

(** The log records of [main.py], by the place that emits them. *)
Inductive logmsg : Type :=
  | MsgLoadedSentLinks
  | MsgErrorLoadingJson (e : exn)
  | MsgErrorSavingJson (e : exn)
  | MsgLoadedActiveChats
  | MsgCouldNotLoadActiveChats (e : exn)
  | MsgErrorFetching (url : pystr) (e : exn)
  | MsgCannotParseDatetime (e : exn)
  | MsgErrorSendingMessage (e : exn)
  | MsgSentArticles (n : nat) (chat_id : Z)
  | MsgNoNewArticles (chat_id : Z)
  | MsgRunning
  | MsgNoActiveChats
  | MsgScriptFinished.

(** What the process does to the outside, in the order it happens. *)
Inductive event : Type :=
  | EvGet (url : pystr)
  | EvPost (chat_id : Z) (text : pystr)
  | EvOpenTruncate
  | EvWrite (chunk : pystr)
  | EvLog (l : level) (m : logmsg).

(** The globals [sent_links] and [active_chats], the two files, and the
    events so far (latest last).  [sent_file] is the text of
    [sent_links.json], [None] when the file does not exist.  [chat_file]
    is [active_chats.json], which the bot only reads: [None] when it does
    not exist, otherwise what [json.load] makes of it, a list of recipient
    ids or an exception. *)
Record state : Type := {
  sent_links : gmap Z (gset (option (list N)));
  active_chats : gset Z;
  sent_file : option pystr;
  chat_file : option (result (list Z));
  trace : list event
}.

(** The state of a fresh process: [sent_links = {}], [active_chats = set()]. *)
Definition initial_state (sf : option pystr) (cf : option (result (list Z)))
  : state :=
  {| sent_links := ∅; active_chats := ∅; sent_file := sf; chat_file := cf;
     trace := [] |}.

Definition set_sent_links (m : gmap Z (gset (option (list N)))) (st : state) : state :=
  {| sent_links := m; active_chats := active_chats st;
     sent_file := sent_file st; chat_file := chat_file st; trace := trace st |}.

Definition set_active_chats (s : gset Z) (st : state) : state :=
  {| sent_links := sent_links st; active_chats := s;
     sent_file := sent_file st; chat_file := chat_file st; trace := trace st |}.

Definition set_sent_file (f : option pystr) (st : state) : state :=
  {| sent_links := sent_links st; active_chats := active_chats st;
     sent_file := f; chat_file := chat_file st; trace := trace st |}.

Definition add_event (ev : event) (st : state) : state :=
  {| sent_links := sent_links st; active_chats := active_chats st;
     sent_file := sent_file st; chat_file := chat_file st;
     trace := trace st ++ [ev] |}.

(** A computation: it starts in a state and ends with a value or an
    exception, in a new state. *)
Definition M (A : Type) : Type := state → result A * state.

#[export] Instance M_ret : MRet M := λ A a st, (Ok a, st).

#[export] Instance M_bind : MBind M := λ A B f m st,
  match m st with
  | (Ok a, st') => f a st'
  | (Raise e, st') => (Raise e, st')
  end.

(** [try: body except Exception as e: handler e] *)
Definition try_except {A} (body : M A) (handler : exn → M A) : M A := λ st,
  match body st with
  | (Ok a, st') => (Ok a, st')
  | (Raise e, st') => handler e st'
  end.

(** A library call: its value, or its exception raised here. *)
Definition lift {A} (r : result A) : M A := λ st, (r, st).

Definition get_state : M state := λ st, (Ok st, st).
Definition modify (f : state → state) : M unit := λ st, (Ok tt, f st).
Definition emit (ev : event) : M unit := modify (add_event ev).
Definition log (l : level) (m : logmsg) : M unit := emit (EvLog l m).

(** [for x in l: b = f(b, x)] *)
Fixpoint foldM {A B} (f : B → A → M B) (b : B) (l : list A) : M B :=
  match l with
  | [] => mret b
  | x :: l' => b' ← f b x; foldM f b' l'
  end.

(** [for x in l: f(x)] *)
Definition for_each {A} (l : list A) (f : A → M unit) : M unit :=
  foldM (λ _ x, f x) tt l.

(** ** The ledger: [load_sent_links] and [save_sent_links] *)

(** The dictionary [json.load] builds from the members of an object: a
    repeated key keeps its first place and its last value. *)
Definition json_load (content : pystr) : result ledger_doc :=
  result_bind (decode_doc content)
    (λ members, Ok (foldl (λ d m, dict_set m.1 m.2 d) [] members)).

(** [{int(k): set(v) for k, v in data.items()}] *)
Definition ledger_of_data (data : ledger_doc)
  : result (gmap Z (gset (option (list N)))) :=
  foldl (λ acc kv,
           result_bind acc (λ m,
           result_bind (py_int kv.1) (λ k,
           Ok (<[k := list_to_set kv.2]> m))))
        (Ok ∅) data.

(** [{str(k): list(v) for k, v in sent_links.items()}]; the items come in
    the order of [map_to_list] and [elements], which stands for Python's
    iteration order of the dictionary and of the sets. *)
Definition data_of_ledger (m : gmap Z (gset (option (list N)))) : ledger_doc :=
  (λ kv, (py_str kv.1, elements kv.2)) <$> map_to_list m.

Definition load_sent_links : M unit := λ st,
  match sent_file st with
  | None => (Ok tt, st)
  | Some content =>
      try_except
        (data ← lift (json_load content);
         m ← lift (ledger_of_data data);
         modify (set_sent_links m);;
         log LInfo MsgLoadedSentLinks)
        (λ e, log LError (MsgErrorLoadingJson e)) st
  end.

(** [open(JSON_SENT_FILE, "w")]: the file exists and is empty from here on. *)
Definition open_truncate : M unit :=
  emit EvOpenTruncate;; modify (set_sent_file (Some [])).

(** [f.write(chunk)] on the open ledger file. *)
Definition file_write (chunk : pystr) : M unit := λ st,
  (Ok tt, set_sent_file (Some (default [] (sent_file st) ++ chunk))
            (add_event (EvWrite chunk) st)).

Definition save_sent_links : M unit :=
  try_except
    (st ← get_state;
     let data := data_of_ledger (sent_links st) in
     open_truncate;;
     file_write (encode_doc data))
    (λ e, log LError (MsgErrorSavingJson e)).

(** [save_sent_links] when the process stops after [n] characters of the
    text have reached the file. *)
Definition save_sent_links_interrupted (n : nat) : M unit :=
  st ← get_state;
  let data := data_of_ledger (sent_links st) in
  open_truncate;;
  file_write (take n (encode_doc data)).

Definition load_active_chats : M unit := λ st,
  match chat_file st with
  | None => (Ok tt, st)
  | Some content =>
      try_except
        (data ← lift content;
         modify (set_active_chats (list_to_set data));;
         log LInfo MsgLoadedActiveChats)
        (λ e, log LWarning (MsgCouldNotLoadActiveChats e)) st
  end.

(** ** The bot *)

Record article : Type := {
  a_title : pystr;
  a_link : option pystr;
  a_pub_dt : datetime
}.

(** The fixed list of feeds: a label and a URL. *)
Definition sources : list (pystr * pystr) :=
  [ (127918%N :: py " GameK", py "http://gamek.vn/home.rss");
    (127919%N :: py " IGN", py "https://feeds.feedburner.com/ign/news");
    (128241%N :: py " Pocket Gamer", py "https://www.pocketgamer.com/news/index.rss");
    (127922%N :: py " Gematsu", py "https://www.gematsu.com/feed") ].

(** A link inside an f-string: [None] is printed as the word. *)
Definition format_link (l : option pystr) : pystr :=
  match l with
  | Some s => s
  | None => py "None"
  end.

(** The f-string of [send_news_to_chat]: a newspaper sign and the label in
    bold, the title, the link. *)
Definition format_article (source : pystr) (a : article) : pystr :=
  128240%N :: py " **" ++ source ++ py "**" ++ [10; 10]%N
  ++ 128313%N :: py " " ++ a_title a ++ [10; 10]%N
  ++ 128279%N :: py " " ++ format_link (a_link a).

(** [sent_links[chat_id]]; the key is there whenever the bot reads it. *)
Definition seen (chat_id : Z) (st : state) : gset (option (list N)) :=
  default ∅ (sent_links st !! chat_id).

(** [if chat_id not in sent_links: sent_links[chat_id] = set()] *)
Definition ensure_chat (chat_id : Z) (st : state) : state :=
  match sent_links st !! chat_id with
  | Some _ => st
  | None => set_sent_links (<[chat_id := ∅]> (sent_links st)) st
  end.

(** [sent_links[chat_id].add(link)] *)
Definition mark_seen (chat_id : Z) (l : option pystr) (st : state) : state :=
  set_sent_links (<[chat_id := {[ l ]} ∪ seen chat_id st]> (sent_links st)) st.

Section Bot.

Variable W : world.

Definition fetch_rss (url : pystr) : M (list entry) :=
  try_except
    (emit (EvGet url);;
     resp ← lift (requests_get W url);
     lift (raise_for_status resp);;
     entries ← lift (feedparser_parse W (resp_text resp));
     mret entries)
    (λ e, log LError (MsgErrorFetching url e);; mret []).

Definition get_entry_datetime (e : entry) : M datetime :=
  pub_dt ← try_except
    (match published_parsed e, updated_parsed e, published e, updated e with
     | Some (Some t), _, _, _ =>
         d ← lift (datetime_utc t); mret (Some d)
     | _, Some (Some t), _, _ =>
         d ← lift (datetime_utc t); mret (Some d)
     | _, _, Some s, _ =>
         d ← lift (dateparser_parse W s);
         d' ← lift (astimezone d timezone_utc);
         mret (Some d')
     | _, _, _, Some s =>
         d ← lift (dateparser_parse W s);
         d' ← lift (astimezone d timezone_utc);
         mret (Some d')
     | _, _, _, None => mret None
     end)
    (λ e, log LWarning (MsgCannotParseDatetime e);; mret None);
  match pub_dt with
  | Some d => lift (astimezone d VN_TZ)
  | None => mret {| instant := now W; utcoffset := VN_TZ |}
  end.

(** The request carries [text[:4000]]; the bot token in the URL is left
    out. *)
Definition send_telegram_message (chat_id : Z) (text : pystr) : M bool :=
  let data_text := take 4000 text in
  try_except
    (emit (EvPost chat_id data_text);;
     resp ← lift (requests_post W chat_id data_text);
     lift (raise_for_status resp);;
     mret true)
    (λ e, log LError (MsgErrorSendingMessage e);; mret false).

(** The body of [for entry in entries], on the local [collected] and
    [total_new_articles]. *)
Definition collect_entry (chat_id : Z) (acc : list article * nat) (e : entry)
  : M (list article * nat) :=
  pub_dt ← get_entry_datetime e;
  let link := link e in
  let title := default (py "No title") (title e) in
  st ← get_state;
  if decide (link ∉ seen chat_id st) then
    modify (mark_seen chat_id link);;
    mret (acc.1 ++ [ {| a_title := title; a_link := link; a_pub_dt := pub_dt |} ],
          S acc.2)
  else mret acc.

(** The body of [for name, url in sources], on the locals
    [collected_news] and [total_new_articles]. *)
Definition collect_source (chat_id : Z)
    (acc : list (pystr * list article) * nat) (src : pystr * pystr)
  : M (list (pystr * list article) * nat) :=
  entries ← fetch_rss src.2;
  r ← foldM (collect_entry chat_id) ([], acc.2) entries;
  match r.1 with
  | [] => mret (acc.1, r.2)
  | _ :: _ => mret (dict_set src.1 r.1 acc.1, r.2)
  end.

(** [for source, articles in collected_news.items(): for article in
    articles: send_telegram_message(...)] *)
Definition send_collected (chat_id : Z)
    (collected_news : list (pystr * list article)) : M unit :=
  for_each collected_news (λ sa,
    for_each sa.2 (λ a,
      send_telegram_message chat_id (format_article sa.1 a);; mret tt)).

(** The first half of [send_news_to_chat], up to the end of the loop over
    the feeds: the value is the pair of the locals [collected_news] and
    [total_new_articles]. *)
Definition collect_news (srcs : list (pystr * pystr)) (chat_id : Z)
  : M (list (pystr * list article) * nat) :=
  load_sent_links;;
  modify (ensure_chat chat_id);;
  foldM (collect_source chat_id) ([], O) srcs.

(** [send_news_to_chat], for any list of feeds. *)
Definition send_news_from (srcs : list (pystr * pystr)) (chat_id : Z) : M unit :=
  r ← collect_news srcs chat_id;
  match r.1 with
  | _ :: _ =>
      send_collected chat_id r.1;;
      save_sent_links;;
      log LInfo (MsgSentArticles r.2 chat_id)
  | [] => log LInfo (MsgNoNewArticles chat_id)
  end.

Definition send_news_to_chat (chat_id : Z) : M unit :=
  send_news_from sources chat_id.

(** The script body under [if __name__ == "__main__"]. *)
Definition main : M unit :=
  log LInfo MsgRunning;;
  load_sent_links;;
  load_active_chats;;
  st ← get_state;
  (if decide (active_chats st = ∅)
   then log LWarning MsgNoActiveChats
   else for_each (elements (active_chats st)) send_news_to_chat);;
  log LInfo MsgScriptFinished.

(** The articles a run hands to [send_telegram_message] for a
    recipient, in order: the values of [collected_news].  A run that
    stops with an exception while it collects sends nothing. *)
Definition delivery_set (srcs : list (pystr * pystr)) (chat_id : Z)
    (st : state) : list article :=
  match (collect_news srcs chat_id st).1 with
  | Ok r => r.1 ≫= snd
  | Raise _ => []
  end.

End Bot.

(** ** Observations on traces and files *)

(** The messages posted, in order. *)
Fixpoint posts (tr : list event) : list (Z * pystr) :=
  match tr with
  | [] => []
  | EvPost c t :: tr' => (c, t) :: posts tr'
  | _ :: tr' => posts tr'
  end.

(** The ledger a fresh process loads from a ledger file: [load_sent_links]
    on the initial globals. *)
Definition loaded_ledger (f : option pystr) : gmap Z (gset (option (list N))) :=
  sent_links (load_sent_links (initial_state f None)).2.

(** ** The timestamp rule in the words of the specification *)

(** A structured time is available when the attribute is there and holds a
    time tuple. *)
Definition spec_structured (a : option (option struct_time))
  : option (result datetime) :=
  match a with
  | Some (Some t) => Some (datetime_utc t)
  | _ => None
  end.

(** A free-text time is available when the attribute is there; it is
    parsed and brought to UTC. *)
Definition spec_free_text (W : world) (a : option pystr)
  : option (result datetime) :=
  match a with
  | Some s => Some (result_bind (dateparser_parse W s)
                                (λ d, astimezone d timezone_utc))
  | None => None
  end.

(** First available wins. *)
Fixpoint spec_first_available {A} (l : list (option A)) : option A :=
  match l with
  | [] => None
  | Some a :: _ => Some a
  | None :: l' => spec_first_available l'
  end.

Definition spec_chosen_time (W : world) (e : entry) : option (result datetime) :=
  spec_first_available
    [ spec_structured (published_parsed e);
      spec_structured (updated_parsed e);
      spec_free_text W (published e);
      spec_free_text W (updated e) ].

(** The chosen time in the display zone; the current time when nothing is
    available or when the chosen source does not parse. *)
Definition spec_resolve_timestamp (W : world) (e : entry) : result datetime :=
  match spec_chosen_time W e with
  | Some (Ok d) => astimezone d VN_TZ
  | Some (Raise _) | None => Ok {| instant := now W; utcoffset := VN_TZ |}
  end.

(** An entry dated in the last hours of the year 9999 (UTC). *)
Definition late_entry : entry :=
  {| published_parsed := Some (Some (Build_struct_time 9999 12 31 20 0 0));
     updated_parsed := None; published := None; updated := None;
     link := Some (py "http://example.org/a"); title := Some (py "A") |}.

(** ** Auxiliary notions for the proofs *)

(** Two states with the same globals and files; only the traces may
    differ. *)
Definition same_store (st st' : state) : Prop :=
  sent_links st = sent_links st' ∧ active_chats st = active_chats st'
  ∧ sent_file st = sent_file st' ∧ chat_file st = chat_file st'.

(** The invariant of the collection loops for a recipient: [L] lists the
    links collected so far and [S0] is the recipient's set when the loops
    start.  No link is collected twice, every collected link is marked,
    none was in [S0], and the set has only grown. *)
Definition tracked (chat_id : Z) (S0 : gset (option (list N)))
    (L : list (option (list N))) (st : state) : Prop :=
  NoDup L ∧ (∀ l, l ∈ L → l ∈ seen chat_id st ∧ l ∉ S0) ∧ S0 ⊆ seen chat_id st.

(** The links of the articles in [collected_news]. *)
Definition news_links (cn : list (pystr * list article)) : list (option (list N)) :=
  a_link <$> (cn ≫= snd).

(** A step that changes neither the globals nor the files and posts
    nothing. *)
Definition quiet (st st' : state) : Prop :=
  same_store st st' ∧ posts (trace st') = posts (trace st).

(** ** Sample feeds *)

(** An entry without dates. *)
Definition plain_entry (l : option pystr) (t : pystr) : entry :=
  {| published_parsed := None; updated_parsed := None;
     published := None; updated := None; link := l; title := Some t |}.

(** A world in which the first feed answers and the other three do not,
    and in which every post is refused.  The feed has an entry with the
    link [a], an entry without link, the first entry again, and a second
    entry without link. *)
Definition sample_world : world :=
  {| requests_get := λ url,
       if decide (url = py "http://gamek.vn/home.rss")
       then Ok {| status_code := 200; resp_text := py "<rss/>" |}
       else Raise RequestException;
     feedparser_parse := λ _,
       Ok [ plain_entry (Some (py "a")) (py "A");
            plain_entry None (py "B");
            plain_entry (Some (py "a")) (py "A again");
            plain_entry None (py "C") ];
     requests_post := λ _ _, Ok {| status_code := 500; resp_text := [] |};
     dateparser_parse := λ _, Raise ParserError;
     now := 0 |}.

(** A ledger file in which recipient 5 has the link [a]. *)
Definition sample_ledger_text : pystr :=
  encode_doc [(py "5", [Some (py "a")])].

(** The recipients [load_active_chats] finds in a fresh process. *)
Definition registry_of (cf : option (result (list Z))) : gset Z :=
  match cf with
  | Some (Ok l) => list_to_set l
  | Some (Raise _) | None => ∅
  end.

Definition is_log (ev : event) : bool :=
  match ev with EvLog _ _ => true | _ => false end.

(** A lower bound on the length of the text of a document, which is the
    fuel its decoding needs: one for each member and one for each element. *)
Fixpoint doc_weight (d : ledger_doc) : nat :=
  match d with
  | [] => O
  | m :: d' => S (length m.2 + doc_weight d')
  end.

(** The requests [send_news_to_chat] makes for the articles in
    [collected_news]: one for each article, in order, with the formatted
    text cut to 4000 characters. *)
Definition outbox (chat_id : Z) (cn : list (pystr * list article))
  : list (Z * pystr) :=
  cn ≫= λ sa, (λ a, (chat_id, take 4000 (format_article sa.1 a))) <$> sa.2.

(** A computation that does not look at the trace: from two states with
    the same globals, files and posts it gives the same outcome and again
    two such states. *)
Definition blind {A} (m : M A) : Prop :=
  ∀ st st', quiet st st' → (m st).1 = (m st').1 ∧ quiet (m st).2 (m st').2.

(** The ways in which the fetch of a feed fails: the request raises
    (transport error, timeout), the answer has an error status, or the
    body is malformed, in which case the feed parser raises or, as
    [feedparser] mostly does, returns without an entry. *)
Definition fetch_fails (W : world) (url : pystr) : Prop :=
  (∃ e, requests_get W url = Raise e)
  ∨ (∃ r e, requests_get W url = Ok r ∧ raise_for_status r = Raise e)
  ∨ (∃ r e, requests_get W url = Ok r ∧ raise_for_status r = Ok tt
            ∧ feedparser_parse W (resp_text r) = Raise e)
  ∨ (∃ r, requests_get W url = Ok r ∧ raise_for_status r = Ok tt
          ∧ feedparser_parse W (resp_text r) = Ok []).

(** A process whose ledger in memory has a link more than its file: the
    file holds [sample_ledger_text], in memory recipient 5 has the links
    [a] and [b]. *)
Definition sample_dirty_state : state :=
  set_sent_links {[ 5 := {[ Some (py "a"); Some (py "b") ]} ]}
    (initial_state (Some sample_ledger_text) None).

(** A world in which every feed holds [late_entry] and every post is
    accepted. *)
Definition late_world : world :=
  {| requests_get := λ _, Ok {| status_code := 200; resp_text := [] |};
     feedparser_parse := λ _, Ok [late_entry];
     requests_post := λ _ _, Ok {| status_code := 200; resp_text := [] |};
     dateparser_parse := λ _, Raise ParserError;
     now := 0 |}.

(** ** Further observations *)

(** The URLs fetched, in order. *)
Fixpoint gets (tr : list event) : list pystr :=
  match tr with
  | [] => []
  | EvGet url :: tr' => url :: gets tr'
  | _ :: tr' => gets tr'
  end.

(** The log records, in order. *)
Fixpoint logs (tr : list event) : list (level * logmsg) :=
  match tr with
  | [] => []
  | EvLog l m :: tr' => (l, m) :: logs tr'
  | _ :: tr' => logs tr'
  end.

(** The entries of a feed as the bot sees them: those the parser returns
    when the request, the status check and the parser all succeed, none
    otherwise. *)
Definition feed_entries (W : world) (url : pystr) : list entry :=
  match requests_get W url with
  | Ok resp =>
      match raise_for_status resp with
      | Ok _ =>
          match feedparser_parse W (resp_text resp) with
          | Ok entries => entries
          | Raise _ => []
          end
      | Raise _ => []
      end
  | Raise _ => []
  end.

(** Whether the platform accepts a message: the request returns and its
    status is not an error status. *)
Definition send_ok (W : world) (chat_id : Z) (text : pystr) : bool :=
  match requests_post W chat_id (take 4000 text) with
  | Ok resp =>
      match raise_for_status resp with
      | Ok _ => true
      | Raise _ => false
      end
  | Raise _ => false
  end.

(** An entry with a published string that the date parser rejects and an
    updated string; in [sample_world] the parser rejects every string. *)
Definition text_dated_entry : entry :=
  {| published_parsed := Some None; updated_parsed := None;
     published := Some (py "yesterday"); updated := Some (py "2024-01-01");
     link := Some (py "b"); title := None |}.

(** A ledger file with a key that is not a number. *)
Definition bad_key_ledger_text : pystr :=
  encode_doc [(py "5", [Some (py "a")]); (py "x", [])].

(** A structured time attribute that [get_entry_datetime] passes over:
    absent, or present and [None]. *)
Definition no_struct_time (a : option (option struct_time)) : Prop :=
  match a with
  | Some (Some _) => False
  | Some None | None => True
  end.

(** The current time in the display zone, [datetime.now(VN_TZ)]. *)
Definition now_vn (W : world) : datetime :=
  {| instant := now W; utcoffset := VN_TZ |}.

(** An entry with a structured published time and other dates besides. *)
Definition dated_entry : entry :=
  {| published_parsed := Some (Some (Build_struct_time 2024 2 29 23 30 0));
     updated_parsed := Some (Some (Build_struct_time 2024 3 1 0 0 0));
     published := Some (py "yesterday"); updated := None;
     link := Some (py "c"); title := Some (py "C") |}.

(** An entry whose structured published time is not a date. *)
Definition misdated_entry : entry :=
  {| published_parsed := Some (Some (Build_struct_time 2023 2 29 0 0 0));
     updated_parsed := Some (Some (Build_struct_time 2024 3 1 0 0 0));
     published := None; updated := None;
     link := Some (py "d"); title := Some (py "D") |}.

(** ** What a run collects, as a function of the feeds *)

(** The entries of all feeds, in the order of the list of feeds. *)
Definition all_entries (W : world) (srcs : list (pystr * pystr)) : list entry :=
  srcs ≫= λ src, feed_entries W src.2.

(** The entries that are new with respect to a set of links: an entry is
    kept when its link is neither in the set nor the link of an entry
    before it. *)
Fixpoint new_entries (S : gset (option (list N))) (l : list entry) : list entry :=
  match l with
  | [] => []
  | e :: l' =>
      if decide (link e ∈ S) then new_entries S l'
      else e :: new_entries ({[ link e ]} ∪ S) l'
  end.

(** The title and the link of an article, and those an entry gives to its
    article. *)
Definition article_brief (a : article) : pystr * option pystr :=
  (a_title a, a_link a).

Definition entry_brief (e : entry) : pystr * option pystr :=
  (default (py "No title") (title e), link e).

(** The posts of a run: those for the articles in [collected_news], none
    when the collection stops with an exception. *)
Definition run_outbox (W : world) (srcs : list (pystr * pystr)) (chat_id : Z)
    (st : state) : list (Z * pystr) :=
  match (collect_news W srcs chat_id st).1 with
  | Ok r => outbox chat_id r.1
  | Raise _ => []
  end.

(** A later state of a run for a recipient, seen from an earlier one: the
    registry and the files are the same, the sets of the other recipients
    are the same, and the recipient's set has only grown. *)
Definition extends (chat_id : Z) (st0 st : state) : Prop :=
  active_chats st = active_chats st0
  ∧ sent_file st = sent_file st0
  ∧ chat_file st = chat_file st0
  ∧ (∀ c, c ≠ chat_id → sent_links st !! c = sent_links st0 !! c)
  ∧ seen chat_id st0 ⊆ seen chat_id st.

(** ** The ledger file between two processes *)

(** The ledger file [f] covers the feeds for a recipient: the link of
    every entry of every feed that can be fetched is in the set a fresh
    process loads for the recipient. *)
Definition covered (W : world) (srcs : list (pystr * pystr))
    (f : option pystr) (c : Z) : Prop :=
  ∀ e, e ∈ all_entries W srcs → link e ∈ default ∅ (loaded_ledger f !! c).

(** The global [sent_links] holds nothing that a fresh process would not
    load from the ledger file. *)
Definition synced (st : state) : Prop :=
  ∀ c, seen c st ⊆ default ∅ (loaded_ledger (sent_file st) !! c).

(** The state in which [main] enters its loop over the recipients in a
    fresh process: the ledger and the registry are loaded, [tr] holds the
    log records so far. *)
Definition loop_start (sf : option pystr) (cf : option (result (list Z)))
    (tr : list event) : state :=
  {| sent_links := loaded_ledger sf; active_chats := registry_of cf;
     sent_file := sf; chat_file := cf; trace := tr |}.


(** ** How the script ends *)

(** The outcome of [get_entry_datetime] for an entry; it is the same in
    every state. *)
Definition entry_time (W : world) (e : entry) : result datetime :=
  (get_entry_datetime W e (initial_state None None)).1.

(** An entry for which [get_entry_datetime] returns. *)
Definition timely (W : world) (e : entry) : Prop :=
  ∃ d, entry_time W e = Ok d.

(** * Properties *)

(** ** The model on small inputs *)

Example datetime_range :
  datetime_min = -62135596800000000 ∧ datetime_max = 253402300799999999.
Proof. split; reflexivity. Qed.

Example datetime_utc_leap_day :
  datetime_utc (Build_struct_time 2024 2 29 12 0 0)
    = Ok {| instant := 1709208000000000; utcoffset := 0 |}
  ∧ datetime_utc (Build_struct_time 2023 2 29 12 0 0) = Raise ValueError.
Proof. split; reflexivity. Qed.

Example astimezone_last_hours :
  astimezone {| instant := datetime_max - 7 * 3600 * 1000000; utcoffset := 0 |} VN_TZ
    = Ok {| instant := datetime_max - 7 * 3600 * 1000000; utcoffset := 25200 |}
  ∧ astimezone {| instant := datetime_max - 7 * 3600 * 1000000 + 1; utcoffset := 0 |} VN_TZ
    = Raise OverflowError.
Proof. split; reflexivity. Qed.

Example py_str_py_int_samples :
  py_str 0 = py "0" ∧ py_str (-120) = py "-120"
  ∧ py_int (py " 12 ") = Ok 12 ∧ py_int (py "+5") = Ok 5
  ∧ py_int (py "-0") = Ok 0 ∧ py_int (py "007") = Ok 7
  ∧ py_int (py "1_0") = Ok 10 ∧ py_int (py "1__0") = Raise ValueError
  ∧ py_int (py "_1") = Raise ValueError ∧ py_int (py "1_") = Raise ValueError
  ∧ py_int (py "") = Raise ValueError ∧ py_int (py "- 1") = Raise ValueError.
Proof. repeat split; reflexivity. Qed.

(** The text [json.dump] writes for the ledger in which recipient 5 has
    the link [a]: a brace, the key on a line of its own with two spaces,
    the link on the next line with four spaces, the closing bracket and
    brace on lines of their own. *)
Example encode_doc_sample :
  sample_ledger_text
  = [123; 10; 32; 32; 34; 53; 34; 58; 32; 91; 10; 32; 32; 32; 32; 34; 97; 34;
     10; 32; 32; 93; 10; 125]%N.
Proof. reflexivity. Qed.

(** The decoder reads compact text and escapes as well: here the object
    with key [1] and the list of one string, written as the escape for
    U+00E9 followed by the escape for a line break. *)
Example decode_doc_escapes :
  decode_doc [123; 34; 49; 34; 58; 91; 34; 92; 117; 48; 48; 101; 57;
              92; 110; 34; 93; 125]%N
  = Ok [([49%N], [Some [233; 10]%N])]
  ∧ decode_doc [] = Raise JSONDecodeError
  ∧ decode_doc [123; 125; 32; 93]%N = Raise JSONDecodeError.
Proof. repeat split; reflexivity. Qed.

(** A first run in [sample_world] for recipient 5 posts two messages, for
    the entry with the link [a] and for the first entry without link;
    a second run from the file the first one wrote posts nothing. *)
Example sample_runs :
  length (posts (trace (send_news_to_chat sample_world 5
                          (initial_state None None)).2)) = 2%nat
  ∧ posts (trace (send_news_to_chat sample_world 5
                    (initial_state
                       (sent_file (send_news_to_chat sample_world 5
                                     (initial_state None None)).2) None)).2)
    = [].
Proof. split; vm_compute; reflexivity. Qed.

(** ** The monad *)

(** Unfold the operations of the monad and compute. *)
Ltac run_m :=
  cbv [mbind M_bind mret M_ret lift emit modify log try_except get_state] in *;
  cbn in *.

Lemma posts_app (a b : list event) : posts (a ++ b) = posts a ++ posts b.
Proof.
  induction a as [|ev a IH]; [reflexivity|].
  destruct ev; simpl; rewrite IH; reflexivity.
Qed.

Lemma bind_run {A B} (m : M A) (f : A → M B) (st : state) :
  (m ≫= f) st =
  match m st with
  | (Ok a, st') => f a st'
  | (Raise e, st') => (Raise e, st')
  end.
Proof. reflexivity. Qed.

Lemma foldM_cons {A B} (f : B → A → M B) (b : B) (x : A) (l : list A) (st : state) :
  foldM f b (x :: l) st =
  match f b x st with
  | (Ok b', st') => foldM f b' l st'
  | (Raise e, st') => (Raise e, st')
  end.
Proof. reflexivity. Qed.

(** ** Delivery: the text handed to the send capability *)

(** [send_telegram_message] makes exactly one request, with the text cut
    to 4000 characters. *)
Lemma send_telegram_message_posts (W : world) (chat_id : Z)
    (text : pystr) (st : state) :
  posts (trace (send_telegram_message W chat_id text st).2)
    = posts (trace st) ++ [(chat_id, take 4000 text)].
Proof.
  unfold send_telegram_message. run_m.
  destruct (requests_post W chat_id (take 4000 text)) as [resp|e]; cbn.
  - destruct (raise_for_status resp); cbn;
      rewrite ?posts_app; cbn; rewrite ?app_nil_r; reflexivity.
  - rewrite !posts_app; cbn. rewrite app_nil_r. reflexivity.
Qed.

(** C2. [send_telegram_message] makes exactly one request, whose text is
    the input cut to 4000 characters: a longer text is delivered with
    length exactly 4000, a shorter one unchanged. *)
Theorem send_telegram_message_truncates (W : world) (chat_id : Z)
    (text : pystr) (st : state) :
  posts (trace (send_telegram_message W chat_id text st).2)
    = posts (trace st) ++ [(chat_id, take 4000 text)]
  ∧ (4000 < length text → length (take 4000 text) = 4000)%nat
  ∧ (length text ≤ 4000 → take 4000 text = text)%nat.
Proof.
  split; [|split].
  - apply send_telegram_message_posts.
  - intros H. rewrite length_take. lia.
  - intros H. apply take_ge. exact H.
Qed.

Lemma send_telegram_message_truncates_witness :
  (4000 < length (replicate 4001 65%N))%nat
  ∧ length (take 4000 (replicate 4001 65%N)) = 4000%nat.
Proof.
  assert (H : (4000 < length (replicate 4001 65%N))%nat)
    by (rewrite length_replicate; lia).
  split; [exact H|].
  exact (proj1 (proj2 (send_telegram_message_truncates
                         {| requests_get := λ _, Raise RequestException;
                            feedparser_parse := λ _, Ok [];
                            requests_post := λ _ _, Raise RequestException;
                            dateparser_parse := λ _, Raise ParserError;
                            now := 0 |}
                         1 (replicate 4001 65%N) (initial_state None None))) H).
Defined.

(** ** The timestamp of an entry *)

(** The fallback chain of [get_entry_datetime] is the one the
    specification describes: the first available source is chosen, a
    source that does not parse gives the current time, and the chosen
    time is converted to [VN_TZ]. *)
Lemma get_entry_datetime_chain (W : world) (e : entry) (st : state) :
  (get_entry_datetime W e st).1 = spec_resolve_timestamp W e.
Proof.
  unfold get_entry_datetime, spec_resolve_timestamp, spec_chosen_time.
  destruct e as [pp up p u l t]; cbn [published_parsed updated_parsed published updated].
  destruct pp as [[tp|]|], up as [[tu|]|], p as [sp|], u as [su|]; run_m;
    repeat match goal with
    | |- context [datetime_utc ?t] => destruct (datetime_utc t); run_m
    | |- context [dateparser_parse ?w ?s] => destruct (dateparser_parse w s); run_m
    | |- context [astimezone ?d timezone_utc] =>
        destruct (astimezone d timezone_utc); run_m
    | |- context [astimezone ?d VN_TZ] => destruct (astimezone d VN_TZ); run_m
    end; reflexivity.
Qed.

(** Whenever [get_entry_datetime] returns, the time is in the display
    zone, seven hours east of UTC. *)
Lemma get_entry_datetime_zone (W : world) (e : entry) (st : state) (d : datetime) :
  (get_entry_datetime W e st).1 = Ok d → utcoffset d = 25200.
Proof.
  rewrite get_entry_datetime_chain. unfold spec_resolve_timestamp.
  destruct (spec_chosen_time W e) as [[d0|]|].
  - unfold astimezone. case_match; [|discriminate].
    intros [= <-]. reflexivity.
  - intros [= <-]. reflexivity.
  - intros [= <-]. reflexivity.
Qed.

(** The conversion of the chosen time succeeds unless the time lies in the
    last seven hours of the year 9999. *)
Lemma astimezone_VN_in_range (d : datetime) :
  in_datetime_range (instant d) = true →
  instant d + VN_TZ * us_per_second <= datetime_max →
  astimezone d VN_TZ = Ok {| instant := instant d; utcoffset := VN_TZ |}.
Proof.
  intros Hr Hmax. unfold astimezone. rewrite Hr. cbn [andb].
  unfold in_datetime_range in *.
  apply andb_prop in Hr as [Hlo Hhi].
  apply Z.leb_le in Hlo.
  assert (Hlo' : (datetime_min <=? instant d + VN_TZ * us_per_second) = true).
  { apply Z.leb_le. unfold VN_TZ, us_per_second. lia. }
  rewrite Hlo'. apply Z.leb_le in Hmax. rewrite Hmax. reflexivity.
Qed.

(** C3.  Every entry is to get a timestamp in the display zone, chosen by
    the fallback chain, and failures on the way are to be non-fatal; the
    code misses one case.  For the entry [late_entry], whose structured
    published time is 9999-12-31T20:00:00Z, the conversion to the display
    zone, which lies outside the [try] block, raises [OverflowError]:
    [get_entry_datetime] returns no timestamp, and in [late_world], where
    the feeds hold this entry, the exception ends [send_news_to_chat] and
    [main] before anything is posted or saved.  On all other entries the
    chain is followed ([get_entry_datetime_chain],
    [astimezone_VN_in_range]). *)
Theorem get_entry_datetime_overflow (W : world) (st : state) :
  get_entry_datetime W late_entry st = (Raise OverflowError, st)
  ∧ (send_news_to_chat late_world 5 (initial_state None None)).1
    = Raise OverflowError
  ∧ (main late_world (initial_state None (Some (Ok [5])))).1
    = Raise OverflowError
  ∧ posts (trace (main late_world (initial_state None (Some (Ok [5])))).2) = []
  ∧ sent_file (main late_world (initial_state None (Some (Ok [5])))).2 = None.
Proof.
  split.
  - unfold get_entry_datetime. run_m. reflexivity.
  - repeat split; vm_compute; reflexivity.
Qed.

(** ** Library calls leave the globals and the files alone *)

Lemma same_store_refl (st : state) : same_store st st.
Proof. repeat split. Qed.

Lemma same_store_trans (a b c : state) :
  same_store a b → same_store b c → same_store a c.
Proof.
  intros (?&?&?&?) (?&?&?&?). repeat split; congruence.
Qed.

Lemma same_store_sym (a b : state) : same_store a b → same_store b a.
Proof. intros (?&?&?&?). repeat split; congruence. Qed.

Lemma same_store_seen (chat_id : Z) (st st' : state) :
  same_store st st' → seen chat_id st = seen chat_id st'.
Proof. intros (H&_). unfold seen. rewrite H. reflexivity. Qed.

Lemma quiet_refl (st : state) : quiet st st.
Proof. split; [apply same_store_refl|reflexivity]. Qed.

Lemma quiet_trans (a b c : state) : quiet a b → quiet b c → quiet a c.
Proof.
  intros [H1 P1] [H2 P2]. split; [eapply same_store_trans; eauto|congruence].
Qed.

Ltac solve_quiet :=
  repeat split; cbn; rewrite ?posts_app; cbn; rewrite ?app_nil_r; reflexivity.

Lemma fetch_rss_quiet (W : world) (url : pystr) (st : state) :
  quiet st (fetch_rss W url st).2.
Proof.
  unfold fetch_rss. run_m.
  destruct (requests_get W url) as [resp|]; cbn; [|solve_quiet].
  destruct (raise_for_status resp); cbn; [|solve_quiet].
  destruct (feedparser_parse W (resp_text resp)); cbn; solve_quiet.
Qed.

(** [fetch_rss] catches every exception. *)
Lemma fetch_rss_returns (W : world) (url : pystr) (st : state) :
  ∃ entries, (fetch_rss W url st).1 = Ok entries.
Proof.
  unfold fetch_rss. run_m.
  destruct (requests_get W url) as [resp|]; cbn; [|eauto].
  destruct (raise_for_status resp); cbn; [|eauto].
  destruct (feedparser_parse W (resp_text resp)); cbn; eauto.
Qed.

Lemma get_entry_datetime_quiet (W : world) (e : entry) (st : state) :
  quiet st (get_entry_datetime W e st).2.
Proof.
  unfold get_entry_datetime.
  destruct e as [pp up p u l t]; cbn [published_parsed updated_parsed published updated].
  destruct pp as [[tp|]|], up as [[tu|]|], p as [sp|], u as [su|]; run_m;
    repeat match goal with
    | |- context [datetime_utc ?t] => destruct (datetime_utc t); run_m
    | |- context [dateparser_parse ?w ?s] => destruct (dateparser_parse w s); run_m
    | |- context [astimezone ?d timezone_utc] =>
        destruct (astimezone d timezone_utc); run_m
    | |- context [astimezone ?d VN_TZ] => destruct (astimezone d VN_TZ); run_m
    end; solve_quiet.
Qed.

Lemma send_telegram_message_store (W : world) (chat_id : Z) (text : pystr)
    (st : state) :
  same_store st (send_telegram_message W chat_id text st).2.
Proof.
  unfold send_telegram_message. run_m.
  destruct (requests_post W chat_id (take 4000 text)) as [resp|]; cbn;
    [|repeat split].
  destruct (raise_for_status resp); cbn; repeat split.
Qed.

(** [send_telegram_message] catches every exception. *)
Lemma send_telegram_message_returns (W : world) (chat_id : Z) (text : pystr)
    (st : state) :
  ∃ b, (send_telegram_message W chat_id text st).1 = Ok b.
Proof.
  unfold send_telegram_message. run_m.
  destruct (requests_post W chat_id (take 4000 text)) as [resp|]; cbn; [|eauto].
  destruct (raise_for_status resp); cbn; eauto.
Qed.

(** [load_sent_links] always returns; it changes the global [sent_links]
    at most and emits log records only. *)
Lemma load_sent_links_run (st : state) :
  ∃ m tr, load_sent_links st
          = (Ok tt, {| sent_links := m; active_chats := active_chats st;
                       sent_file := sent_file st; chat_file := chat_file st;
                       trace := trace st ++ tr |})
          ∧ forallb is_log tr = true.
Proof.
  unfold load_sent_links. destruct st as [sl ac sf cf tr0]. cbn.
  destruct sf as [content|].
  - run_m. destruct (json_load content) as [data|ex]; cbn.
    + destruct (ledger_of_data data) as [m|ex]; cbn.
      * exists m, [EvLog LInfo MsgLoadedSentLinks]. split; reflexivity.
      * exists sl, [EvLog LError (MsgErrorLoadingJson ex)]. split; reflexivity.
    + exists sl, [EvLog LError (MsgErrorLoadingJson ex)]. split; reflexivity.
  - exists sl, []. rewrite app_nil_r. split; reflexivity.
Qed.

(** ** The collection loops *)

Lemma seen_mark_seen (chat_id : Z) (l : option pystr) (st : state) :
  seen chat_id (mark_seen chat_id l st) = {[ l ]} ∪ seen chat_id st.
Proof.
  unfold seen at 1, mark_seen. cbn. rewrite lookup_insert_eq. reflexivity.
Qed.

(** One turn of the loop over the entries, step by step. *)
Lemma collect_entry_run (W : world) (chat_id : Z) (acc : list article * nat)
    (e : entry) (st : state) :
  collect_entry W chat_id acc e st =
  match get_entry_datetime W e st with
  | (Ok d, st1) =>
      if decide (link e ∉ seen chat_id st1)
      then (Ok (acc.1 ++ [ {| a_title := default (py "No title") (title e);
                              a_link := link e; a_pub_dt := d |} ], S acc.2),
            mark_seen chat_id (link e) st1)
      else (Ok acc, st1)
  | (Raise ex, st1) => (Raise ex, st1)
  end.
Proof.
  unfold collect_entry. rewrite bind_run.
  destruct (get_entry_datetime W e st) as [[d|ex] st1]; [|reflexivity].
  run_m. destruct (decide (link e ∉ seen chat_id st1)); reflexivity.
Qed.

(** An invariant of the loop body is an invariant of the loop. *)
Lemma foldM_invariant {A B} (f : B → A → M B) (I : B → state → Prop)
    (l : list A) :
  (∀ b x st b' st', x ∈ l → I b st → f b x st = (Ok b', st') → I b' st') →
  ∀ b st b' st', I b st → foldM f b l st = (Ok b', st') → I b' st'.
Proof.
  induction l as [|x l IH]; intros Hf b st b' st' HI Hrun.
  - cbn in Hrun. injection Hrun as <- <-. exact HI.
  - rewrite foldM_cons in Hrun.
    destruct (f b x st) as [[b1|ex] st1] eqn:Hstep; [|discriminate].
    eapply IH; [| |exact Hrun].
    + intros ? ? ? ? ? Hin. apply Hf. right. exact Hin.
    + eapply Hf; [left| |]; eauto.
Qed.

Lemma tracked_same_store (chat_id : Z) S0 L (st st' : state) :
  same_store st st' → tracked chat_id S0 L st → tracked chat_id S0 L st'.
Proof.
  intros Hs. unfold tracked. rewrite (same_store_seen chat_id _ _ Hs). tauto.
Qed.

(** Collecting a link that is not yet marked keeps the invariant. *)
Lemma tracked_mark (chat_id : Z) S0 L (l : option pystr) (st : state) :
  l ∉ seen chat_id st → tracked chat_id S0 L st →
  tracked chat_id S0 (L ++ [l]) (mark_seen chat_id l st).
Proof.
  intros Hnew (Hnd & Hmem & Hsub). unfold tracked.
  rewrite seen_mark_seen. split; [|split].
  - apply NoDup_app. split; [exact Hnd|]. split; [|apply NoDup_singleton].
    intros x Hx Hx'. apply list_elem_of_singleton in Hx'. subst x.
    apply Hnew. apply (Hmem l Hx).
  - intros x Hx. apply elem_of_app in Hx as [Hx|Hx].
    + destruct (Hmem x Hx). split; [|assumption].
      apply elem_of_union. right. assumption.
    + apply list_elem_of_singleton in Hx. subst x. split.
      * apply elem_of_union. left. apply elem_of_singleton. reflexivity.
      * intros H0. apply Hnew, Hsub, H0.
  - intros x Hx. apply elem_of_union. right. apply Hsub, Hx.
Qed.

Lemma tracked_submseteq (chat_id : Z) S0 L L' (st : state) :
  L' ⊆+ L → tracked chat_id S0 L st → tracked chat_id S0 L' st.
Proof.
  intros Hsub (Hnd & Hin & HS). split; [|split; [|exact HS]].
  - apply submseteq_Permutation in Hsub as [k Hk].
    rewrite Hk in Hnd. apply NoDup_app in Hnd as [? _]. assumption.
  - intros l Hl. apply Hin. eapply elem_of_submseteq; eauto.
Qed.

(** Replacing or adding a value in [collected_news] keeps no article that
    was not there or in the new value. *)
Lemma dict_set_submseteq {K V} `{EqDecision K} (k : K) (v : list V)
    (d : list (K * list V)) :
  dict_set k v d ≫= snd ⊆+ (d ≫= snd) ++ v.
Proof.
  induction d as [|[k' v'] d IH]; cbn [dict_set].
  - cbn. rewrite app_nil_r. reflexivity.
  - destruct (decide (k = k')) as [->|Hne].
    + rewrite !bind_cons. cbn [snd].
      rewrite (comm (++) v). rewrite <- (assoc (++)).
      apply submseteq_inserts_l. reflexivity.
    + rewrite !bind_cons. cbn [snd]. rewrite <- (assoc (++)).
      apply submseteq_skips_l. exact IH.
Qed.

(** The loop over the entries of one feed keeps the invariant; [P] holds
    the links collected from the feeds before. *)
Lemma collect_entries_tracked (W : world) (chat_id : Z) S0
    (P : list (option (list N))) (entries : list entry)
    (acc acc' : list article * nat) (st st' : state) :
  tracked chat_id S0 (P ++ (a_link <$> acc.1)) st →
  foldM (collect_entry W chat_id) acc entries st = (Ok acc', st') →
  tracked chat_id S0 (P ++ (a_link <$> acc'.1)) st'.
Proof.
  apply (foldM_invariant (collect_entry W chat_id)
           (λ a s, tracked chat_id S0 (P ++ (a_link <$> a.1)) s)).
  clear. intros b e st b' st' _ HI. rewrite collect_entry_run.
  pose proof (get_entry_datetime_quiet W e st) as [Hq _].
  destruct (get_entry_datetime W e st) as [[d|ex] st1]; [|discriminate].
  cbn in Hq. apply (tracked_same_store _ _ _ _ _ Hq) in HI.
  destruct (decide (link e ∉ seen chat_id st1)) as [Hnew|Hold].
  - intros [= <- <-]. cbn [fst]. rewrite fmap_app, (assoc (++)). cbn.
    apply tracked_mark; assumption.
  - intros [= <- <-]. exact HI.
Qed.

(** One turn of the loop over the feeds, step by step. *)
Lemma collect_source_run (W : world) (chat_id : Z)
    (acc : list (pystr * list article) * nat) (src : pystr * pystr) (st : state) :
  collect_source W chat_id acc src st =
  match fetch_rss W src.2 st with
  | (Ok entries, st1) =>
      match foldM (collect_entry W chat_id) ([], acc.2) entries st1 with
      | (Ok r, st2) =>
          (Ok (match r.1 with
               | [] => acc.1
               | _ :: _ => dict_set src.1 r.1 acc.1
               end, r.2), st2)
      | (Raise ex, st2) => (Raise ex, st2)
      end
  | (Raise ex, st1) => (Raise ex, st1)
  end.
Proof.
  unfold collect_source. rewrite bind_run.
  destruct (fetch_rss W src.2 st) as [[entries|ex] st1]; [|reflexivity].
  rewrite bind_run.
  destruct (foldM (collect_entry W chat_id) ([], acc.2) entries st1)
    as [[r|ex] st2]; [|reflexivity].
  destruct r as [[|a c] n]; reflexivity.
Qed.

Lemma collect_sources_tracked (W : world) (chat_id : Z) S0
    (srcs : list (pystr * pystr))
    (acc acc' : list (pystr * list article) * nat) (st st' : state) :
  tracked chat_id S0 (news_links acc.1) st →
  foldM (collect_source W chat_id) acc srcs st = (Ok acc', st') →
  tracked chat_id S0 (news_links acc'.1) st'.
Proof.
  apply (foldM_invariant (collect_source W chat_id)
           (λ a s, tracked chat_id S0 (news_links a.1) s)).
  clear. intros b src st b' st' _ HI. rewrite collect_source_run.
  pose proof (fetch_rss_quiet W src.2 st) as [Hq _].
  destruct (fetch_rss W src.2 st) as [[entries|ex] st1]; [|discriminate].
  cbn in Hq. apply (tracked_same_store _ _ _ _ _ Hq) in HI.
  destruct (foldM (collect_entry W chat_id) ([], b.2) entries st1)
    as [[r|ex] st2] eqn:Hloop; [|discriminate].
  intros [= <- <-]. cbn [fst].
  eapply (collect_entries_tracked W chat_id S0 (news_links b.1)) in Hloop;
    [|cbn; rewrite app_nil_r; exact HI].
  destruct (r.1) as [|a c] eqn:Hr.
  - cbn in Hloop. rewrite app_nil_r in Hloop. exact Hloop.
  - eapply tracked_submseteq; [|exact Hloop].
    unfold news_links. rewrite <- fmap_app.
    apply fmap_submseteq. apply dict_set_submseteq.
Qed.

Lemma seen_ensure_chat (chat_id c : Z) (st : state) :
  seen c (ensure_chat chat_id st) = seen c st.
Proof.
  unfold ensure_chat, seen.
  destruct (sent_links st !! chat_id) eqn:H; [reflexivity|]. cbn.
  destruct (decide (chat_id = c)) as [->|Hne].
  - rewrite lookup_insert_eq, H. reflexivity.
  - rewrite lookup_insert_ne by assumption. reflexivity.
Qed.

(** [collect_news], step by step. *)
Lemma collect_news_run (W : world) (srcs : list (pystr * pystr)) (chat_id : Z)
    (st : state) :
  collect_news W srcs chat_id st =
  foldM (collect_source W chat_id) ([], O) srcs
        (ensure_chat chat_id (load_sent_links st).2).
Proof.
  unfold collect_news. rewrite bind_run.
  assert (H : (load_sent_links st).1 = Ok tt).
  { unfold load_sent_links. destruct (sent_file st) as [content|]; [|reflexivity].
    run_m. destruct (json_load content) as [data|]; cbn; [|reflexivity].
    destruct (ledger_of_data data); reflexivity. }
  destruct (load_sent_links st) as [r st1]. cbn in H. subst r. reflexivity.
Qed.

(** When the loop over the feeds ends, the collected links are pairwise
    different, marked, and were not in the recipient's set after the
    ledger was loaded. *)
Lemma collect_news_tracked (W : world) (srcs : list (pystr * pystr))
    (chat_id : Z) (st st' : state) r :
  collect_news W srcs chat_id st = (Ok r, st') →
  tracked chat_id (seen chat_id (load_sent_links st).2) (news_links r.1) st'.
Proof.
  rewrite collect_news_run. intros Hrun.
  eapply collect_sources_tracked; [|exact Hrun].
  cbn. split; [constructor|]. split; [intros l Hl; inversion Hl|].
  rewrite seen_ensure_chat. reflexivity.
Qed.

(** Collecting posts nothing. *)
Lemma foldM_posts {A B} (f : B → A → M B) (l : list A) :
  (∀ b x st, posts (trace (f b x st).2) = posts (trace st)) →
  ∀ b st, posts (trace (foldM f b l st).2) = posts (trace st).
Proof.
  intros Hf. induction l as [|x l IH]; intros b st; [reflexivity|].
  rewrite foldM_cons. specialize (Hf b x st).
  destruct (f b x st) as [[b'|ex] st']; cbn in Hf; [|exact Hf].
  rewrite IH. exact Hf.
Qed.

Lemma collect_entry_posts (W : world) (chat_id : Z) (acc : list article * nat)
    (e : entry) (st : state) :
  posts (trace (collect_entry W chat_id acc e st).2) = posts (trace st).
Proof.
  rewrite collect_entry_run.
  pose proof (get_entry_datetime_quiet W e st) as [_ Hp].
  destruct (get_entry_datetime W e st) as [[d|ex] st1]; cbn in Hp; [|exact Hp].
  destruct (decide (link e ∉ seen chat_id st1)); exact Hp.
Qed.

Lemma collect_source_posts (W : world) (chat_id : Z)
    (acc : list (pystr * list article) * nat) (src : pystr * pystr) (st : state) :
  posts (trace (collect_source W chat_id acc src st).2) = posts (trace st).
Proof.
  rewrite collect_source_run.
  pose proof (fetch_rss_quiet W src.2 st) as [_ Hp].
  destruct (fetch_rss W src.2 st) as [[entries|ex] st1]; cbn in Hp; [|exact Hp].
  pose proof (foldM_posts (collect_entry W chat_id) entries
                (collect_entry_posts W chat_id) ([], acc.2) st1) as Hp'.
  destruct (foldM (collect_entry W chat_id) ([], acc.2) entries st1)
    as [[r|ex] st2]; cbn in Hp' |- *; congruence.
Qed.

Lemma collect_news_posts (W : world) (srcs : list (pystr * pystr))
    (chat_id : Z) (st : state) :
  posts (trace (collect_news W srcs chat_id st).2) = posts (trace st).
Proof.
  rewrite collect_news_run.
  rewrite (foldM_posts (collect_source W chat_id) srcs
             (collect_source_posts W chat_id)).
  destruct (load_sent_links_run st) as (m & tr & Hload & Hlog).
  rewrite Hload. cbn [snd].
  assert (Hp : ∀ tr0, forallb is_log tr = true →
                 posts (tr0 ++ tr) = posts tr0).
  { clear. intros tr0 Hlog. rewrite posts_app.
    induction tr as [|ev tr IH]; [apply app_nil_r|].
    cbn in Hlog. apply andb_prop in Hlog as [Hev Hlog].
    destruct ev; try discriminate. cbn. apply IH, Hlog. }
  unfold ensure_chat. cbn.
  destruct (m !! chat_id); cbn; apply Hp, Hlog.
Qed.

(** ** No entry is delivered twice *)

(** An identity that is in the recipient's set once the ledger is loaded
    is not collected. *)
Lemma seen_not_collected (W : world) (srcs : list (pystr * pystr)) (chat_id : Z)
    (st : state) (i : option pystr) :
  i ∈ seen chat_id (load_sent_links st).2 →
  i ∉ a_link <$> delivery_set W srcs chat_id st.
Proof.
  intros Hi. unfold delivery_set.
  destruct (collect_news W srcs chat_id st) as [[r|ex] st'] eqn:Hrun; cbn.
  - apply collect_news_tracked in Hrun as (_ & Hin & _).
    intros Hd. apply (Hin i) in Hd as [_ Hd]. exact (Hd Hi).
  - intros Hd. inversion Hd.
Qed.

(** C1. If an identity is in the recipient's set once the ledger is
    loaded at the start of a run, no article delivered in that run has
    it. *)
Theorem no_redelivery (W : world) (srcs : list (pystr * pystr)) (chat_id : Z)
    (st : state) (i : option pystr) :
  i ∈ seen chat_id (load_sent_links st).2 →
  i ∉ a_link <$> delivery_set W srcs chat_id st.
Proof.
  intros Hi Hd. unfold delivery_set in Hd.
  destruct (collect_news W srcs chat_id st) as [[r|ex] st'] eqn:Hrun;
    cbn in Hd; [|inversion Hd].
  apply collect_news_tracked in Hrun as (_ & Hin & _).
  destruct (Hin i Hd) as [_ Hfresh]. exact (Hfresh Hi).
Qed.

(** C10. Within one run no identity, [None] included, is collected twice
    for a recipient: the links of the delivered articles are pairwise
    different, because every collected link is in the recipient's set
    from the moment it is collected, that is, already in the state in
    which the loop over the feeds ends and before the first post. *)
Theorem delivery_set_NoDup (W : world) (srcs : list (pystr * pystr))
    (chat_id : Z) (st : state) :
  NoDup (a_link <$> delivery_set W srcs chat_id st)
  ∧ (∀ a, a ∈ delivery_set W srcs chat_id st →
          a_link a ∈ seen chat_id (collect_news W srcs chat_id st).2)
  ∧ posts (trace (collect_news W srcs chat_id st).2) = posts (trace st).
Proof.
  unfold delivery_set. split; [|split].
  - destruct (collect_news W srcs chat_id st) as [[r|ex] st'] eqn:Hrun; cbn.
    + apply collect_news_tracked in Hrun as (Hnd & _). exact Hnd.
    + constructor.
  - intros a Ha.
    destruct (collect_news W srcs chat_id st) as [[r|ex] st'] eqn:Hrun;
      cbn in Ha |- *; [|inversion Ha].
    apply collect_news_tracked in Hrun as (_ & Hin & _).
    apply Hin. unfold news_links. apply list_elem_of_fmap_2. exact Ha.
  - apply collect_news_posts.
Qed.

(** Decide a closed decidable proposition by computation. *)
Ltac by_compute :=
  match goal with
  | |- ?P => apply (bool_decide_unpack P); vm_compute; exact I
  end.

Lemma delivery_set_NoDup_witness :
  Some (py "a")
  ∈ seen 5 (collect_news sample_world sources 5 (initial_state None None)).2.
Proof.
  refine (proj1 (proj2 (delivery_set_NoDup sample_world sources 5
                          (initial_state None None)))
            {| a_title := py "A"; a_link := Some (py "a");
               a_pub_dt := {| instant := 0; utcoffset := VN_TZ |} |} _).
  assert (H : delivery_set sample_world sources 5 (initial_state None None)
              = [ {| a_title := py "A"; a_link := Some (py "a");
                     a_pub_dt := {| instant := 0; utcoffset := VN_TZ |} |};
                  {| a_title := py "B"; a_link := None;
                     a_pub_dt := {| instant := 0; utcoffset := VN_TZ |} |} ])
    by (vm_compute; reflexivity).
  rewrite H. left.
Defined.

Lemma no_redelivery_witness :
  Some (py "a") ∉ a_link <$> delivery_set sample_world sources 5
                     (initial_state (Some sample_ledger_text) None).
Proof.
  apply no_redelivery. by_compute.
Defined.

(** ** Entries without a link *)

(** C4, as stated, fails.  In [sample_world] the feed holds two entries
    without link.  A first run for recipient 5 on an empty ledger delivers
    only the first of them and puts [None] into the recipient's set, which
    is written to the ledger file as [null]; a second run from that file
    over the same feed delivers nothing: the entry without link is
    dedup-tracked and is not delivered again. *)
Lemma linkless_entry_counterexample :
  let st0 := initial_state None None in
  let st1 := (send_news_to_chat sample_world 5 st0).2 in
  a_title <$> delivery_set sample_world sources 5 st0 = [py "A"; py "B"]
  ∧ a_link <$> delivery_set sample_world sources 5 st0 = [Some (py "a"); None]
  ∧ seen 5 st0 = ∅
  ∧ seen 5 st1 = {[ None; Some (py "a") ]}
  ∧ loaded_ledger (sent_file st1) !! 5 = Some {[ None; Some (py "a") ]}
  ∧ delivery_set sample_world sources 5 (initial_state (sent_file st1) None) = [].
Proof.
  repeat split; try (vm_compute; reflexivity); by_compute.
Qed.

(** C4, amended.  An entry without link has the identity [None], and
    [None] is tracked like any link: the entry is collected exactly when
    [None] is not yet in the recipient's set, and collecting it puts
    [None] into the set; a run that starts with [None] in the recipient's
    loaded set delivers no entry without link. *)
Theorem linkless_entry_tracked (W : world) (chat_id : Z)
    (acc : list article * nat) (e : entry) (st st1 : state) (d : datetime) :
  link e = None →
  get_entry_datetime W e st = (Ok d, st1) →
  (None ∉ seen chat_id st →
     (collect_entry W chat_id acc e st).1
       = Ok (acc.1 ++ [ {| a_title := default (py "No title") (title e);
                           a_link := None; a_pub_dt := d |} ], S acc.2)
     ∧ seen chat_id (collect_entry W chat_id acc e st).2
       = {[ None ]} ∪ seen chat_id st)
  ∧ (None ∈ seen chat_id st →
     (collect_entry W chat_id acc e st).1 = Ok acc
     ∧ seen chat_id (collect_entry W chat_id acc e st).2 = seen chat_id st)
  ∧ (∀ (srcs : list (pystr * pystr)) (st0 : state),
       None ∈ seen chat_id (load_sent_links st0).2 →
       None ∉ a_link <$> delivery_set W srcs chat_id st0).
Proof.
  intros Hlink Hdt. rewrite collect_entry_run, Hdt, Hlink.
  pose proof (get_entry_datetime_quiet W e st) as [Hq _].
  rewrite Hdt in Hq. cbn in Hq.
  rewrite <- (same_store_seen chat_id _ _ Hq).
  split; [|split].
  - intros Hseen. rewrite decide_True by assumption. cbn [fst snd].
    rewrite seen_mark_seen, <- (same_store_seen chat_id _ _ Hq). done.
  - intros Hseen.
    rewrite decide_False by (intros Hn; exact (Hn Hseen)). cbn [fst snd].
    rewrite <- (same_store_seen chat_id _ _ Hq). done.
  - intros srcs st0. apply seen_not_collected.
Qed.

Lemma linkless_entry_tracked_witness :
  seen 5 (collect_entry sample_world 5 ([], O) (plain_entry None (py "B"))
            (initial_state None None)).2
  = {[ None ]} ∪ seen 5 (initial_state None None).
Proof.
  refine (proj2 (proj1 (linkless_entry_tracked sample_world 5 ([], O)
                          (plain_entry None (py "B"))
                          (initial_state None None) (initial_state None None)
                          {| instant := 0; utcoffset := VN_TZ |}
                          eq_refl eq_refl) _)).
  by_compute.
Defined.

(** ** A run without recipients *)

(** [load_active_chats] always returns; in a process whose
    [active_chats] is still empty it leaves [registry_of] of the file
    there, and it emits log records only. *)
Lemma load_active_chats_run (st : state) :
  active_chats st = ∅ →
  ∃ tr, load_active_chats st
        = (Ok tt, {| sent_links := sent_links st;
                     active_chats := registry_of (chat_file st);
                     sent_file := sent_file st; chat_file := chat_file st;
                     trace := trace st ++ tr |})
        ∧ forallb is_log tr = true.
Proof.
  unfold load_active_chats. destruct st as [sl ac sf cf tr0]. cbn.
  intros ->. destruct cf as [[l|ex]|]; run_m.
  - exists [EvLog LInfo MsgLoadedActiveChats]. split; reflexivity.
  - exists [EvLog LWarning (MsgCouldNotLoadActiveChats ex)]. split; reflexivity.
  - exists []. rewrite app_nil_r. split; reflexivity.
Qed.

(** C7. When the registry is empty, [main] returns normally; every event
    of the run is a log record, so that it fetches nothing, posts nothing
    and does not write the ledger file, which stays as it was; its last
    two log records are the warning about the missing recipients and the
    closing record. *)
Theorem empty_registry_run (W : world) (sf : option pystr)
    (cf : option (result (list Z))) :
  registry_of cf = ∅ →
  (main W (initial_state sf cf)).1 = Ok tt
  ∧ sent_file (main W (initial_state sf cf)).2 = sf
  ∧ forallb is_log (trace (main W (initial_state sf cf)).2) = true
  ∧ ∃ tr, trace (main W (initial_state sf cf)).2
          = tr ++ [EvLog LWarning MsgNoActiveChats; EvLog LInfo MsgScriptFinished].
Proof.
  intros Hempty. unfold main.
  rewrite bind_run. cbn [log emit modify].
  destruct (load_sent_links_run (add_event (EvLog LInfo MsgRunning)
                                   (initial_state sf cf)))
    as (m & tr1 & Hload & Hlog1).
  rewrite bind_run, Hload. rewrite bind_run.
  match goal with
  | |- context [load_active_chats ?s] =>
      destruct (load_active_chats_run s eq_refl) as (tr2 & Hchats & Hlog2)
  end.
  rewrite Hchats. cbn [chat_file initial_state add_event].
  rewrite Hempty. run_m.
  destruct (decide (∅ = ∅ :> gset Z)) as [_|Hne]; [|congruence]. cbn.
  split; [reflexivity|]. split; [reflexivity|]. split.
  - rewrite !forallb_app. cbn. rewrite Hlog1, Hlog2. reflexivity.
  - exists ((EvLog LInfo MsgRunning :: tr1) ++ tr2).
    rewrite <- !(assoc (++)). reflexivity.
Qed.

Lemma empty_registry_run_witness :
  (main sample_world (initial_state (Some sample_ledger_text) (Some (Ok [])))).1
  = Ok tt.
Proof.
  exact (proj1 (empty_registry_run sample_world (Some sample_ledger_text)
                  (Some (Ok [])) eq_refl)).
Defined.
(** ** [int(str(k)) = k] *)

Lemma uint_digits_range (u : Decimal.uint) (c : N) :
  c ∈ uint_digits u → (48 ≤ c ≤ 57)%N.
Proof.
  induction u; cbn; intros H; try (inversion H; fail);
    apply elem_of_cons in H as [->|H]; auto; lia.
Qed.

Lemma digit_of_hd (u : Decimal.uint) (c : N) (t : pystr) :
  uint_digits u = c :: t → (c =? 95)%N = false.
Proof.
  intros H. apply N.eqb_neq. intros ->.
  assert (Hc : (95 : N) ∈ uint_digits u) by (rewrite H; left).
  apply uint_digits_range in Hc. lia.
Qed.

Lemma parse_digits_uint (u : Decimal.uint) :
  u ≠ Decimal.Nil → parse_digits (uint_digits u) = Some u.
Proof.
  induction u as [|u IH|u IH|u IH|u IH|u IH|u IH|u IH|u IH|u IH|u IH];
    intros Hne; [congruence|..];
    cbn [uint_digits parse_digits]; cbn [digit_of N.eqb Pos.eqb];
    (destruct (uint_digits u) as [|c t] eqn:Hu;
     [destruct u; cbn in Hu; try discriminate; reflexivity|];
     rewrite (digit_of_hd u c t Hu);
     rewrite IH by (intros ->; discriminate); reflexivity).
Qed.

Lemma rstrip_no_space (s : pystr) :
  (∀ c, c ∈ s → is_space c = false) → rstrip s = s.
Proof.
  induction s as [|c t IH]; intros H; [reflexivity|]. cbn [rstrip].
  rewrite IH by (intros c' Hc'; apply H; right; assumption).
  destruct t; [|reflexivity].
  rewrite (H c) by left. reflexivity.
Qed.

Lemma lstrip_no_space (s : pystr) :
  (∀ c, c ∈ s → is_space c = false) → lstrip s = s.
Proof.
  destruct s as [|c t]; intros H; [reflexivity|]. cbn [lstrip].
  rewrite (H c) by left. reflexivity.
Qed.

Lemma is_space_digit (c : N) : (45 ≤ c ≤ 57)%N → is_space c = false.
Proof.
  intros H. unfold is_space.
  repeat match goal with
  | |- context [(?a =? ?b)%N] => destruct (N.eqb_spec a b); [lia|]
  | |- context [(?a <=? ?b)%N] => destruct (N.leb_spec a b)
  end; cbn; try reflexivity; lia.
Qed.

Lemma uint_digits_nonnil (u : Decimal.uint) :
  u ≠ Decimal.Nil → ∃ c t, uint_digits u = c :: t ∧ (48 ≤ c ≤ 57)%N.
Proof.
  intros Hne. destruct (uint_digits u) as [|c t] eqn:Hu.
  - destruct u; cbn in Hu; congruence.
  - exists c, t. split; [reflexivity|].
    apply (uint_digits_range u). rewrite Hu. left.
Qed.

Lemma to_int_nonnil (k : Z) :
  match Z.to_int k with
  | Decimal.Pos u | Decimal.Neg u => u ≠ Decimal.Nil
  end.
Proof.
  destruct k; cbn; try apply DecimalPos.Unsigned.to_uint_nonnil. discriminate.
Qed.

(** [int(str(k))] is [k]. *)
Lemma py_int_py_str (k : Z) : py_int (py_str k) = Ok k.
Proof.
  unfold py_int, py_str.
  pose proof (to_int_nonnil k) as Hne.
  pose proof (DecimalZ.of_to k) as Hk.
  destruct (Z.to_int k) as [u|u].
  - destruct (uint_digits_nonnil u Hne) as (c & t & Hu & Hc).
    assert (Hsp : ∀ x, x ∈ uint_digits u → is_space x = false).
    { intros x Hx. apply is_space_digit. apply uint_digits_range in Hx. lia. }
    rewrite (lstrip_no_space _ Hsp), (rstrip_no_space _ Hsp).
    rewrite Hu. rewrite <- Hu.
    destruct (N.eqb_spec c 45); [lia|]. destruct (N.eqb_spec c 43); [lia|].
    rewrite (parse_digits_uint u Hne). cbn [option_map]. rewrite Hk. reflexivity.
  - assert (Hsp : ∀ x, x ∈ 45%N :: uint_digits u → is_space x = false).
    { intros x Hx. apply is_space_digit.
      apply elem_of_cons in Hx as [->|Hx]; [lia|].
      apply uint_digits_range in Hx. lia. }
    rewrite (lstrip_no_space _ Hsp), (rstrip_no_space _ Hsp).
    cbn [N.eqb Pos.eqb]. rewrite (parse_digits_uint u Hne). cbn [option_map].
    rewrite Hk. reflexivity.
Qed.

Lemma py_str_inj (k k' : Z) : py_str k = py_str k' → k = k'.
Proof.
  intros H. pose proof (py_int_py_str k) as H1. rewrite H in H1.
  rewrite py_int_py_str in H1. congruence.
Qed.

(** ** The text of the ledger is read back *)

Local Open Scope N_scope.

Lemma below_32_cases (P : N → Prop) :
  (∀ n : nat, (n < 32)%nat → P (N.of_nat n)) → ∀ c, c < 32 → P c.
Proof.
  intros H c Hc. rewrite <- (N2Nat.id c). apply H. lia.
Qed.

(** The scanner reads back an escaped character. *)
Lemma scanstring_escape_char (c : N) (acc t : pystr) :
  scanstring acc (escape_char c ++ t) = scanstring (c :: acc) t.
Proof.
  destruct (N.ltb_spec c 32) as [Hlt|Hge].
  - revert acc t. pattern c. apply below_32_cases; [|exact Hlt].
    intros n Hn acc t.
    do 32 (destruct n as [|n]; [reflexivity|]). lia.
  - unfold escape_char.
    destruct (N.eqb_spec c 34) as [->|H34]; [reflexivity|].
    destruct (N.eqb_spec c 92) as [->|H92]; [reflexivity|].
    repeat match goal with
    | |- context [c =? ?k] => destruct (N.eqb_spec c k); [lia|]
    end.
    destruct (N.ltb_spec c 32); [lia|].
    cbn [app scanstring].
    destruct (N.eqb_spec c 34); [lia|]. destruct (N.eqb_spec c 92); [lia|].
    destruct (N.ltb_spec c 32); [lia|]. reflexivity.
Qed.

Lemma scanstring_encoded (s acc t : pystr) :
  scanstring acc (flat_map escape_char s ++ 34 :: t) = Some (rev acc ++ s, t).
Proof.
  revert acc. induction s as [|c s IH]; intros acc.
  - cbn. rewrite app_nil_r. reflexivity.
  - cbn [flat_map]. rewrite <- (assoc (++)).
    rewrite scanstring_escape_char, IH. cbn [rev].
    rewrite <- (assoc (++)). reflexivity.
Qed.

Lemma parse_elem_encoded (x : option pystr) (t : pystr) :
  parse_elem (encode_elem x ++ t) = Some (x, t).
Proof.
  destruct x as [s|]; [|reflexivity].
  unfold encode_elem, encode_string. rewrite <- !(assoc (++)).
  cbn [app parse_elem N.eqb Pos.eqb].
  rewrite scanstring_encoded. reflexivity.
Qed.

Lemma skip_ws_newline_indent (n : nat) (t : pystr) :
  skip_ws (newline_indent n ++ t) = skip_ws t.
Proof.
  unfold newline_indent. cbn [app skip_ws is_json_ws N.eqb Pos.eqb orb].
  induction n as [|n IH]; [reflexivity|]. exact IH.
Qed.

(** The text of an element starts with a quote or with the [n] of
    [null], so that white space before it is skipped and it is neither a
    comma nor a closing bracket. *)
Lemma skip_ws_encode_elem (x : option pystr) (t : pystr) :
  skip_ws (encode_elem x ++ t) = encode_elem x ++ t.
Proof. destruct x; reflexivity. Qed.

Lemma parse_items_encoded (l : list (option pystr)) (acc : list (option pystr))
    (fuel : nat) (t : pystr) :
  (length l < fuel)%nat →
  parse_items fuel acc
    (flat_map (λ y, [44] ++ newline_indent 4 ++ encode_elem y) l
     ++ newline_indent 2 ++ [93] ++ t)
  = Some (rev acc ++ l, t).
Proof.
  revert acc fuel. induction l as [|y l IH]; intros acc fuel Hfuel.
  - destruct fuel as [|fuel]; [cbn in Hfuel; lia|].
    cbn. rewrite app_nil_r. reflexivity.
  - destruct fuel as [|fuel]; [cbn in Hfuel; lia|].
    cbn [flat_map]. rewrite <- !(assoc (++)).
    cbn [parse_items app skip_ws is_json_ws N.eqb Pos.eqb orb].
    rewrite skip_ws_newline_indent, skip_ws_encode_elem, parse_elem_encoded.
    rewrite IH by (cbn in Hfuel; lia). cbn [rev].
    rewrite <- (assoc (++)). reflexivity.
Qed.

Lemma parse_array_encoded (l : list (option pystr)) (fuel : nat) (t : pystr) :
  (length l ≤ fuel)%nat →
  parse_array fuel (encode_array l ++ t) = Some (l, t).
Proof.
  intros Hfuel. destruct l as [|x l]; [reflexivity|].
  unfold encode_array. rewrite <- !(assoc (++)).
  set (rest := flat_map (λ y, [44] ++ newline_indent 4 ++ encode_elem y) l
               ++ newline_indent 2 ++ [93] ++ t).
  cbn [parse_array app N.eqb Pos.eqb].
  rewrite skip_ws_newline_indent, skip_ws_encode_elem.
  pose proof (parse_elem_encoded x rest) as Hp.
  destruct x as [s|];
    [cbn [encode_elem encode_string app] in Hp |- *
    |change (encode_elem None) with [110; 117; 108; 108] in Hp |- *;
     cbn [app] in Hp |- *];
    cbn [N.eqb Pos.eqb]; rewrite Hp; subst rest;
    (rewrite parse_items_encoded by (cbn in Hfuel; lia)); reflexivity.
Qed.

Lemma parse_member_encoded (m : pystr * list (option pystr)) (fuel : nat)
    (t : pystr) :
  (length m.2 ≤ fuel)%nat →
  parse_member fuel (encode_member m ++ t) = Some (m, t).
Proof.
  intros Hfuel. destruct m as [key l].
  unfold encode_member, encode_string. cbn [fst snd].
  rewrite <- !(assoc (++)).
  cbn [parse_member app N.eqb Pos.eqb].
  rewrite scanstring_encoded.
  cbn [rev app skip_ws is_json_ws N.eqb Pos.eqb orb].
  assert (Hws : skip_ws (encode_array l ++ t) = encode_array l ++ t)
    by (destruct l; reflexivity).
  rewrite Hws, parse_array_encoded by exact Hfuel. reflexivity.
Qed.

Lemma skip_ws_encode_member (m : pystr * list (option pystr)) (t : pystr) :
  skip_ws (encode_member m ++ t) = encode_member m ++ t.
Proof. reflexivity. Qed.

Lemma parse_members_encoded (ms acc : list (pystr * list (option pystr)))
    (fuel : nat) (t : pystr) :
  (length ms < fuel)%nat →
  (∀ m, m ∈ ms → (length ms + length m.2 ≤ fuel)%nat) →
  parse_members fuel acc
    (flat_map (λ m, [44] ++ newline_indent 2 ++ encode_member m) ms
     ++ newline_indent 0 ++ [125] ++ t)
  = Some (rev acc ++ ms, t).
Proof.
  revert acc fuel. induction ms as [|m ms IH]; intros acc fuel Hfuel Hsz.
  - destruct fuel as [|fuel]; [cbn in Hfuel; lia|].
    cbn. rewrite app_nil_r. reflexivity.
  - destruct fuel as [|fuel]; [cbn in Hfuel; lia|].
    cbn [flat_map]. rewrite <- !(assoc (++)).
    cbn [parse_members app skip_ws is_json_ws N.eqb Pos.eqb orb].
    rewrite skip_ws_newline_indent, skip_ws_encode_member.
    rewrite parse_member_encoded.
    + rewrite IH.
      * cbn [rev]. rewrite <- (assoc (++)). reflexivity.
      * cbn in Hfuel. lia.
      * intros m' Hm'. specialize (Hsz m' (list_elem_of_further _ _ _ Hm')).
        cbn in Hsz. lia.
    + specialize (Hsz m (list_elem_of_here _ _)). cbn in Hsz. lia.
Qed.

Lemma parse_object_encoded (d : list (pystr * list (option pystr)))
    (fuel : nat) (t : pystr) :
  (length d ≤ fuel)%nat →
  (∀ m, m ∈ d → (length d + length m.2 ≤ fuel)%nat) →
  parse_object fuel (encode_doc d ++ t) = Some (d, t).
Proof.
  intros Hfuel Hsz. destruct d as [|m d]; [reflexivity|].
  unfold encode_doc. rewrite <- !(assoc (++)).
  set (rest := flat_map (λ m', [44] ++ newline_indent 2 ++ encode_member m') d
               ++ newline_indent 0 ++ [125] ++ t).
  cbn [parse_object app N.eqb Pos.eqb].
  rewrite skip_ws_newline_indent, skip_ws_encode_member.
  pose proof (parse_member_encoded m fuel rest) as Hp.
  unfold encode_member at 1, encode_string at 1.
  unfold encode_member at 1, encode_string at 1 in Hp.
  rewrite <- !(assoc (++)) in Hp |- *. cbn [app] in Hp |- *.
  cbn [N.eqb Pos.eqb].
  rewrite Hp.
  - subst rest. rewrite parse_members_encoded; [reflexivity|cbn in Hfuel; lia|].
    intros m' Hm'. specialize (Hsz m' (list_elem_of_further _ _ _ Hm')).
    cbn in Hsz. lia.
  - specialize (Hsz m (list_elem_of_here _ _)). cbn in Hsz. lia.
Qed.

Local Close Scope N_scope.
Local Open Scope nat_scope.

Lemma doc_weight_length (d : list (pystr * list (option pystr))) :
  length d ≤ doc_weight d.
Proof. induction d as [|m d IH]; cbn; lia. Qed.

Lemma doc_weight_member (d : list (pystr * list (option pystr))) m :
  m ∈ d → length d + length m.2 ≤ doc_weight d.
Proof.
  induction d as [|m' d IH]; intros Hm; [inversion Hm|].
  apply elem_of_cons in Hm as [->|Hm]; cbn.
  - pose proof (doc_weight_length d). lia.
  - specialize (IH Hm). lia.
Qed.

Lemma length_encode_array (l : list (option pystr)) :
  length l ≤ length (encode_array l).
Proof.
  destruct l as [|x l]; [cbn; lia|].
  unfold encode_array. rewrite !length_app. cbn [length].
  assert (H : length l ≤ length (flat_map
              (λ y, [44%N] ++ newline_indent 4 ++ encode_elem y) l)).
  { induction l as [|y l IH]; [cbn; lia|].
    cbn [flat_map]. rewrite !length_app. cbn [length]. lia. }
  lia.
Qed.

Lemma length_encode_member (m : pystr * list (option pystr)) :
  S (length m.2) ≤ length (encode_member m).
Proof.
  unfold encode_member, encode_string. rewrite !length_app. cbn [length].
  pose proof (length_encode_array m.2). lia.
Qed.

Lemma doc_weight_encode_doc (d : list (pystr * list (option pystr))) :
  doc_weight d ≤ length (encode_doc d).
Proof.
  destruct d as [|m d]; [cbn; lia|].
  unfold encode_doc. rewrite !length_app. cbn [length doc_weight].
  pose proof (length_encode_member m).
  assert (H' : doc_weight d ≤ length (flat_map
              (λ m', [44%N] ++ newline_indent 2 ++ encode_member m') d)).
  { induction d as [|m' d IH]; [cbn; lia|].
    cbn [flat_map doc_weight]. rewrite !length_app. cbn [length].
    pose proof (length_encode_member m'). lia. }
  lia.
Qed.

(** Decoding the text of a document gives the document back. *)
Lemma decode_encode_doc (d : list (pystr * list (option pystr))) :
  decode_doc (encode_doc d) = Ok d.
Proof.
  unfold decode_doc.
  assert (Hws : skip_ws (encode_doc d) = encode_doc d)
    by (destruct d; reflexivity).
  rewrite Hws.
  pose proof (parse_object_encoded d (length (encode_doc d)) []) as Hp.
  rewrite app_nil_r in Hp. rewrite Hp; [reflexivity| |].
  - pose proof (doc_weight_length d). pose proof (doc_weight_encode_doc d). lia.
  - intros m Hm. pose proof (doc_weight_member d m Hm).
    pose proof (doc_weight_encode_doc d). lia.
Qed.

Local Close Scope nat_scope.

(** ** Persist and load *)

Lemma dict_set_fresh {K V} `{EqDecision K} (k : K) (v : V) (d : list (K * V)) :
  k ∉ d.*1 → dict_set k v d = d ++ [(k, v)].
Proof.
  induction d as [|[k' v'] d IH]; intros Hk; [reflexivity|].
  cbn [dict_set]. cbn in Hk. apply not_elem_of_cons in Hk as [Hne Hk].
  rewrite decide_False by exact Hne. rewrite IH by exact Hk. reflexivity.
Qed.

(** An object without repeated keys becomes a dictionary with the same
    items in the same order. *)
Lemma foldl_dict_set_NoDup {K V} `{EqDecision K} (d acc : list (K * V)) :
  NoDup ((acc ++ d).*1) →
  foldl (λ a m, dict_set m.1 m.2 a) acc d = acc ++ d.
Proof.
  revert acc. induction d as [|[k v] d IH]; intros acc Hnd.
  - cbn. rewrite app_nil_r. reflexivity.
  - cbn [foldl fst snd]. rewrite dict_set_fresh.
    + rewrite IH; rewrite <- (assoc (++)); [reflexivity|exact Hnd].
    + rewrite fmap_app in Hnd. apply NoDup_app in Hnd as (_ & Hdisj & _).
      intros Hk. apply (Hdisj k Hk). cbn. left.
Qed.

Lemma data_of_ledger_keys_NoDup (m : gmap Z (gset (option (list N)))) :
  NoDup ((data_of_ledger m).*1).
Proof.
  unfold data_of_ledger. rewrite <- list_fmap_compose.
  assert (Heq : (fst ∘ (λ kv : Z * gset (option (list N)),
                          (py_str kv.1, elements kv.2)))
                <$> map_to_list m = py_str <$> (map_to_list m).*1).
  { rewrite <- list_fmap_compose. reflexivity. }
  rewrite Heq. apply NoDup_fmap_2_strong.
  - intros k k' _ _. apply py_str_inj.
  - apply NoDup_fst_map_to_list.
Qed.

Lemma json_load_encoded (m : gmap Z (gset (option (list N)))) :
  json_load (encode_doc (data_of_ledger m)) = Ok (data_of_ledger m).
Proof.
  unfold json_load. rewrite decode_encode_doc. cbn [result_bind].
  rewrite foldl_dict_set_NoDup; [reflexivity|].
  apply data_of_ledger_keys_NoDup.
Qed.

(** Inserting the items of a list without repeated keys one after the
    other. *)
Lemma foldl_insert_NoDup {V} (l : list (Z * V)) (acc : gmap Z V) :
  NoDup (l.*1) →
  foldl (λ a kv, <[kv.1 := kv.2]> a) acc l = list_to_map l ∪ acc.
Proof.
  revert acc. induction l as [|[k v] l IH]; intros acc Hnd.
  - cbn. rewrite (left_id_L ∅ (∪)). reflexivity.
  - cbn in Hnd. apply NoDup_cons in Hnd as [Hk Hnd].
    cbn [foldl fst snd list_to_map foldr]. rewrite IH by exact Hnd.
    rewrite <- insert_union_r by (apply not_elem_of_list_to_map_1; exact Hk).
    rewrite insert_union_l. reflexivity.
Qed.

Lemma ledger_of_data_fold (l : list (Z * gset (option (list N))))
    (acc : gmap Z (gset (option (list N)))) :
  foldl (λ acc kv,
           result_bind acc (λ m,
           result_bind (py_int kv.1) (λ k,
           Ok (<[k := list_to_set kv.2]> m))))
        (Ok acc)
        ((λ kv, (py_str kv.1, elements kv.2)) <$> l)
  = Ok (foldl (λ a kv, <[kv.1 := kv.2]> a) acc l).
Proof.
  revert acc. induction l as [|[k s] l IH]; intros acc; [reflexivity|].
  cbn [fmap list_fmap foldl fst snd result_bind].
  rewrite py_int_py_str. cbn [result_bind].
  rewrite list_to_set_elements_L. apply IH.
Qed.

(** The comprehension of [load_sent_links] undoes the one of
    [save_sent_links]. *)
Lemma ledger_of_data_of_ledger (m : gmap Z (gset (option (list N)))) :
  ledger_of_data (data_of_ledger m) = Ok m.
Proof.
  unfold ledger_of_data, data_of_ledger. rewrite ledger_of_data_fold.
  rewrite foldl_insert_NoDup by apply NoDup_fst_map_to_list.
  rewrite list_to_map_to_list, (right_id_L ∅ (∪)). reflexivity.
Qed.

(** [save_sent_links], step by step: the file is emptied and the text of
    the ledger is written. *)
Lemma save_sent_links_run (st : state) :
  save_sent_links st
  = (Ok tt,
     {| sent_links := sent_links st; active_chats := active_chats st;
        sent_file := Some (encode_doc (data_of_ledger (sent_links st)));
        chat_file := chat_file st;
        trace := trace st ++ [EvOpenTruncate;
                              EvWrite (encode_doc (data_of_ledger (sent_links st)))] |}).
Proof.
  unfold save_sent_links, open_truncate, file_write. run_m.
  unfold set_sent_file, add_event. cbn. rewrite <- (assoc (++)). reflexivity.
Qed.

(** Loading a file that holds the text of a ledger makes this ledger the
    global [sent_links]. *)
Lemma load_sent_links_encoded (st : state) (m : gmap Z (gset (option (list N)))) :
  sent_file st = Some (encode_doc (data_of_ledger m)) →
  load_sent_links st
  = (Ok tt, add_event (EvLog LInfo MsgLoadedSentLinks) (set_sent_links m st)).
Proof.
  intros Hf. unfold load_sent_links. rewrite Hf. run_m.
  rewrite json_load_encoded. cbn. rewrite ledger_of_data_of_ledger. reflexivity.
Qed.

(** C8. Persist followed by load is the identity on the seen-set: after
    [save_sent_links], [load_sent_links] makes the saved mapping the
    global [sent_links] again, whatever the global held in between, and
    so does the load of a fresh process. *)
Theorem persist_load_roundtrip (st : state)
    (m' : gmap Z (gset (option (list N)))) :
  sent_links (load_sent_links (set_sent_links m' (save_sent_links st).2)).2
    = sent_links st
  ∧ loaded_ledger (sent_file (save_sent_links st).2) = sent_links st.
Proof.
  rewrite save_sent_links_run. cbn [snd]. split.
  - rewrite (load_sent_links_encoded _ (sent_links st)) by reflexivity.
    reflexivity.
  - unfold loaded_ledger.
    rewrite (load_sent_links_encoded _ (sent_links st)) by reflexivity.
    reflexivity.
Qed.

(** ** The send phase *)

(** A loop whose body always returns, keeps the globals and the files,
    and posts [g x] posts all of them in order. *)
Lemma for_each_posts {A} (f : A → M unit) (g : A → list (Z * pystr))
    (l : list A) :
  (∀ x st, (f x st).1 = Ok tt ∧ same_store st (f x st).2
           ∧ posts (trace (f x st).2) = posts (trace st) ++ g x) →
  ∀ st, (for_each l f st).1 = Ok tt ∧ same_store st (for_each l f st).2
        ∧ posts (trace (for_each l f st).2) = posts (trace st) ++ (l ≫= g).
Proof.
  intros Hf. unfold for_each.
  induction l as [|x l IH]; intros st.
  - cbn. rewrite app_nil_r. repeat split.
  - rewrite foldM_cons. destruct (Hf x st) as (Hr & Hs & Hp).
    destruct (f x st) as [[[]|ex] st1]; cbn in Hr, Hs, Hp; [|discriminate].
    destruct (IH st1) as (Hr' & Hs' & Hp').
    split; [exact Hr'|]. split; [eapply same_store_trans; eauto|].
    rewrite Hp', Hp, bind_cons, (assoc (++)). reflexivity.
Qed.

Lemma send_collected_run (W : world) (chat_id : Z)
    (cn : list (pystr * list article)) (st : state) :
  (send_collected W chat_id cn st).1 = Ok tt
  ∧ same_store st (send_collected W chat_id cn st).2
  ∧ posts (trace (send_collected W chat_id cn st).2)
    = posts (trace st) ++ outbox chat_id cn.
Proof.
  unfold send_collected, outbox.
  apply (for_each_posts _
           (λ sa, (λ a, (chat_id, take 4000 (format_article sa.1 a))) <$> sa.2)).
  clear st. intros sa st.
  pose proof (for_each_posts
    (λ a, send_telegram_message W chat_id (format_article sa.1 a);; mret tt)
    (λ a, [(chat_id, take 4000 (format_article sa.1 a))]) sa.2) as H.
  assert (Hflat : ∀ l : list article,
            l ≫= (λ a, [(chat_id, take 4000 (format_article sa.1 a))])
            = (λ a, (chat_id, take 4000 (format_article sa.1 a))) <$> l).
  { induction l as [|a l IHl]; [reflexivity|].
    rewrite bind_cons, IHl. reflexivity. }
  rewrite <- Hflat. apply H. clear. intros a st. rewrite bind_run.
  destruct (send_telegram_message_returns W chat_id (format_article sa.1 a) st)
    as [b Hb].
  pose proof (send_telegram_message_store W chat_id (format_article sa.1 a) st)
    as Hs.
  pose proof (send_telegram_message_posts W chat_id (format_article sa.1 a) st)
    as Hp.
  destruct (send_telegram_message W chat_id (format_article sa.1 a) st)
    as [[b'|ex] st1]; cbn in Hb, Hs, Hp; [|discriminate].
  cbn. auto.
Qed.

(** [send_news_to_chat] after the collection, step by step. *)
Lemma send_news_from_run (W : world) (srcs : list (pystr * pystr))
    (chat_id : Z) (st : state) :
  send_news_from W srcs chat_id st =
  match collect_news W srcs chat_id st with
  | (Ok r, st1) =>
      match r.1 with
      | [] => (Ok tt, add_event (EvLog LInfo (MsgNoNewArticles chat_id)) st1)
      | _ :: _ =>
          (Ok tt,
           add_event (EvLog LInfo (MsgSentArticles r.2 chat_id))
             (save_sent_links (send_collected W chat_id r.1 st1).2).2)
      end
  | (Raise ex, st1) => (Raise ex, st1)
  end.
Proof.
  unfold send_news_from. rewrite bind_run.
  destruct (collect_news W srcs chat_id st) as [[r|ex] st1]; [|reflexivity].
  destruct (r.1) as [|sa cn] eqn:Hr; [reflexivity|].
  rewrite bind_run.
  destruct (send_collected_run W chat_id (sa :: cn) st1) as (Hok & _ & _).
  destruct (send_collected W chat_id (sa :: cn) st1) as [[[]|ex] st2];
    cbn in Hok; [|discriminate].
  rewrite bind_run. cbn [snd]. rewrite save_sent_links_run. reflexivity.
Qed.

(** The posts of a run are those for the collected articles: one post for
    each article of [delivery_set], in order. *)
Lemma send_news_from_posts (W : world) (srcs : list (pystr * pystr))
    (chat_id : Z) (st : state) :
  posts (trace (send_news_from W srcs chat_id st).2)
  = posts (trace st)
    ++ match (collect_news W srcs chat_id st).1 with
       | Ok r => outbox chat_id r.1
       | Raise _ => []
       end.
Proof.
  rewrite send_news_from_run.
  pose proof (collect_news_posts W srcs chat_id st) as Hc.
  destruct (collect_news W srcs chat_id st) as [[r|ex] st1]; cbn in Hc |- *.
  - destruct (r.1) as [|sa cn].
    + cbn. rewrite posts_app, Hc. reflexivity.
    + rewrite save_sent_links_run.
      destruct (send_collected_run W chat_id (sa :: cn) st1) as (_ & _ & Hp).
      cbn [snd add_event trace].
      rewrite !posts_app, Hp, Hc. cbn [posts]. rewrite !app_nil_r. reflexivity.
  - rewrite Hc, app_nil_r. reflexivity.
Qed.

(** C9. Every article a run hands to the send capability has its identity
    marked: whatever the answers to the posts are (the world [W] is
    arbitrary), the run returns normally, the identity is in the
    recipient's set in memory and in the ledger file the run has written,
    and no later run that starts from this file delivers an article with
    this identity to the recipient. *)
Theorem marked_regardless_of_delivery (W : world) (srcs : list (pystr * pystr))
    (chat_id : Z) (st : state) (a : article) :
  a ∈ delivery_set W srcs chat_id st →
  (send_news_from W srcs chat_id st).1 = Ok tt
  ∧ a_link a ∈ seen chat_id (send_news_from W srcs chat_id st).2
  ∧ a_link a ∈ default ∅
      (loaded_ledger (sent_file (send_news_from W srcs chat_id st).2) !! chat_id)
  ∧ ∀ (W' : world) (srcs' : list (pystr * pystr)) (cf : option (result (list Z))),
      a_link a ∉ a_link <$>
        delivery_set W' srcs' chat_id
          (initial_state (sent_file (send_news_from W srcs chat_id st).2) cf).
Proof.
  intros Ha. rewrite send_news_from_run. unfold delivery_set in Ha.
  destruct (collect_news W srcs chat_id st) as [[r|ex] st1] eqn:Hrun;
    cbn in Ha; [|inversion Ha].
  apply collect_news_tracked in Hrun as (_ & Hin & _).
  assert (Hseen : a_link a ∈ seen chat_id st1).
  { apply Hin. unfold news_links. apply list_elem_of_fmap_2. exact Ha. }
  destruct (r.1) as [|sa cn] eqn:Hr; [inversion Ha|].
  destruct (send_collected_run W chat_id (sa :: cn) st1) as (_ & Hs & _).
  rewrite (same_store_seen chat_id _ _ Hs) in Hseen.
  set (st2 := (send_collected W chat_id (sa :: cn) st1).2) in *.
  rewrite save_sent_links_run. cbn [fst snd sent_file add_event].
  assert (Hloaded : ∀ cf, sent_links (load_sent_links
            (initial_state (Some (encode_doc (data_of_ledger (sent_links st2)))) cf)).2
          = sent_links st2).
  { intros cf.
    rewrite (load_sent_links_encoded _ (sent_links st2)) by reflexivity.
    reflexivity. }
  split; [reflexivity|]. split; [exact Hseen|]. split.
  - unfold loaded_ledger. rewrite Hloaded. exact Hseen.
  - intros W' srcs' cf. apply seen_not_collected.
    unfold seen at 1. rewrite Hloaded. exact Hseen.
Qed.

Lemma marked_regardless_of_delivery_witness :
  Some (py "a") ∈ default ∅
    (loaded_ledger
       (sent_file (send_news_from sample_world sources 5
                     (initial_state None None)).2) !! 5).
Proof.
  refine (proj1 (proj2 (proj2
    (marked_regardless_of_delivery sample_world sources 5
       (initial_state None None)
       {| a_title := py "A"; a_link := Some (py "a");
          a_pub_dt := {| instant := 0; utcoffset := VN_TZ |} |} _)))).
  assert (H : delivery_set sample_world sources 5 (initial_state None None)
              = [ {| a_title := py "A"; a_link := Some (py "a");
                     a_pub_dt := {| instant := 0; utcoffset := VN_TZ |} |};
                  {| a_title := py "B"; a_link := None;
                     a_pub_dt := {| instant := 0; utcoffset := VN_TZ |} |} ])
    by (vm_compute; reflexivity).
  rewrite H. left.
Defined.

(** ** Computations that do not look at the trace *)

Lemma quiet_sym (a b : state) : quiet a b → quiet b a.
Proof. intros [H P]. split; [apply same_store_sym, H|congruence]. Qed.

Lemma quiet_add_event (ev : event) (st st' : state) :
  quiet st st' → quiet (add_event ev st) (add_event ev st').
Proof.
  intros [(?&?&?&?) P]. split; [repeat split; assumption|].
  cbn. rewrite !posts_app, P. reflexivity.
Qed.

Lemma blind_ret {A} (a : A) : blind (mret a).
Proof. intros st st' H. split; [reflexivity|exact H]. Qed.

Lemma blind_lift {A} (r : result A) : blind (lift r).
Proof. intros st st' H. split; [reflexivity|exact H]. Qed.

Lemma blind_emit (ev : event) : blind (emit ev).
Proof. intros st st' H. split; [reflexivity|apply quiet_add_event, H]. Qed.

Lemma blind_log (l : level) (m : logmsg) : blind (log l m).
Proof. apply blind_emit. Qed.

Lemma blind_bind {A B} (m : M A) (f : A → M B) :
  blind m → (∀ a, blind (f a)) → blind (m ≫= f).
Proof.
  intros Hm Hf st st' H. rewrite !bind_run.
  destruct (Hm st st' H) as [Hr Hq].
  destruct (m st) as [[a|ex] st1], (m st') as [[a'|ex'] st1'];
    cbn in Hr, Hq; try discriminate.
  - injection Hr as ->. apply Hf, Hq.
  - injection Hr as ->. split; [reflexivity|exact Hq].
Qed.

Lemma blind_try_except {A} (body : M A) (handler : exn → M A) :
  blind body → (∀ e, blind (handler e)) → blind (try_except body handler).
Proof.
  intros Hm Hh st st' H. unfold try_except.
  destruct (Hm st st' H) as [Hr Hq].
  destruct (body st) as [[a|ex] st1], (body st') as [[a'|ex'] st1'];
    cbn in Hr, Hq; try discriminate.
  - split; [exact Hr|exact Hq].
  - injection Hr as ->. apply Hh, Hq.
Qed.

Lemma blind_foldM {A B} (f : B → A → M B) (l : list A) :
  (∀ b x, blind (f b x)) → ∀ b, blind (foldM f b l).
Proof.
  intros Hf. induction l as [|x l IH]; intros b.
  - apply blind_ret.
  - cbn [foldM]. apply blind_bind; [apply Hf|exact IH].
Qed.

Ltac solve_blind :=
  repeat first
    [ apply blind_ret | apply blind_lift | apply blind_emit | apply blind_log
    | apply blind_bind; [|intros ?] | apply blind_try_except; [|intros ?] ].

Lemma fetch_rss_blind (W : world) (url : pystr) : blind (fetch_rss W url).
Proof. unfold fetch_rss. solve_blind. Qed.

Lemma send_telegram_message_blind (W : world) (chat_id : Z) (text : pystr) :
  blind (send_telegram_message W chat_id text).
Proof. unfold send_telegram_message. cbv zeta. solve_blind. Qed.

Lemma get_entry_datetime_blind (W : world) (e : entry) :
  blind (get_entry_datetime W e).
Proof.
  unfold get_entry_datetime. apply blind_bind.
  - apply blind_try_except; [|intros ?; solve_blind].
    destruct (published_parsed e) as [[?|]|], (updated_parsed e) as [[?|]|],
      (published e), (updated e); solve_blind.
  - intros [d|]; solve_blind.
Qed.

Lemma quiet_mark_seen (chat_id : Z) (l : option pystr) (st st' : state) :
  quiet st st' → quiet (mark_seen chat_id l st) (mark_seen chat_id l st').
Proof.
  intros [Hs P]. pose proof (same_store_seen chat_id _ _ Hs) as Hseen.
  destruct Hs as (H1&H2&H3&H4).
  split; [|exact P]. unfold mark_seen. rewrite Hseen, H1.
  repeat split; assumption.
Qed.

Lemma collect_entry_blind (W : world) (chat_id : Z) (acc : list article * nat)
    (e : entry) :
  blind (collect_entry W chat_id acc e).
Proof.
  intros st st' H. rewrite !collect_entry_run.
  destruct (get_entry_datetime_blind W e st st' H) as [Hr Hq].
  destruct (get_entry_datetime W e st) as [[d|ex] st1],
    (get_entry_datetime W e st') as [[d'|ex'] st1'];
    cbn in Hr, Hq; try discriminate.
  - injection Hr as ->.
    rewrite (same_store_seen chat_id _ _ (proj1 Hq)).
    destruct (decide (link e ∉ seen chat_id st1')).
    + split; [reflexivity|apply quiet_mark_seen, Hq].
    + split; [reflexivity|exact Hq].
  - injection Hr as ->. split; [reflexivity|exact Hq].
Qed.

Lemma collect_source_blind (W : world) (chat_id : Z)
    (acc : list (pystr * list article) * nat) (src : pystr * pystr) :
  blind (collect_source W chat_id acc src).
Proof.
  unfold collect_source. apply blind_bind; [apply fetch_rss_blind|].
  intros entries. apply blind_bind.
  - apply blind_foldM. intros. apply collect_entry_blind.
  - intros r. destruct (r.1); apply blind_ret.
Qed.

Lemma send_collected_blind (W : world) (chat_id : Z)
    (cn : list (pystr * list article)) :
  blind (send_collected W chat_id cn).
Proof.
  unfold send_collected, for_each. apply blind_foldM. intros _ sa.
  apply blind_foldM. intros _ a.
  apply blind_bind; [apply send_telegram_message_blind|].
  intros. apply blind_ret.
Qed.

Lemma save_sent_links_blind : blind save_sent_links.
Proof.
  intros st st' [(H1&H2&H3&H4) P]. rewrite !save_sent_links_run. cbn.
  split; [reflexivity|]. rewrite H1.
  split; [repeat split; assumption|].
  cbn. rewrite !posts_app, P. reflexivity.
Qed.

(** ** A feed that cannot be fetched *)

Lemma fetch_rss_fails (W : world) (url : pystr) (st : state) :
  fetch_fails W url → (fetch_rss W url st).1 = Ok [].
Proof.
  unfold fetch_rss. run_m.
  intros [[e He]|[(r & e & Hr & He)|[(r & e & Hr & Hs & He)|(r & Hr & Hs & He)]]].
  - rewrite He. reflexivity.
  - rewrite Hr. cbn. rewrite He. reflexivity.
  - rewrite Hr. cbn. rewrite Hs. cbn. rewrite He. reflexivity.
  - rewrite Hr. cbn. rewrite Hs. cbn. rewrite He. reflexivity.
Qed.

(** The turn of the loop for a feed that cannot be fetched changes
    neither [collected_news] nor the counter, nor the globals. *)
Lemma collect_source_fails (W : world) (chat_id : Z)
    (acc : list (pystr * list article) * nat) (src : pystr * pystr) (st : state) :
  fetch_fails W src.2 →
  (collect_source W chat_id acc src st).1 = Ok acc
  ∧ quiet st (collect_source W chat_id acc src st).2.
Proof.
  intros Hfail. rewrite collect_source_run.
  pose proof (fetch_rss_fails W src.2 st Hfail) as Hr.
  pose proof (fetch_rss_quiet W src.2 st) as Hq.
  destruct (fetch_rss W src.2 st) as [[entries|ex] st1]; cbn in Hr, Hq;
    [|discriminate].
  injection Hr as ->. cbn. destruct acc. split; [reflexivity|exact Hq].
Qed.

Lemma foldM_app {A B} (f : B → A → M B) (b : B) (l1 l2 : list A) (st : state) :
  foldM f b (l1 ++ l2) st =
  match foldM f b l1 st with
  | (Ok b1, st1) => foldM f b1 l2 st1
  | (Raise ex, st1) => (Raise ex, st1)
  end.
Proof.
  revert b st. induction l1 as [|x l1 IH]; intros b st; [reflexivity|].
  cbn [app]. rewrite !foldM_cons.
  destruct (f b x st) as [[b'|ex] st']; [apply IH|reflexivity].
Qed.

(** Leaving out a feed that cannot be fetched does not change what is
    collected. *)
Lemma collect_news_skip (W : world) (s1 s2 : list (pystr * pystr))
    (src : pystr * pystr) (chat_id : Z) (st : state) :
  fetch_fails W src.2 →
  (collect_news W (s1 ++ src :: s2) chat_id st).1
    = (collect_news W (s1 ++ s2) chat_id st).1
  ∧ quiet (collect_news W (s1 ++ src :: s2) chat_id st).2
          (collect_news W (s1 ++ s2) chat_id st).2.
Proof.
  intros Hfail. rewrite !collect_news_run, !foldM_app.
  destruct (foldM (collect_source W chat_id) ([], O) s1
              (ensure_chat chat_id (load_sent_links st).2))
    as [[b1|ex] st1]; [|split; [reflexivity|apply quiet_refl]].
  rewrite foldM_cons.
  destruct (collect_source_fails W chat_id b1 src st1 Hfail) as [Hr Hq].
  destruct (collect_source W chat_id b1 src st1) as [[b2|ex] st2];
    cbn in Hr, Hq; [|discriminate].
  injection Hr as ->.
  apply blind_foldM; [|apply quiet_sym, Hq].
  intros. apply collect_source_blind.
Qed.

(** C6. A feed whose fetch fails (transport error, error status or
    malformed body) is skipped: [fetch_rss] returns the empty list
    instead of raising, and the run with this feed in the list delivers
    the same articles, returns the same outcome, and ends with the same
    ledger in memory, the same ledger file and the same posts as the run
    without it; the entries of the other feeds are treated as if the
    failing feed were not configured. *)
Theorem fetch_failure_isolated (W : world) (s1 s2 : list (pystr * pystr))
    (src : pystr * pystr) (chat_id : Z) (st : state) :
  fetch_fails W src.2 →
  (∀ st0, (fetch_rss W src.2 st0).1 = Ok [])
  ∧ delivery_set W (s1 ++ src :: s2) chat_id st
    = delivery_set W (s1 ++ s2) chat_id st
  ∧ (send_news_from W (s1 ++ src :: s2) chat_id st).1
    = (send_news_from W (s1 ++ s2) chat_id st).1
  ∧ sent_links (send_news_from W (s1 ++ src :: s2) chat_id st).2
    = sent_links (send_news_from W (s1 ++ s2) chat_id st).2
  ∧ sent_file (send_news_from W (s1 ++ src :: s2) chat_id st).2
    = sent_file (send_news_from W (s1 ++ s2) chat_id st).2
  ∧ posts (trace (send_news_from W (s1 ++ src :: s2) chat_id st).2)
    = posts (trace (send_news_from W (s1 ++ s2) chat_id st).2).
Proof.
  intros Hfail.
  split; [intros st0; apply fetch_rss_fails, Hfail|].
  destruct (collect_news_skip W s1 s2 src chat_id st Hfail) as [Hr Hq].
  split; [unfold delivery_set; rewrite Hr; reflexivity|].
  assert (Hk : ∀ r : list (pystr * list article) * nat,
            blind (match r.1 with
                   | _ :: _ =>
                       send_collected W chat_id r.1;;
                       save_sent_links;;
                       log LInfo (MsgSentArticles r.2 chat_id)
                   | [] => log LInfo (MsgNoNewArticles chat_id)
                   end)).
  { intros r. destruct (r.1); [apply blind_log|].
    apply blind_bind; [apply send_collected_blind|]. intros _.
    apply blind_bind; [apply save_sent_links_blind|]. intros _.
    apply blind_log. }
  unfold send_news_from. rewrite !bind_run.
  destruct (collect_news W (s1 ++ src :: s2) chat_id st) as [[r|ex] stA],
    (collect_news W (s1 ++ s2) chat_id st) as [[r'|ex'] stB];
    cbn in Hr, Hq; try discriminate.
  - injection Hr as ->.
    destruct (Hk r' stA stB Hq) as [Hr' [(H1 & _ & H3 & _) HP]].
    repeat split; congruence.
  - injection Hr as ->. destruct Hq as [(H1 & _ & H3 & _) HP].
    repeat split; cbn; congruence.
Qed.

Lemma fetch_failure_isolated_witness :
  delivery_set sample_world sources 5 (initial_state None None)
  = delivery_set sample_world
      [ (127918%N :: py " GameK", py "http://gamek.vn/home.rss");
        (128241%N :: py " Pocket Gamer", py "https://www.pocketgamer.com/news/index.rss");
        (127922%N :: py " Gematsu", py "https://www.gematsu.com/feed") ]
      5 (initial_state None None).
Proof.
  refine (proj1 (proj2
    (fetch_failure_isolated sample_world
       [ (127918%N :: py " GameK", py "http://gamek.vn/home.rss") ]
       [ (128241%N :: py " Pocket Gamer", py "https://www.pocketgamer.com/news/index.rss");
         (127922%N :: py " Gematsu", py "https://www.gematsu.com/feed") ]
       (127919%N :: py " IGN", py "https://feeds.feedburner.com/ign/news")
       5 (initial_state None None) _))).
  left. exists RequestException. vm_compute. reflexivity.
Defined.

(** ** A text that is cut short is rejected *)

Local Open Scope nat_scope.

Lemma take_app_cases {A} (l k : list A) (n : nat) :
  (n < length l ∧ take n (l ++ k) = take n l)
  ∨ (length l ≤ n ∧ take n (l ++ k) = l ++ take (n - length l) k).
Proof.
  destruct (Nat.lt_ge_cases n (length l)) as [H|H].
  - left. split; [exact H|]. apply take_app_le. lia.
  - right. split; [exact H|]. apply take_app_ge. exact H.
Qed.

(** A proper prefix of an escape sequence is not accepted. *)
Lemma scanstring_cut_char (c : N) (acc : pystr) (n : nat) :
  n < length (escape_char c) →
  scanstring acc (take n (escape_char c)) = None.
Proof.
  destruct (N.ltb_spec c 32) as [Hlt|Hge].
  - revert acc n. pattern c. apply below_32_cases; [|exact Hlt].
    intros k Hk acc n.
    do 32 (destruct k as [|k];
           [intros Hn; do 6 (destruct n as [|n]; [reflexivity|]);
            exfalso; revert Hn; vm_compute; lia|]).
    lia.
  - unfold escape_char.
    destruct (N.eqb_spec c 34) as [->|H34];
      [cbn; intros Hn; do 2 (destruct n as [|n]; [reflexivity|]); lia|].
    destruct (N.eqb_spec c 92) as [->|H92];
      [cbn; intros Hn; do 2 (destruct n as [|n]; [reflexivity|]); lia|].
    repeat match goal with
    | |- context [(c =? ?k)%N] => destruct (N.eqb_spec c k); [lia|]
    end.
    destruct (N.ltb_spec c 32); [lia|].
    cbn. intros Hn. destruct n; [reflexivity|lia].
Qed.

(** Without the closing quote the scanner fails. *)
Lemma scanstring_cut (s acc : pystr) (n : nat) :
  scanstring acc (take n (flat_map escape_char s)) = None.
Proof.
  revert acc n. induction s as [|c s IH]; intros acc n.
  - cbn [flat_map]. rewrite take_nil. reflexivity.
  - cbn [flat_map].
    destruct (take_app_cases (escape_char c) (flat_map escape_char s) n)
      as [[Hn ->]|[Hn ->]].
    + apply scanstring_cut_char, Hn.
    + rewrite scanstring_escape_char. apply IH.
Qed.

Lemma parse_elem_cut (x : option pystr) (n : nat) :
  n < length (encode_elem x) →
  parse_elem (take n (encode_elem x)) = None.
Proof.
  destruct x as [s|].
  - unfold encode_elem, encode_string. intros Hn.
    destruct n as [|n]; [reflexivity|].
    cbn [app firstn parse_elem N.eqb Pos.eqb].
    rewrite take_app_le.
    + rewrite scanstring_cut. reflexivity.
    + cbn in Hn. rewrite length_app in Hn. cbn in Hn. lia.
  - cbn. intros Hn. do 4 (destruct n as [|n]; [reflexivity|]). lia.
Qed.

Lemma skip_ws_all_ws (s : pystr) :
  (∀ c, c ∈ s → is_json_ws c = true) → skip_ws s = [].
Proof.
  induction s as [|c s IH]; intros H; [reflexivity|].
  cbn [skip_ws]. rewrite (H c) by left.
  apply IH. intros c' Hc'. apply H. right. exact Hc'.
Qed.

Lemma skip_ws_cut_indent (k n : nat) :
  skip_ws (take n (newline_indent k)) = [].
Proof.
  apply skip_ws_all_ws. intros c Hc.
  apply elem_of_take in Hc as (i & Hi & _).
  apply list_elem_of_lookup_2 in Hi. unfold newline_indent in Hi.
  apply elem_of_cons in Hi as [->|Hi]; [reflexivity|].
  apply elem_of_replicate in Hi as [-> _]. reflexivity.
Qed.

(** A prefix of the text of an element is empty or starts with a
    character that is not white space. *)
Lemma skip_ws_cut_elem (x : option pystr) (n : nat) :
  skip_ws (take n (encode_elem x)) = take n (encode_elem x).
Proof. destruct x, n; reflexivity. Qed.

Lemma length_newline_indent (k : nat) : length (newline_indent k) = S k.
Proof. unfold newline_indent. cbn. rewrite length_replicate. reflexivity. Qed.

(** White space and then an element, cut anywhere before the end of the
    element: no element is read. *)
Lemma parse_elem_cut_indented (k : nat) (x : option pystr) (n : nat) :
  n < length (newline_indent k ++ encode_elem x) →
  parse_elem (skip_ws (take n (newline_indent k ++ encode_elem x))) = None.
Proof.
  intros Hn. rewrite length_app in Hn.
  destruct (take_app_cases (newline_indent k) (encode_elem x) n)
    as [[Hk ->]|[Hk ->]].
  - rewrite skip_ws_cut_indent. reflexivity.
  - rewrite skip_ws_newline_indent, skip_ws_cut_elem.
    apply parse_elem_cut. lia.
Qed.

Lemma parse_items_cut (l acc : list (option pystr)) (fuel n : nat) :
  n < length (flat_map (λ y, [44%N] ++ newline_indent 4 ++ encode_elem y) l
              ++ newline_indent 2 ++ [93%N]) →
  parse_items fuel acc
    (take n (flat_map (λ y, [44%N] ++ newline_indent 4 ++ encode_elem y) l
             ++ newline_indent 2 ++ [93%N]))
  = None.
Proof.
  revert acc fuel n. induction l as [|y l IH]; intros acc fuel n Hn;
    (destruct fuel as [|fuel]; [reflexivity|]).
  - cbn in Hn. do 4 (destruct n as [|n]; [reflexivity|]). lia.
  - cbn [flat_map] in *. rewrite <- !(assoc (++)) in *.
    set (body := flat_map (λ y, [44%N] ++ newline_indent 4 ++ encode_elem y) l
                 ++ newline_indent 2 ++ [93%N]) in *.
    cbn [app] in Hn |- *. destruct n as [|n]; [reflexivity|].
    cbn [firstn parse_items skip_ws is_json_ws N.eqb Pos.eqb orb].
    cbn [length] in Hn. rewrite app_assoc. rewrite app_assoc in Hn.
    destruct (take_app_cases (newline_indent 4 ++ encode_elem y) body n)
      as [[Hk ->]|[Hk ->]].
    + rewrite parse_elem_cut_indented by exact Hk. reflexivity.
    + rewrite <- (assoc (++)).
      rewrite skip_ws_newline_indent, skip_ws_encode_elem, parse_elem_encoded.
      apply IH. rewrite length_app in Hn. lia.
Qed.

Lemma parse_array_cut (l : list (option pystr)) (fuel n : nat) :
  n < length (encode_array l) →
  parse_array fuel (take n (encode_array l)) = None.
Proof.
  intros Hn. destruct l as [|x l].
  - cbn in Hn. do 2 (destruct n as [|n]; [reflexivity|]). lia.
  - unfold encode_array in *.
    set (body := flat_map (λ y, [44%N] ++ newline_indent 4 ++ encode_elem y) l
                 ++ newline_indent 2 ++ [93%N]) in *.
    cbn [app] in Hn |- *. destruct n as [|n]; [reflexivity|].
    cbn [firstn parse_array N.eqb Pos.eqb].
    cbn [length] in Hn. rewrite app_assoc. rewrite app_assoc in Hn.
    destruct (take_app_cases (newline_indent 4 ++ encode_elem x) body n)
      as [[Hk ->]|[Hk ->]].
    + pose proof (parse_elem_cut_indented 4 x n Hk) as Hp.
      destruct (skip_ws (take n (newline_indent 4 ++ encode_elem x)))
        as [|c t] eqn:Hs; [reflexivity|].
      rewrite Hp.
      assert (Hc : (c =? 93)%N = false).
      { destruct (take_app_cases (newline_indent 4) (encode_elem x) n)
          as [[_ Ht]|[_ Ht]]; rewrite Ht in Hs.
        - rewrite skip_ws_cut_indent in Hs. discriminate.
        - rewrite skip_ws_newline_indent, skip_ws_cut_elem in Hs.
          destruct x, (n - length (newline_indent 4)); cbn in Hs;
            try discriminate; injection Hs as <- _; reflexivity. }
      rewrite Hc. reflexivity.
    + rewrite <- (assoc (++)).
      rewrite skip_ws_newline_indent, skip_ws_encode_elem.
      pose proof (parse_elem_encoded x (take (n - length (newline_indent 4 ++ encode_elem x)) body)) as Hp.
      assert (Hhd : ∃ c t, encode_elem x = c :: t ∧ (c =? 93)%N = false)
        by (destruct x; cbn; eauto).
      destruct Hhd as (c & t & Hx & Hc). rewrite Hx in Hp |- *.
      cbn [app] in Hp |- *. rewrite Hc, Hp.
      apply parse_items_cut. rewrite length_app in Hn.
      rewrite Hx in Hk, Hn. subst body. lia.
Qed.

(** With any fuel the parsers read a complete text correctly or not at
    all. *)
Lemma parse_items_encoded_any (l acc : list (option pystr)) (fuel : nat)
    (t : pystr) :
  parse_items fuel acc
    (flat_map (λ y, [44%N] ++ newline_indent 4 ++ encode_elem y) l
     ++ newline_indent 2 ++ [93%N] ++ t) = None
  ∨ parse_items fuel acc
      (flat_map (λ y, [44%N] ++ newline_indent 4 ++ encode_elem y) l
       ++ newline_indent 2 ++ [93%N] ++ t) = Some (rev acc ++ l, t).
Proof.
  destruct (Nat.lt_ge_cases (length l) fuel) as [H|H].
  - right. apply parse_items_encoded, H.
  - left. revert acc fuel H. induction l as [|y l IH]; intros acc fuel H;
      (destruct fuel as [|fuel]; [reflexivity|]); [cbn in H; lia|].
    cbn [flat_map]. rewrite <- !(assoc (++)).
    cbn [parse_items app skip_ws is_json_ws N.eqb Pos.eqb orb].
    rewrite skip_ws_newline_indent, skip_ws_encode_elem, parse_elem_encoded.
    apply IH. cbn in H. lia.
Qed.

Lemma parse_array_encoded_any (l : list (option pystr)) (fuel : nat) (t : pystr) :
  parse_array fuel (encode_array l ++ t) = None
  ∨ parse_array fuel (encode_array l ++ t) = Some (l, t).
Proof.
  destruct l as [|x l]; [right; reflexivity|].
  unfold encode_array. rewrite <- !(assoc (++)).
  set (rest := flat_map (λ y, [44%N] ++ newline_indent 4 ++ encode_elem y) l
               ++ newline_indent 2 ++ [93%N] ++ t).
  cbn [parse_array app N.eqb Pos.eqb].
  rewrite skip_ws_newline_indent, skip_ws_encode_elem.
  pose proof (parse_elem_encoded x rest) as Hp.
  destruct x as [s|];
    [cbn [encode_elem encode_string app] in Hp |- *
    |change (encode_elem None) with [110%N; 117%N; 108%N; 108%N] in Hp |- *;
     cbn [app] in Hp |- *];
    cbn [N.eqb Pos.eqb]; rewrite Hp; subst rest;
    apply (parse_items_encoded_any l [_]).
Qed.

Lemma parse_member_encoded_any (m : pystr * list (option pystr)) (fuel : nat)
    (t : pystr) :
  parse_member fuel (encode_member m ++ t) = None
  ∨ parse_member fuel (encode_member m ++ t) = Some (m, t).
Proof.
  destruct m as [key l].
  unfold encode_member, encode_string. cbn [fst snd].
  rewrite <- !(assoc (++)).
  cbn [parse_member app N.eqb Pos.eqb].
  rewrite scanstring_encoded.
  cbn [rev app skip_ws is_json_ws N.eqb Pos.eqb orb].
  assert (Hws : skip_ws (encode_array l ++ t) = encode_array l ++ t)
    by (destruct l; reflexivity).
  rewrite Hws.
  destruct (parse_array_encoded_any l fuel t) as [-> | ->]; auto.
Qed.

Lemma skip_ws_cut_array (l : list (option pystr)) (n : nat) :
  skip_ws (take n (encode_array l)) = take n (encode_array l).
Proof. destruct l, n; reflexivity. Qed.

Lemma skip_ws_cut_member (m : pystr * list (option pystr)) (n : nat) :
  skip_ws (take n (encode_member m)) = take n (encode_member m).
Proof. destruct n; reflexivity. Qed.

Lemma parse_member_cut (m : pystr * list (option pystr)) (fuel n : nat) :
  n < length (encode_member m) →
  parse_member fuel (take n (encode_member m)) = None.
Proof.
  destruct m as [key l]. unfold encode_member, encode_string. cbn [fst snd].
  rewrite <- !(assoc (++)). cbn [app length]. intros Hn.
  destruct n as [|n]; [reflexivity|].
  cbn [firstn parse_member N.eqb Pos.eqb].
  destruct (take_app_cases (flat_map escape_char key)
              (34%N :: 58%N :: 32%N :: encode_array l) n) as [[Hk ->]|[Hk ->]].
  - rewrite scanstring_cut. reflexivity.
  - rewrite length_app in Hn. cbn [length] in Hn.
    destruct (n - length (flat_map escape_char key)) as [|n1] eqn:Hn1.
    + cbn [firstn]. rewrite app_nil_r.
      rewrite <- (take_ge (flat_map escape_char key)
                    (length (flat_map escape_char key))) by lia.
      rewrite scanstring_cut. reflexivity.
    + cbn [firstn]. rewrite scanstring_encoded. cbn [rev app].
      destruct n1 as [|[|n2]]; [reflexivity..|].
      cbn [firstn skip_ws is_json_ws N.eqb Pos.eqb orb].
      rewrite skip_ws_cut_array, parse_array_cut by lia. reflexivity.
Qed.

Lemma parse_members_cut (ms acc : list (pystr * list (option pystr)))
    (fuel n : nat) :
  n < length (flat_map (λ m, [44%N] ++ newline_indent 2 ++ encode_member m) ms
              ++ newline_indent 0 ++ [125%N]) →
  parse_members fuel acc
    (take n (flat_map (λ m, [44%N] ++ newline_indent 2 ++ encode_member m) ms
             ++ newline_indent 0 ++ [125%N]))
  = None.
Proof.
  revert acc fuel n. induction ms as [|m ms IH]; intros acc fuel n Hn;
    (destruct fuel as [|fuel]; [reflexivity|]).
  - cbn in Hn. do 2 (destruct n as [|n]; [reflexivity|]). lia.
  - cbn [flat_map] in *. rewrite <- !(assoc (++)) in *.
    set (body := flat_map (λ m, [44%N] ++ newline_indent 2 ++ encode_member m) ms
                 ++ newline_indent 0 ++ [125%N]) in *.
    cbn [app] in Hn |- *. destruct n as [|n]; [reflexivity|].
    cbn [firstn parse_members skip_ws is_json_ws N.eqb Pos.eqb orb].
    cbn [length] in Hn. rewrite length_app in Hn.
    destruct (take_app_cases (newline_indent 2) (encode_member m ++ body) n)
      as [[Hk ->]|[Hk ->]].
    + rewrite skip_ws_cut_indent. reflexivity.
    + rewrite skip_ws_newline_indent. rewrite length_app in Hn.
      destruct (take_app_cases (encode_member m) body
                  (n - length (newline_indent 2))) as [[Hk' ->]|[Hk' ->]].
      * rewrite skip_ws_cut_member, parse_member_cut by exact Hk'. reflexivity.
      * rewrite skip_ws_encode_member.
        destruct (parse_member_encoded_any m fuel
                    (take (n - length (newline_indent 2) - length (encode_member m)) body))
          as [-> | ->]; [reflexivity|].
        apply IH. lia.
Qed.

Lemma parse_object_cut (d : list (pystr * list (option pystr))) (fuel n : nat) :
  n < length (encode_doc d) →
  parse_object fuel (take n (encode_doc d)) = None.
Proof.
  intros Hn. destruct d as [|m d].
  - cbn in Hn. do 2 (destruct n as [|n]; [reflexivity|]). lia.
  - unfold encode_doc in *.
    set (body := flat_map (λ m', [44%N] ++ newline_indent 2 ++ encode_member m') d
                 ++ newline_indent 0 ++ [125%N]) in *.
    cbn [app] in Hn |- *. destruct n as [|n]; [reflexivity|].
    cbn [firstn parse_object N.eqb Pos.eqb].
    cbn [length] in Hn. rewrite length_app in Hn.
    destruct (take_app_cases (newline_indent 2) (encode_member m ++ body) n)
      as [[Hk ->]|[Hk ->]].
    + rewrite skip_ws_cut_indent. reflexivity.
    + rewrite skip_ws_newline_indent. rewrite length_app in Hn.
      destruct (take_app_cases (encode_member m) body
                  (n - length (newline_indent 2))) as [[Hk' ->]|[Hk' ->]].
      * rewrite skip_ws_cut_member.
        pose proof (parse_member_cut m fuel _ Hk') as Hp.
        destruct (take (n - length (newline_indent 2)) (encode_member m))
          as [|c t] eqn:Ht; [reflexivity|].
        assert (Hc : (c =? 125)%N = false).
        { destruct (n - length (newline_indent 2)); [discriminate|].
          cbn in Ht. injection Ht as <- _. reflexivity. }
        rewrite Hc, Hp. reflexivity.
      * rewrite skip_ws_encode_member.
        assert (Hrest : n - length (newline_indent 2) - length (encode_member m)
                        < length body) by lia.
        set (rest := take (n - length (newline_indent 2)
                           - length (encode_member m)) body) in *.
        pose proof (parse_member_encoded_any m fuel rest) as Hp.
        unfold encode_member, encode_string in Hp |- *.
        rewrite <- !(assoc (++)) in Hp |- *. cbn [app] in Hp |- *.
        cbn [N.eqb Pos.eqb].
        destruct Hp as [-> | ->]; [reflexivity|].
        subst rest body. apply parse_members_cut. exact Hrest.
Qed.

(** The text of a ledger that is cut anywhere before its end is not
    accepted by the decoder. *)
Lemma decode_doc_cut (d : list (pystr * list (option pystr))) (n : nat) :
  n < length (encode_doc d) →
  decode_doc (take n (encode_doc d)) = Raise JSONDecodeError.
Proof.
  intros Hn. unfold decode_doc.
  assert (Hws : skip_ws (take n (encode_doc d)) = take n (encode_doc d))
    by (destruct d, n; reflexivity).
  rewrite Hws, parse_object_cut by exact Hn. reflexivity.
Qed.

Local Close Scope nat_scope.

(** ** Persist is not atomic *)

(** A persist that is interrupted leaves the first characters of the new
    text in the file, whatever the file held before. *)
Lemma save_sent_links_interrupted_run (n : nat) (st : state) :
  sent_file (save_sent_links_interrupted n st).2
  = Some (take n (encode_doc (data_of_ledger (sent_links st)))).
Proof.
  unfold save_sent_links_interrupted, open_truncate, file_write. run_m.
  reflexivity.
Qed.

(** Loading a file whose text was cut short fails: an error is logged and
    the globals stay as they are. *)
Lemma load_sent_links_cut (st : state) (m : gmap Z (gset (option (list N))))
    (n : nat) :
  (n < length (encode_doc (data_of_ledger m)))%nat →
  sent_file st = Some (take n (encode_doc (data_of_ledger m))) →
  load_sent_links st
  = (Ok tt, add_event (EvLog LError (MsgErrorLoadingJson JSONDecodeError)) st).
Proof.
  intros Hn Hf. unfold load_sent_links. rewrite Hf. run_m.
  unfold json_load. rewrite decode_doc_cut by exact Hn. reflexivity.
Qed.

(** C5, as stated, fails.  The process [sample_dirty_state] has the
    loadable ledger file [{5: [a]}] and persists [{5: [a, b]}]; when the
    persist is interrupted after ten characters, the file holds the ten
    characters of the new text (an opening brace, a line break, two
    spaces, the key [5] in quotes, a colon, a space and an opening
    bracket) and a fresh process loads nothing from it: the state that was
    loadable before is gone. *)
Lemma interrupted_persist_counterexample :
  loaded_ledger (sent_file sample_dirty_state) = {[ 5 := {[ Some (py "a") ]} ]}
  ∧ sent_file (save_sent_links_interrupted 10 sample_dirty_state).2
    = Some [123; 10; 32; 32; 34; 53; 34; 58; 32; 91]%N
  ∧ loaded_ledger (sent_file (save_sent_links_interrupted 10 sample_dirty_state).2)
    = ∅
  ∧ loaded_ledger (sent_file (save_sent_links_interrupted 10 sample_dirty_state).2)
    ≠ loaded_ledger (sent_file sample_dirty_state).
Proof.
  assert (H1 : loaded_ledger (sent_file sample_dirty_state)
               = {[ 5 := {[ Some (py "a") ]} ]}) by by_compute.
  assert (H2 : loaded_ledger
                 (sent_file (save_sent_links_interrupted 10 sample_dirty_state).2)
               = ∅) by by_compute.
  split; [exact H1|]. split; [vm_compute; reflexivity|]. split; [exact H2|].
  rewrite H1, H2. intros Heq.
  apply (f_equal (λ m : gmap Z (gset (option (list N))), m !! 5)) in Heq.
  rewrite lookup_empty, lookup_singleton_eq in Heq. discriminate.
Qed.

(** C5, amended.  [save_sent_links] writes in place: it empties the ledger
    file and writes the new text into it.  A persist interrupted after [n]
    characters leaves the first [n] characters of the new text in the
    file, whatever the file held; if the text is cut short, every later
    load rejects the file, logs the error and keeps the ledger it has in
    memory, so that no load observes a partially written set, and a fresh
    process starts from the empty ledger; a persist that writes the whole
    text is read back whole. *)
Theorem persist_in_place (st : state) (n : nat) :
  sent_file (save_sent_links_interrupted n st).2
    = Some (take n (encode_doc (data_of_ledger (sent_links st))))
  ∧ ((n < length (encode_doc (data_of_ledger (sent_links st))))%nat →
     (∀ st', sent_file st' = sent_file (save_sent_links_interrupted n st).2 →
             load_sent_links st'
             = (Ok tt, add_event (EvLog LError (MsgErrorLoadingJson JSONDecodeError)) st'))
     ∧ loaded_ledger (sent_file (save_sent_links_interrupted n st).2) = ∅)
  ∧ ((length (encode_doc (data_of_ledger (sent_links st))) ≤ n)%nat →
     sent_file (save_sent_links_interrupted n st).2
       = sent_file (save_sent_links st).2
     ∧ loaded_ledger (sent_file (save_sent_links_interrupted n st).2)
       = sent_links st).
Proof.
  rewrite save_sent_links_interrupted_run.
  split; [reflexivity|]. split.
  - intros Hn.
    assert (Hload : ∀ st', sent_file st'
                = Some (take n (encode_doc (data_of_ledger (sent_links st)))) →
              load_sent_links st'
              = (Ok tt, add_event (EvLog LError (MsgErrorLoadingJson JSONDecodeError)) st')).
    { intros st' Hf. exact (load_sent_links_cut st' (sent_links st) n Hn Hf). }
    split; [exact Hload|].
    unfold loaded_ledger. rewrite Hload by reflexivity. reflexivity.
  - intros Hn. rewrite take_ge by exact Hn. rewrite save_sent_links_run.
    split; [reflexivity|].
    unfold loaded_ledger.
    rewrite (load_sent_links_encoded _ (sent_links st)) by reflexivity.
    reflexivity.
Qed.

Lemma persist_in_place_witness :
  loaded_ledger (sent_file (save_sent_links_interrupted 10 sample_dirty_state).2)
  = ∅.
Proof.
  refine (proj2 (proj1 (proj2 (persist_in_place sample_dirty_state 10)) _)).
  vm_compute. lia.
Defined.

(** * Further properties of the functions *)

(** ** The range of [datetime] *)

Lemma days_before_year_succ (y : Z) :
  days_before_year (y + 1) = days_before_year y + 365 + (if is_leap y then 1 else 0).
Proof.
  unfold days_before_year, is_leap. cbv zeta.
  replace (y + 1 - 1) with y by lia.
  destruct (Z.eqb_spec (y mod 4) 0), (Z.eqb_spec (y mod 100) 0),
    (Z.eqb_spec (y mod 400) 0); cbn [negb andb orb];
    Z.to_euclidean_division_equations; lia.
Qed.

Lemma days_before_year_bound (y : Z) :
  1 <= y <= 10000 → 0 <= days_before_year y <= 3652059.
Proof.
  intros Hy. unfold days_before_year. cbv zeta.
  Z.to_euclidean_division_equations. lia.
Qed.

Lemma ymd2ord_bound (y m d : Z) :
  1 <= y <= 9999 → 1 <= m <= 12 → 1 <= d <= days_in_month y m →
  1 <= ymd2ord y m d <= 3652059.
Proof.
  intros Hy Hm Hd.
  pose proof (days_before_year_bound y ltac:(lia)) as H0.
  pose proof (days_before_year_bound (y + 1) ltac:(lia)) as H1.
  rewrite days_before_year_succ in H1.
  unfold ymd2ord, days_before_month, days_in_month in *.
  assert (Hcases : m = 1 ∨ m = 2 ∨ m = 3 ∨ m = 4 ∨ m = 5 ∨ m = 6 ∨ m = 7
                   ∨ m = 8 ∨ m = 9 ∨ m = 10 ∨ m = 11 ∨ m = 12) by lia.
  destruct (is_leap y);
    destruct Hcases as [->|[->|[->|[->|[->|[->|[->|[->|[->|[->|[->| ->]]]]]]]]]]];
    cbn in *;
    repeat match goal with
    | |- context [Z.to_nat ?e] =>
        let v := eval vm_compute in (Z.to_nat e) in change (Z.to_nat e) with v
    end; cbn; lia.
Qed.

(** The constructor gives a time in the range of [datetime]. *)
Lemma datetime_utc_in_range (t : struct_time) (d : datetime) :
  datetime_utc t = Ok d →
  in_datetime_range (instant d) = true ∧ utcoffset d = 0.
Proof.
  destruct t as [y m dd hh mm ss]. unfold datetime_utc.
  case_match eqn:Hc; [|discriminate]. intros [= <-]. cbn [instant utcoffset].
  repeat (apply andb_prop in Hc as [Hc ?]).
  repeat match goal with
  | H : (_ <=? _) = true |- _ => apply Z.leb_le in H
  end.
  pose proof (ymd2ord_bound y m dd ltac:(lia) ltac:(lia) ltac:(lia)) as Hord.
  split; [|reflexivity].
  unfold in_datetime_range. apply andb_true_intro.
  assert (Hmax : datetime_max = 253402300799999999) by reflexivity.
  assert (Hmin : datetime_min = -62135596800000000) by reflexivity.
  rewrite Hmax, Hmin. unfold epoch_ordinal, us_per_second.
  split; apply Z.leb_le; lia.
Qed.

(** ** [load_sent_links] *)

Lemma gets_app (a b : list event) : gets (a ++ b) = gets a ++ gets b.
Proof.
  induction a as [|ev a IH]; [reflexivity|].
  destruct ev; cbn; rewrite IH; reflexivity.
Qed.

Lemma logs_app (a b : list event) : logs (a ++ b) = logs a ++ logs b.
Proof.
  induction a as [|ev a IH]; [reflexivity|].
  destruct ev; cbn; rewrite IH; reflexivity.
Qed.

(** X1. [load_sent_links] never raises and touches only the global
    [sent_links] and the log.  Without a ledger file it does nothing at
    all; with a file that is not JSON it keeps the ledger it has in memory
    and logs one error. *)
Theorem load_sent_links_failsafe (st : state) :
  (load_sent_links st).1 = Ok tt
  ∧ active_chats (load_sent_links st).2 = active_chats st
  ∧ sent_file (load_sent_links st).2 = sent_file st
  ∧ chat_file (load_sent_links st).2 = chat_file st
  ∧ posts (trace (load_sent_links st).2) = posts (trace st)
  ∧ gets (trace (load_sent_links st).2) = gets (trace st)
  ∧ (sent_file st = None → load_sent_links st = (Ok tt, st))
  ∧ (∀ content e, sent_file st = Some content → json_load content = Raise e →
       load_sent_links st
       = (Ok tt, add_event (EvLog LError (MsgErrorLoadingJson e)) st)).
Proof.
  destruct (load_sent_links_run st) as (m & tr & Hload & Hlog).
  assert (Hsilent : posts (trace st ++ tr) = posts (trace st)
                    ∧ gets (trace st ++ tr) = gets (trace st)).
  { rewrite posts_app, gets_app. clear Hload.
    induction tr as [|ev tr IH]; [rewrite !app_nil_r; split; reflexivity|].
    cbn in Hlog. apply andb_prop in Hlog as [Hev Hlog].
    destruct ev; try discriminate. cbn. apply IH, Hlog. }
  rewrite Hload. cbn [fst snd active_chats sent_file chat_file trace].
  destruct Hsilent as [Hp Hg].
  repeat (split; [first [reflexivity | exact Hp | exact Hg]|]).
  split.
  - intros Hf. rewrite <- Hload. unfold load_sent_links. rewrite Hf. reflexivity.
  - intros content e Hf He. rewrite <- Hload.
    unfold load_sent_links. rewrite Hf. run_m. rewrite He. reflexivity.
Qed.

Lemma load_sent_links_failsafe_witness :
  load_sent_links (initial_state (Some []) None)
  = (Ok tt, add_event (EvLog LError (MsgErrorLoadingJson JSONDecodeError))
              (initial_state (Some []) None)).
Proof.
  exact (proj2 (proj2 (proj2 (proj2 (proj2 (proj2 (proj2
           (load_sent_links_failsafe (initial_state (Some []) None))))))))
           [] JSONDecodeError eq_refl eq_refl).
Defined.

Lemma py_int_raises_ValueError (s : pystr) (e : exn) :
  py_int s = Raise e → e = ValueError.
Proof.
  unfold py_int. case_match; [discriminate|]. intros [= <-]. reflexivity.
Qed.

(** The comprehension stops at the first key that is not an integer. *)
Lemma ledger_of_data_bad_key (data : list (pystr * list (option pystr)))
    (kv : pystr * list (option pystr)) (e : exn) :
  kv ∈ data → py_int kv.1 = Raise e →
  ledger_of_data data = Raise ValueError.
Proof.
  intros Hin Hbad. unfold ledger_of_data.
  set (step := λ (acc : result (gmap Z (gset (option (list N)))))
                 (kv : pystr * list (option pystr)),
                 result_bind acc (λ m, result_bind (py_int kv.1)
                   (λ k, Ok (<[k := list_to_set kv.2]> m)))).
  assert (Hraise : ∀ l, foldl step (Raise ValueError) l = Raise ValueError).
  { induction l as [|x l IH]; [reflexivity|]. cbn. exact IH. }
  assert (Hgen : ∀ acc, (∃ m, acc = Ok m) ∨ acc = Raise ValueError →
                        foldl step acc data = Raise ValueError).
  { induction data as [|x data IH]; intros acc Hacc; [inversion Hin|].
    cbn [foldl]. destruct Hacc as [[m ->]| ->].
    - apply elem_of_cons in Hin as [<-|Hin].
      + unfold step at 2. cbn [result_bind].
        rewrite Hbad, (py_int_raises_ValueError _ _ Hbad). apply Hraise.
      + apply (IH Hin). unfold step. cbn [result_bind].
        destruct (py_int x.1) as [k|e0] eqn:Hx; cbn [result_bind]; [eauto|].
        right. rewrite (py_int_raises_ValueError _ _ Hx). reflexivity.
    - cbn. apply Hraise. }
  apply Hgen. left. eauto.
Qed.

(** X2. One key that is not an integer makes [load_sent_links] reject the
    whole ledger file: the ledger in memory stays as it is, also for the
    recipients whose keys are integers, and one error is logged. *)
Theorem load_sent_links_bad_key (st : state) (content : pystr)
    (data : list (pystr * list (option pystr)))
    (kv : pystr * list (option pystr)) (e : exn) :
  sent_file st = Some content →
  json_load content = Ok data →
  kv ∈ data →
  py_int kv.1 = Raise e →
  load_sent_links st
  = (Ok tt, add_event (EvLog LError (MsgErrorLoadingJson ValueError)) st).
Proof.
  intros Hf Hdata Hin Hbad. unfold load_sent_links. rewrite Hf. run_m.
  rewrite Hdata. cbn.
  rewrite (ledger_of_data_bad_key data kv e Hin Hbad). reflexivity.
Qed.

Lemma load_sent_links_bad_key_witness :
  load_sent_links (initial_state (Some bad_key_ledger_text) None)
  = (Ok tt, add_event (EvLog LError (MsgErrorLoadingJson ValueError))
              (initial_state (Some bad_key_ledger_text) None)).
Proof.
  apply (load_sent_links_bad_key
           (initial_state (Some bad_key_ledger_text) None)
           bad_key_ledger_text
           [(py "5", [Some (py "a")]); (py "x", [])]
           (py "x", []) ValueError).
  - reflexivity.
  - vm_compute. reflexivity.
  - right. left.
  - vm_compute. reflexivity.
Defined.

(** The ledger in memory after a load. *)
Lemma load_sent_links_ledger (st : state) :
  sent_links (load_sent_links st).2
  = match sent_file st with
    | Some content =>
        match result_bind (json_load content) ledger_of_data with
        | Ok m => m
        | Raise _ => sent_links st
        end
    | None => sent_links st
    end.
Proof.
  unfold load_sent_links. destruct (sent_file st) as [content|]; [|reflexivity].
  run_m. destruct (json_load content) as [data|e]; cbn; [|reflexivity].
  destruct (ledger_of_data data); reflexivity.
Qed.

(** X3. Loading is idempotent: a second [load_sent_links] right after the
    first leaves the same ledger in memory.  The load at the start of
    [main] and the load at the start of each [send_news_to_chat] read the
    same file. *)
Theorem load_sent_links_idempotent (st : state) :
  sent_links (load_sent_links (load_sent_links st).2).2
  = sent_links (load_sent_links st).2.
Proof.
  rewrite (load_sent_links_ledger (load_sent_links st).2).
  destruct (load_sent_links_run st) as (m & tr & Hload & _).
  assert (Hf : sent_file (load_sent_links st).2 = sent_file st)
    by (rewrite Hload; reflexivity).
  rewrite Hf. rewrite (load_sent_links_ledger st).
  destruct (sent_file st) as [content|]; [|reflexivity].
  destruct (result_bind (json_load content) ledger_of_data); reflexivity.
Qed.

(** ** [fetch_rss], [send_telegram_message], [get_entry_datetime] *)

(** X4. [fetch_rss] never raises and makes exactly one request, to the URL
    it is given.  It returns the entries of the parser when the request,
    the status check and the parser succeed, and the empty list otherwise;
    it logs an error exactly in the second case, and it changes neither
    the globals nor the files. *)
Theorem fetch_rss_contract (W : world) (url : pystr) (st : state) :
  (fetch_rss W url st).1 = Ok (feed_entries W url)
  ∧ gets (trace (fetch_rss W url st).2) = gets (trace st) ++ [url]
  ∧ posts (trace (fetch_rss W url st).2) = posts (trace st)
  ∧ same_store st (fetch_rss W url st).2
  ∧ (length (logs (trace (fetch_rss W url st).2)) = length (logs (trace st))
     ↔ ∃ resp entries, requests_get W url = Ok resp
                       ∧ raise_for_status resp = Ok tt
                       ∧ feedparser_parse W (resp_text resp) = Ok entries).
Proof.
  unfold fetch_rss, feed_entries. run_m.
  destruct (requests_get W url) as [resp|e1] eqn:H1; cbn;
    [destruct (raise_for_status resp) as [[]|e2] eqn:H2; cbn;
     [destruct (feedparser_parse W (resp_text resp)) as [entries|e3] eqn:H3;
      cbn|]|];
    rewrite ?gets_app, ?posts_app, ?logs_app, ?length_app; cbn;
    rewrite ?app_nil_r; repeat split; try reflexivity.
  all: try (intros Hlen; exfalso; lia).
  all: try (intros (r' & es & Hr & Hs & Hp); congruence).
  all: eauto.
Qed.

(** X5. [send_telegram_message] never raises and makes exactly one post.
    It returns [True] exactly when the request returns with a status that
    is not an error status; otherwise it returns [False] and logs one
    error.  It fetches nothing and changes neither the globals nor the
    files. *)
Theorem send_telegram_message_contract (W : world) (chat_id : Z)
    (text : pystr) (st : state) :
  (send_telegram_message W chat_id text st).1 = Ok (send_ok W chat_id text)
  ∧ trace (send_telegram_message W chat_id text st).2
    = trace st ++ EvPost chat_id (take 4000 text)
        :: (if send_ok W chat_id text then []
            else [EvLog LError
                    (MsgErrorSendingMessage
                       match requests_post W chat_id (take 4000 text) with
                       | Ok _ => HTTPError
                       | Raise e => e
                       end)])
  ∧ same_store st (send_telegram_message W chat_id text st).2.
Proof.
  unfold send_telegram_message, send_ok. run_m.
  destruct (requests_post W chat_id (take 4000 text)) as [resp|e1]; cbn.
  - unfold raise_for_status. destruct (_ && _); cbn;
      rewrite <- ?(assoc (++)); repeat split; reflexivity.
  - rewrite <- ?(assoc (++)). repeat split; reflexivity.
Qed.

(** X6. A structured published time takes precedence over every other
    date of the entry, and a structured updated time over the free-text
    dates: when the tuple is a valid date that is not in the last seven
    hours of the year 9999, [get_entry_datetime] returns the same instant
    with the offset of [VN_TZ], logs nothing and leaves the state as it
    is. *)
Theorem structured_time_wins (W : world) (e : entry) (st : state)
    (t : struct_time) (d : datetime) :
  datetime_utc t = Ok d →
  instant d + VN_TZ * us_per_second <= datetime_max →
  (published_parsed e = Some (Some t) →
   get_entry_datetime W e st
   = (Ok {| instant := instant d; utcoffset := VN_TZ |}, st))
  ∧ (no_struct_time (published_parsed e) → updated_parsed e = Some (Some t) →
     get_entry_datetime W e st
     = (Ok {| instant := instant d; utcoffset := VN_TZ |}, st)).
Proof.
  intros Ht Hmax.
  destruct (datetime_utc_in_range t d Ht) as [Hr _].
  pose proof (astimezone_VN_in_range d Hr Hmax) as Hconv.
  split.
  - intros Hp. unfold get_entry_datetime. rewrite Hp. run_m.
    rewrite Ht. cbn. rewrite Hconv. reflexivity.
  - intros Hno Hu. unfold get_entry_datetime. rewrite Hu.
    destruct (published_parsed e) as [[?|]|]; [destruct Hno| |];
      run_m; rewrite Ht; cbn; rewrite Hconv; reflexivity.
Qed.

Lemma structured_time_wins_witness :
  get_entry_datetime sample_world dated_entry (initial_state None None)
  = (Ok {| instant := 1709249400000000; utcoffset := VN_TZ |},
     initial_state None None).
Proof.
  refine (proj1 (structured_time_wins sample_world dated_entry
                   (initial_state None None)
                   (Build_struct_time 2024 2 29 23 30 0)
                   {| instant := 1709249400000000; utcoffset := 0 |}
                   eq_refl _) eq_refl).
  vm_compute. discriminate.
Defined.

(** X7. A failure of the chosen date is not repaired from the later ones.
    When the structured published time is not a valid date, or when no
    structured time is usable and the published string is rejected by the
    date parser, [get_entry_datetime] returns the current time in
    [VN_TZ] and logs one warning; the updated time and the updated string
    are not consulted.  When the entry has no date at all it returns the
    current time without a warning. *)
Theorem failed_date_gives_now (W : world) (e : entry) (st : state) :
  (∀ t ex, published_parsed e = Some (Some t) → datetime_utc t = Raise ex →
     get_entry_datetime W e st
     = (Ok (now_vn W), add_event (EvLog LWarning (MsgCannotParseDatetime ex)) st))
  ∧ (∀ s ex, no_struct_time (published_parsed e) →
       no_struct_time (updated_parsed e) →
       published e = Some s → dateparser_parse W s = Raise ex →
       get_entry_datetime W e st
       = (Ok (now_vn W), add_event (EvLog LWarning (MsgCannotParseDatetime ex)) st))
  ∧ (no_struct_time (published_parsed e) →
     no_struct_time (updated_parsed e) →
     published e = None → updated e = None →
     get_entry_datetime W e st = (Ok (now_vn W), st)).
Proof.
  split; [|split].
  - intros t ex Hp Ht. unfold get_entry_datetime. rewrite Hp. run_m.
    rewrite Ht. reflexivity.
  - intros s ex Hnp Hnu Hs Hex. unfold get_entry_datetime. rewrite Hs.
    destruct (published_parsed e) as [[?|]|]; [destruct Hnp| |];
      (destruct (updated_parsed e) as [[?|]|]; [destruct Hnu| |]);
      run_m; rewrite Hex; reflexivity.
  - intros Hnp Hnu Hs Hu. unfold get_entry_datetime. rewrite Hs, Hu.
    destruct (published_parsed e) as [[?|]|]; [destruct Hnp| |];
      (destruct (updated_parsed e) as [[?|]|]; [destruct Hnu| |]);
      reflexivity.
Qed.

Lemma failed_date_gives_now_witness :
  get_entry_datetime sample_world misdated_entry (initial_state None None)
  = (Ok (now_vn sample_world),
     add_event (EvLog LWarning (MsgCannotParseDatetime ValueError))
       (initial_state None None))
  ∧ get_entry_datetime sample_world text_dated_entry (initial_state None None)
    = (Ok (now_vn sample_world),
       add_event (EvLog LWarning (MsgCannotParseDatetime ParserError))
         (initial_state None None)).
Proof.
  split.
  - exact (proj1 (failed_date_gives_now sample_world misdated_entry
                    (initial_state None None))
             (Build_struct_time 2023 2 29 0 0 0) ValueError eq_refl eq_refl).
  - exact (proj1 (proj2 (failed_date_gives_now sample_world text_dated_entry
                           (initial_state None None)))
             (py "yesterday") ParserError I I eq_refl eq_refl).
Defined.

(** X8. [get_entry_datetime] only adds log records to the trace: it
    fetches nothing, posts nothing and changes neither the globals nor the
    files.  A timestamp it returns has the offset of [VN_TZ], seven hours
    east of UTC, and the only exception it lets through is
    [OverflowError]. *)
Theorem get_entry_datetime_contract (W : world) (e : entry) (st : state) :
  same_store st (get_entry_datetime W e st).2
  ∧ posts (trace (get_entry_datetime W e st).2) = posts (trace st)
  ∧ gets (trace (get_entry_datetime W e st).2) = gets (trace st)
  ∧ (∀ d, (get_entry_datetime W e st).1 = Ok d → utcoffset d = 25200)
  ∧ (∀ ex, (get_entry_datetime W e st).1 = Raise ex → ex = OverflowError).
Proof.
  destruct (get_entry_datetime_quiet W e st) as [Hs Hp].
  split; [exact Hs|]. split; [exact Hp|]. split; [|split].
  - unfold get_entry_datetime.
    destruct e as [pp up p u l t];
      cbn [published_parsed updated_parsed published updated].
    destruct pp as [[tp|]|], up as [[tu|]|], p as [sp|], u as [su|]; run_m;
      repeat match goal with
      | |- context [datetime_utc ?t] => destruct (datetime_utc t); run_m
      | |- context [dateparser_parse ?w ?s] => destruct (dateparser_parse w s); run_m
      | |- context [astimezone ?d timezone_utc] =>
          destruct (astimezone d timezone_utc); run_m
      | |- context [astimezone ?d VN_TZ] => destruct (astimezone d VN_TZ); run_m
      end; rewrite ?gets_app; cbn; rewrite ?app_nil_r; reflexivity.
  - intros d. apply get_entry_datetime_zone.
  - intros ex. rewrite get_entry_datetime_chain. unfold spec_resolve_timestamp.
    destruct (spec_chosen_time W e) as [[d|]|]; try discriminate.
    unfold astimezone. case_match; [discriminate|]. intros [= <-]. reflexivity.
Qed.
(** * Further properties of a run *)

(** ** The loops, as functions of the feeds *)

#[local] Set Warnings "-clear-no-such-hyp".

Lemma new_entries_app (S : gset (option (list N))) (l1 l2 : list entry) :
  new_entries S (l1 ++ l2)
  = new_entries S l1 ++ new_entries (S ∪ list_to_set (link <$> l1)) l2.
Proof.
  revert S. induction l1 as [|e l1 IH]; intros S.
  - cbn. rewrite (right_id_L ∅ (∪)). reflexivity.
  - cbn [app new_entries fmap list_fmap list_to_set].
    destruct (decide (link e ∈ S)) as [Hin|Hout].
    + rewrite IH. f_equal. f_equal. set_solver.
    + cbn [app]. rewrite IH. f_equal. f_equal. f_equal. set_solver.
Qed.

Lemma new_entries_nil (S : gset (option (list N))) (l : list entry) :
  new_entries S l = [] ↔ ∀ e, e ∈ l → link e ∈ S.
Proof.
  induction l as [|e l IH]; cbn [new_entries].
  - split; [intros _ e He; inversion He|reflexivity].
  - destruct (decide (link e ∈ S)) as [Hin|Hout].
    + rewrite IH. split.
      * intros H e' He'. apply elem_of_cons in He' as [->|He']; auto.
      * intros H e' He'. apply H. right. exact He'.
    + split; [discriminate|]. intros H. exfalso. apply Hout, H. left.
Qed.

(** Every new entry is one of the entries and its link is not in the set. *)
Lemma new_entries_elem (l : list entry) (S : gset (option (list N))) (e : entry) :
  e ∈ new_entries S l → e ∈ l ∧ link e ∉ S.
Proof.
  revert S. induction l as [|e' l IH]; intros S He; [inversion He|].
  cbn [new_entries] in He. destruct (decide (link e' ∈ S)) as [Hin|Hout].
  - destruct (IH _ He). split; [right|]; assumption.
  - apply elem_of_cons in He as [->|He].
    + split; [left|assumption].
    + destruct (IH _ He) as [H1 H2]. split; [right; assumption|]. set_solver.
Qed.

(** The loop over the entries of a feed, when it ends: the articles
    collected are those of the new entries, in order; the counter has
    grown by their number; all links of the feed are in the recipient's
    set. *)
Lemma collect_entries_spec (W : world) (chat_id : Z) (entries : list entry)
    (acc acc' : list article * nat) (st st' : state) :
  foldM (collect_entry W chat_id) acc entries st = (Ok acc', st') →
  article_brief <$> acc'.1
    = (article_brief <$> acc.1)
      ++ (entry_brief <$> new_entries (seen chat_id st) entries)
  ∧ acc'.2 = (acc.2 + length (new_entries (seen chat_id st) entries))%nat
  ∧ seen chat_id st' = seen chat_id st ∪ list_to_set (link <$> entries).
Proof.
  revert acc st. induction entries as [|e entries IH]; intros acc st Hrun.
  - cbn in Hrun. injection Hrun as <- <-. cbn.
    rewrite app_nil_r, (right_id_L ∅ (∪)). split; [reflexivity|]. split; [lia|reflexivity].
  - rewrite foldM_cons, collect_entry_run in Hrun.
    pose proof (get_entry_datetime_quiet W e st) as [Hq _].
    destruct (get_entry_datetime W e st) as [[d|ex] st1]; [|discriminate].
    cbn in Hq. pose proof (same_store_seen chat_id _ _ Hq) as Hseen.
    cbn [new_entries fmap list_fmap list_to_set].
    rewrite Hseen.
    destruct (decide (link e ∉ seen chat_id st1)) as [Hnew|Hold].
    + apply IH in Hrun as (H1 & H2 & H3). cbn [fst snd] in *.
      rewrite seen_mark_seen in H1, H2, H3.
      rewrite decide_False by exact Hnew.
      rewrite H1, H2, H3, fmap_app. cbn [fmap list_fmap length].
      rewrite <- (assoc (++)). cbn [app].
      split; [reflexivity|]. split; [lia|set_solver].
    + apply IH in Hrun as (H1 & H2 & H3).
      assert (Hin : link e ∈ seen chat_id st1)
        by (destruct (decide (link e ∈ seen chat_id st1)); [assumption|contradiction]).
      rewrite decide_True by exact Hin.
      rewrite H1, H2, H3. split; [reflexivity|]. split; [reflexivity|set_solver].
Qed.

Lemma fetch_rss_value (W : world) (url : pystr) (st : state) :
  (fetch_rss W url st).1 = Ok (feed_entries W url).
Proof.
  unfold fetch_rss, feed_entries. run_m.
  destruct (requests_get W url) as [resp|]; cbn; [|reflexivity].
  destruct (raise_for_status resp) as [[]|]; cbn; [|reflexivity].
  destruct (feedparser_parse W (resp_text resp)); reflexivity.
Qed.

(** What a loop does to the state, whatever its outcome. *)
Lemma foldM_preserves {A B} (f : B → A → M B) (P : state → Prop) (l : list A) :
  (∀ b x st, P st → P (f b x st).2) →
  ∀ b st, P st → P (foldM f b l st).2.
Proof.
  intros Hf. induction l as [|x l IH]; intros b st HP; [exact HP|].
  rewrite foldM_cons. specialize (Hf b x st HP).
  destruct (f b x st) as [[b'|ex] st']; cbn in Hf; [|exact Hf].
  apply IH, Hf.
Qed.

Lemma extends_refl (chat_id : Z) (st : state) : extends chat_id st st.
Proof. repeat split; reflexivity. Qed.

Lemma extends_trans (chat_id : Z) (a b c : state) :
  extends chat_id a b → extends chat_id b c → extends chat_id a c.
Proof.
  intros (A1 & A2 & A3 & A4 & A5) (B1 & B2 & B3 & B4 & B5).
  split; [congruence|]. split; [congruence|]. split; [congruence|]. split.
  - intros k Hk. rewrite B4, A4 by exact Hk. reflexivity.
  - etrans; eassumption.
Qed.

Lemma same_store_extends (chat_id : Z) (st st' : state) :
  same_store st st' → extends chat_id st st'.
Proof.
  intros Hs. pose proof (same_store_seen chat_id _ _ Hs) as Hseen.
  destruct Hs as (H1 & H2 & H3 & H4).
  split; [congruence|]. split; [congruence|]. split; [congruence|]. split.
  - intros c _. rewrite H1. reflexivity.
  - rewrite Hseen. reflexivity.
Qed.

Lemma mark_seen_extends (chat_id : Z) (l : option pystr) (st : state) :
  extends chat_id st (mark_seen chat_id l st).
Proof.
  split; [reflexivity|]. split; [reflexivity|]. split; [reflexivity|]. split.
  - intros c Hc. unfold mark_seen. cbn. rewrite lookup_insert_ne by congruence.
    reflexivity.
  - rewrite seen_mark_seen. set_solver.
Qed.

Lemma collect_entry_extends (W : world) (chat_id : Z) (acc : list article * nat)
    (e : entry) (st : state) :
  extends chat_id st (collect_entry W chat_id acc e st).2.
Proof.
  rewrite collect_entry_run.
  pose proof (get_entry_datetime_quiet W e st) as [Hq _].
  destruct (get_entry_datetime W e st) as [[d|ex] st1]; cbn in Hq.
  - destruct (decide (link e ∉ seen chat_id st1)); cbn.
    + eapply extends_trans; [apply same_store_extends, Hq|].
      apply mark_seen_extends.
    + apply same_store_extends, Hq.
  - apply same_store_extends, Hq.
Qed.

Lemma collect_source_extends (W : world) (chat_id : Z)
    (acc : list (pystr * list article) * nat) (src : pystr * pystr) (st : state) :
  extends chat_id st (collect_source W chat_id acc src st).2.
Proof.
  rewrite collect_source_run.
  pose proof (fetch_rss_quiet W src.2 st) as [Hq _].
  destruct (fetch_rss W src.2 st) as [[entries|ex] st1]; cbn in Hq;
    [|apply same_store_extends, Hq].
  pose proof (foldM_preserves (collect_entry W chat_id) (extends chat_id st1)
                entries) as Hloop.
  specialize (Hloop (λ b x s Hs, extends_trans _ _ _ _ Hs
                                   (collect_entry_extends W chat_id b x s))
                    ([], acc.2) st1 (extends_refl _ _)).
  destruct (foldM (collect_entry W chat_id) ([], acc.2) entries st1)
    as [[r|ex] st2]; cbn in Hloop |- *;
    (eapply extends_trans; [apply same_store_extends, Hq|exact Hloop]).
Qed.

(** The collection changes nothing but the recipient's set, which grows. *)
Lemma collect_news_extends (W : world) (srcs : list (pystr * pystr))
    (chat_id : Z) (st : state) :
  extends chat_id (load_sent_links st).2 (collect_news W srcs chat_id st).2.
Proof.
  rewrite collect_news_run.
  apply (foldM_preserves (collect_source W chat_id)
           (extends chat_id (load_sent_links st).2)).
  - intros b x s Hs. eapply extends_trans; [exact Hs|].
    apply collect_source_extends.
  - split; [unfold ensure_chat; case_match; reflexivity|].
    split; [unfold ensure_chat; case_match; reflexivity|].
    split; [unfold ensure_chat; case_match; reflexivity|]. split.
    + intros c Hc. unfold ensure_chat. case_match; [reflexivity|]. cbn.
      rewrite lookup_insert_ne by congruence. reflexivity.
    + rewrite seen_ensure_chat. reflexivity.
Qed.

(** The loop over the feeds, when it ends: the counter has grown by the
    number of new entries of all feeds, all their links are in the
    recipient's set, and [collected_news] is empty only if it was empty
    and no entry was new. *)
Lemma collect_sources_spec (W : world) (chat_id : Z)
    (srcs : list (pystr * pystr))
    (acc acc' : list (pystr * list article) * nat) (st st' : state) :
  foldM (collect_source W chat_id) acc srcs st = (Ok acc', st') →
  acc'.2 = (acc.2 + length (new_entries (seen chat_id st) (all_entries W srcs)))%nat
  ∧ seen chat_id st' = seen chat_id st ∪ list_to_set (link <$> all_entries W srcs)
  ∧ (acc'.1 = [] →
     acc.1 = [] ∧ new_entries (seen chat_id st) (all_entries W srcs) = []).
Proof.
  revert acc st. induction srcs as [|src srcs IH]; intros acc st Hrun.
  - cbn in Hrun. injection Hrun as <- <-. cbn.
    rewrite (right_id_L ∅ (∪)). repeat split; auto with lia.
  - rewrite foldM_cons, collect_source_run in Hrun.
    pose proof (fetch_rss_value W src.2 st) as Hv.
    pose proof (fetch_rss_quiet W src.2 st) as [Hq _].
    destruct (fetch_rss W src.2 st) as [[entries|ex] st1]; [|discriminate].
    cbn in Hv, Hq. injection Hv as ->.
    pose proof (same_store_seen chat_id _ _ Hq) as Hseen.
    destruct (foldM (collect_entry W chat_id) ([], acc.2) (feed_entries W src.2) st1)
      as [[r|ex] st2] eqn:Hinner; [|discriminate].
    apply collect_entries_spec in Hinner as (H1 & H2 & H3).
    cbn [fst snd fmap list_fmap app] in H1, H2.
    apply IH in Hrun as (G1 & G2 & G3). cbn [fst snd] in G1, G3.
    unfold all_entries. rewrite bind_cons. fold (all_entries W srcs).
    rewrite new_entries_app, fmap_app, list_to_set_app_L, length_app.
    rewrite Hseen, <- H3. split; [lia|]. split; [rewrite G2; set_solver|].
    intros Hnil. specialize (G3 Hnil) as [G3 G4].
    destruct (r.1) as [|a arts] eqn:Hr.
    + cbn in H1. symmetry in H1. apply fmap_nil_inv in H1.
      rewrite H1, G4. auto.
    + exfalso. destruct (acc.1) as [|[k v] d]; cbn in G3; [discriminate|].
      destruct (decide (src.1 = k)); discriminate.
Qed.

Lemma NoDup_app_drop_mid {A} (l1 l2 : list A) (x : A) :
  NoDup (l1 ++ x :: l2) → NoDup (l1 ++ l2) ∧ x ∉ l1.
Proof.
  intros H. apply NoDup_app in H as (H1 & H2 & H3).
  apply NoDup_cons in H3 as [H3 H4]. split.
  - apply NoDup_app. split; [exact H1|]. split; [|exact H4].
    intros y Hy Hy'. apply (H2 y Hy). right. exact Hy'.
  - intros Hx. apply (H2 x Hx). left.
Qed.

(** With pairwise different labels every collected article stays in
    [collected_news]: its articles are those of the new entries of all
    feeds, in order. *)
Lemma collect_sources_brief (W : world) (chat_id : Z)
    (srcs : list (pystr * pystr))
    (acc acc' : list (pystr * list article) * nat) (st st' : state) :
  foldM (collect_source W chat_id) acc srcs st = (Ok acc', st') →
  NoDup (acc.1.*1 ++ srcs.*1) →
  article_brief <$> (acc'.1 ≫= snd)
  = (article_brief <$> (acc.1 ≫= snd))
    ++ (entry_brief <$> new_entries (seen chat_id st) (all_entries W srcs)).
Proof.
  revert acc st. induction srcs as [|src srcs IH]; intros acc st Hrun Hnd.
  - cbn in Hrun. injection Hrun as <- <-. cbn. rewrite app_nil_r. reflexivity.
  - rewrite foldM_cons, collect_source_run in Hrun.
    pose proof (fetch_rss_value W src.2 st) as Hv.
    pose proof (fetch_rss_quiet W src.2 st) as [Hq _].
    destruct (fetch_rss W src.2 st) as [[entries|ex] st1]; [|discriminate].
    cbn in Hv, Hq. injection Hv as ->.
    pose proof (same_store_seen chat_id _ _ Hq) as Hseen.
    destruct (foldM (collect_entry W chat_id) ([], acc.2) (feed_entries W src.2) st1)
      as [[r|ex] st2] eqn:Hinner; [|discriminate].
    apply collect_entries_spec in Hinner as (H1 & _ & H3).
    cbn [fst snd fmap list_fmap app] in H1.
    cbn [fmap list_fmap] in Hnd.
    destruct (NoDup_app_drop_mid _ _ _ Hnd) as [Hnd' Hfresh].
    unfold all_entries. rewrite bind_cons. fold (all_entries W srcs).
    rewrite new_entries_app, fmap_app, (assoc (++)), Hseen, <- H3, <- H1.
    destruct (r.1) as [|a arts] eqn:Hr.
    + apply IH in Hrun; [|exact Hnd']. cbn [fst] in Hrun.
      rewrite Hrun. cbn. rewrite app_nil_r. reflexivity.
    + apply IH in Hrun.
      * cbn [fst] in Hrun. rewrite Hrun.
        rewrite dict_set_fresh by exact Hfresh.
        rewrite bind_app, fmap_app. cbn. rewrite app_nil_r. reflexivity.
      * cbn [fst]. rewrite dict_set_fresh by exact Hfresh.
        rewrite fmap_app. cbn. rewrite <- (assoc (++)). exact Hnd.
Qed.

(** The collection of a run, when it ends, as a function of the feeds and
    of the recipient's set after the load. *)
Lemma collect_news_spec (W : world) (srcs : list (pystr * pystr)) (chat_id : Z)
    (st st' : state) (r : list (pystr * list article) * nat) :
  collect_news W srcs chat_id st = (Ok r, st') →
  r.2 = length (new_entries (seen chat_id (load_sent_links st).2)
                  (all_entries W srcs))
  ∧ seen chat_id st'
    = seen chat_id (load_sent_links st).2
      ∪ list_to_set (link <$> all_entries W srcs)
  ∧ (r.1 = [] →
     new_entries (seen chat_id (load_sent_links st).2) (all_entries W srcs) = [])
  ∧ (NoDup (srcs.*1) →
     article_brief <$> (r.1 ≫= snd)
     = entry_brief <$> new_entries (seen chat_id (load_sent_links st).2)
                         (all_entries W srcs)).
Proof.
  rewrite collect_news_run. intros Hrun.
  pose proof (collect_sources_spec _ _ _ _ _ _ _ Hrun) as (H1 & H2 & H3).
  rewrite seen_ensure_chat in H1, H2, H3. cbn [fst snd] in H1, H3.
  split; [exact H1|]. split; [exact H2|]. split; [intros Hn; apply H3, Hn|].
  intros Hnd. apply collect_sources_brief in Hrun; [|exact Hnd].
  rewrite seen_ensure_chat in Hrun. exact Hrun.
Qed.

(** ** What a run posts, marks and writes *)

Lemma outbox_facts (chat_id : Z) (cn : list (pystr * list article)) :
  length (outbox chat_id cn) = length (cn ≫= snd)
  ∧ Forall (λ p, p.1 = chat_id ∧ (length p.2 ≤ 4000)%nat) (outbox chat_id cn).
Proof.
  unfold outbox. induction cn as [|[label arts] cn [IH1 IH2]].
  - split; [reflexivity|constructor].
  - rewrite !bind_cons, !length_app, IH1, length_fmap. cbn [snd].
    split; [reflexivity|]. apply Forall_app. split; [|exact IH2].
    apply Forall_fmap, Forall_forall. intros a _. cbn.
    split; [reflexivity|]. rewrite length_take. lia.
Qed.

(** X9. A run for a recipient posts one message for each collected
    article, in order, and nothing else: every post of the run goes to
    this recipient and is at most 4000 characters long.  The posts do not
    depend on the answers to earlier posts: a refused message does not
    stop the ones after it. *)
Theorem run_posts (W : world) (srcs : list (pystr * pystr)) (chat_id : Z)
    (st : state) :
  posts (trace (send_news_from W srcs chat_id st).2)
    = posts (trace st) ++ run_outbox W srcs chat_id st
  ∧ length (run_outbox W srcs chat_id st)
    = length (delivery_set W srcs chat_id st)
  ∧ Forall (λ p, p.1 = chat_id ∧ (length p.2 ≤ 4000)%nat)
      (run_outbox W srcs chat_id st).
Proof.
  split; [apply send_news_from_posts|].
  unfold run_outbox, delivery_set.
  destruct (collect_news W srcs chat_id st).1 as [r|ex].
  - apply outbox_facts.
  - split; [reflexivity|constructor].
Qed.

(** The lists in [collected_news] are not empty. *)
Lemma collect_news_nonempty (W : world) (srcs : list (pystr * pystr))
    (chat_id : Z) (st st' : state) (r : list (pystr * list article) * nat) :
  collect_news W srcs chat_id st = (Ok r, st') →
  Forall (λ sa, sa.2 ≠ []) r.1.
Proof.
  rewrite collect_news_run.
  apply (foldM_invariant (collect_source W chat_id)
           (λ acc _, Forall (λ sa : pystr * list article, sa.2 ≠ []) acc.1));
    [|constructor].
  intros b src s b' s' _ HI. rewrite collect_source_run.
  destruct (fetch_rss W src.2 s) as [[entries|ex] s1]; [|discriminate].
  destruct (foldM (collect_entry W chat_id) ([], b.2) entries s1)
    as [[r0|ex] s2]; [|discriminate].
  intros [= <- <-]. cbn [fst]. destruct (r0.1) as [|a arts]; [exact HI|].
  clear -HI. induction (b.1) as [|[k v] d IH]; cbn [dict_set].
  - constructor; [discriminate|constructor].
  - apply Forall_cons in HI as [Hv Hd].
    destruct (decide (src.1 = k)); constructor; auto.
Qed.

Lemma delivery_set_nil (W : world) (srcs : list (pystr * pystr))
    (chat_id : Z) (st st' : state) (r : list (pystr * list article) * nat) :
  collect_news W srcs chat_id st = (Ok r, st') →
  r.1 ≫= snd = [] → r.1 = [].
Proof.
  intros Hrun Hnil. apply collect_news_nonempty in Hrun.
  destruct (r.1) as [|[k v] d]; [reflexivity|].
  apply Forall_cons in Hrun as [Hv _]. rewrite bind_cons in Hnil.
  apply app_eq_nil in Hnil as [Hnil _]. cbn in Hv, Hnil. contradiction.
Qed.

Lemma load_sent_links_files (st : state) :
  sent_file (load_sent_links st).2 = sent_file st
  ∧ active_chats (load_sent_links st).2 = active_chats st
  ∧ chat_file (load_sent_links st).2 = chat_file st.
Proof.
  destruct (load_sent_links_run st) as (m & tr & Hload & _).
  rewrite Hload. repeat split.
Qed.

(** X10. A run that delivers nothing, because no entry is new or because
    the collection stops with an exception, posts nothing and leaves the
    ledger file as it is: the file is written only after posts. *)
Theorem nothing_delivered_nothing_written (W : world)
    (srcs : list (pystr * pystr)) (chat_id : Z) (st : state) :
  delivery_set W srcs chat_id st = [] →
  posts (trace (send_news_from W srcs chat_id st).2) = posts (trace st)
  ∧ sent_file (send_news_from W srcs chat_id st).2 = sent_file st.
Proof.
  intros Hnil.
  pose proof (collect_news_extends W srcs chat_id st) as (_ & Hf & _).
  destruct (load_sent_links_files st) as (Hf0 & _).
  pose proof (send_news_from_posts W srcs chat_id st) as Hp.
  rewrite send_news_from_run. unfold delivery_set in Hnil.
  destruct (collect_news W srcs chat_id st) as [[r|ex] st1] eqn:Hrun;
    cbn [fst snd] in *.
  - rewrite (delivery_set_nil _ _ _ _ _ _ Hrun Hnil) in Hp |- *.
    rewrite send_news_from_run, Hrun in Hp. cbn in Hp.
    rewrite (delivery_set_nil _ _ _ _ _ _ Hrun Hnil) in Hp.
    cbn in Hp |- *. rewrite app_nil_r in Hp.
    split; [exact Hp|congruence].
  - rewrite send_news_from_run, Hrun in Hp. cbn in Hp.
    rewrite app_nil_r in Hp. split; [exact Hp|congruence].
Qed.

Lemma nothing_delivered_nothing_written_witness :
  posts (trace (send_news_from late_world sources 5
                  (initial_state (Some sample_ledger_text) None)).2) = []
  ∧ sent_file (send_news_from late_world sources 5
                 (initial_state (Some sample_ledger_text) None)).2
    = Some sample_ledger_text.
Proof.
  refine (nothing_delivered_nothing_written late_world sources 5
            (initial_state (Some sample_ledger_text) None) _).
  vm_compute. reflexivity.
Defined.

(** The globals after the whole run are those after the collection. *)
Lemma send_news_from_ledger (W : world) (srcs : list (pystr * pystr))
    (chat_id : Z) (st : state) :
  sent_links (send_news_from W srcs chat_id st).2
    = sent_links (collect_news W srcs chat_id st).2
  ∧ active_chats (send_news_from W srcs chat_id st).2
    = active_chats (collect_news W srcs chat_id st).2
  ∧ chat_file (send_news_from W srcs chat_id st).2
    = chat_file (collect_news W srcs chat_id st).2.
Proof.
  rewrite send_news_from_run.
  destruct (collect_news W srcs chat_id st) as [[r|ex] st1]; cbn [snd];
    [|repeat split].
  destruct (r.1) as [|sa cn]; [repeat split|].
  rewrite save_sent_links_run.
  destruct (send_collected_run W chat_id (sa :: cn) st1)
    as (_ & (H1 & H2 & _ & H4) & _).
  cbn [snd add_event sent_links active_chats chat_file].
  split; [symmetry; exact H1|]. split; symmetry; assumption.
Qed.

(** X11. A run for one recipient, whatever its outcome, changes no other
    recipient's set and does not touch the registry; the recipient's own
    set only grows: every identity it holds after the load is still in it
    after the run. *)
Theorem run_touches_one_recipient (W : world) (srcs : list (pystr * pystr))
    (chat_id : Z) (st : state) :
  (∀ c, c ≠ chat_id →
        sent_links (send_news_from W srcs chat_id st).2 !! c
        = sent_links (load_sent_links st).2 !! c)
  ∧ seen chat_id (load_sent_links st).2
    ⊆ seen chat_id (send_news_from W srcs chat_id st).2
  ∧ active_chats (send_news_from W srcs chat_id st).2 = active_chats st
  ∧ chat_file (send_news_from W srcs chat_id st).2 = chat_file st.
Proof.
  destruct (send_news_from_ledger W srcs chat_id st) as (H1 & H2 & H3).
  destruct (collect_news_extends W srcs chat_id st) as (E1 & _ & E3 & E4 & E5).
  destruct (load_sent_links_files st) as (_ & L2 & L3).
  unfold seen in *. rewrite H1, H2, H3.
  split; [exact E4|]. split; [exact E5|]. split; congruence.
Qed.

(** X12. When a run returns, the link of every entry of every feed that
    could be fetched is in the recipient's set, whether the entry was
    delivered in this run or not, and the set holds nothing else besides
    what it held after the load. *)
Theorem seen_after_run (W : world) (srcs : list (pystr * pystr)) (chat_id : Z)
    (st : state) :
  (send_news_from W srcs chat_id st).1 = Ok tt →
  seen chat_id (send_news_from W srcs chat_id st).2
  = seen chat_id (load_sent_links st).2
    ∪ list_to_set (link <$> all_entries W srcs).
Proof.
  intros Hok.
  destruct (send_news_from_ledger W srcs chat_id st) as (H1 & _).
  unfold seen at 1. rewrite H1. fold (seen chat_id (collect_news W srcs chat_id st).2).
  rewrite send_news_from_run in Hok.
  destruct (collect_news W srcs chat_id st) as [[r|ex] st1] eqn:Hrun;
    [|discriminate].
  apply collect_news_spec in Hrun as (_ & Hseen & _). exact Hseen.
Qed.

Lemma seen_after_run_witness :
  seen 5 (send_news_from sample_world sources 5 (initial_state None None)).2
  = seen 5 (load_sent_links (initial_state None None)).2
    ∪ list_to_set (link <$> all_entries sample_world sources).
Proof.
  apply seen_after_run. vm_compute. reflexivity.
Defined.

(** X13. With pairwise different labels, as in [sources], a run that
    returns delivers exactly the new entries of the feeds, each once, in
    the order of the feeds and, within a feed, in the order of its
    entries: an entry is new when its link is neither in the recipient's
    set after the load nor the link of an earlier entry.  The title of an
    article is the title of its entry, or [No title] when the entry has
    none, and the number in the closing log record is the number of
    delivered articles. *)
Theorem delivery_in_feed_order (W : world) (srcs : list (pystr * pystr))
    (chat_id : Z) (st : state) :
  NoDup (srcs.*1) →
  (send_news_from W srcs chat_id st).1 = Ok tt →
  article_brief <$> delivery_set W srcs chat_id st
  = entry_brief <$> new_entries (seen chat_id (load_sent_links st).2)
                      (all_entries W srcs)
  ∧ last (logs (trace (send_news_from W srcs chat_id st).2))
    = Some (LInfo,
            match delivery_set W srcs chat_id st with
            | [] => MsgNoNewArticles chat_id
            | _ :: _ =>
                MsgSentArticles (length (delivery_set W srcs chat_id st)) chat_id
            end).
Proof.
  intros Hnd Hok. rewrite send_news_from_run in Hok |- *.
  unfold delivery_set.
  destruct (collect_news W srcs chat_id st) as [[r|ex] st1] eqn:Hrun;
    [|discriminate].
  pose proof (delivery_set_nil _ _ _ _ _ _ Hrun) as Hnil.
  apply collect_news_spec in Hrun as (Hcount & _ & _ & Hbrief).
  specialize (Hbrief Hnd). cbn [fst snd]. split; [exact Hbrief|].
  assert (Hlen : r.2 = length (r.1 ≫= snd)).
  { rewrite Hcount. rewrite <- (length_fmap entry_brief), <- Hbrief.
    apply length_fmap. }
  destruct (r.1) as [|sa cn] eqn:Hr.
  - cbn. rewrite logs_app. cbn. apply last_snoc.
  - cbn [snd add_event trace]. rewrite logs_app. cbn [logs].
    rewrite last_snoc. rewrite <- Hlen.
    destruct (_ ≫= _) eqn:Hb; [|reflexivity].
    specialize (Hnil eq_refl). discriminate.
Qed.

Lemma delivery_in_feed_order_witness :
  article_brief <$> delivery_set sample_world sources 5
                      (initial_state (Some sample_ledger_text) None)
  = entry_brief <$> new_entries
                      (seen 5 (load_sent_links
                                 (initial_state (Some sample_ledger_text) None)).2)
                      (all_entries sample_world sources).
Proof.
  refine (proj1 (delivery_in_feed_order sample_world sources 5
                   (initial_state (Some sample_ledger_text) None) _ _)).
  - by_compute.
  - vm_compute. reflexivity.
Defined.

(** ** The requests of a run *)

Lemma gets_logs_only (tr : list event) :
  forallb is_log tr = true → gets tr = [].
Proof.
  induction tr as [|ev tr IH]; [reflexivity|].
  destruct ev; cbn; try discriminate. exact IH.
Qed.

Lemma load_sent_links_gets (st : state) :
  gets (trace (load_sent_links st).2) = gets (trace st).
Proof.
  destruct (load_sent_links_run st) as (m & tr & -> & Hlog). cbn.
  rewrite gets_app, (gets_logs_only tr Hlog), app_nil_r. reflexivity.
Qed.

Lemma get_entry_datetime_gets (W : world) (e : entry) (st : state) :
  gets (trace (get_entry_datetime W e st).2) = gets (trace st).
Proof.
  unfold get_entry_datetime.
  destruct e as [pp up p u l t];
    cbn [published_parsed updated_parsed published updated].
  destruct pp as [[tp|]|], up as [[tu|]|], p as [sp|], u as [su|]; run_m;
    repeat match goal with
    | |- context [datetime_utc ?t] => destruct (datetime_utc t); run_m
    | |- context [dateparser_parse ?w ?s] => destruct (dateparser_parse w s); run_m
    | |- context [astimezone ?d timezone_utc] =>
        destruct (astimezone d timezone_utc); run_m
    | |- context [astimezone ?d VN_TZ] => destruct (astimezone d VN_TZ); run_m
    end; rewrite ?gets_app; cbn; rewrite ?app_nil_r; reflexivity.
Qed.

Lemma collect_entry_gets (W : world) (chat_id : Z) (acc : list article * nat)
    (e : entry) (st : state) :
  gets (trace (collect_entry W chat_id acc e st).2) = gets (trace st).
Proof.
  unfold collect_entry. rewrite bind_run.
  pose proof (get_entry_datetime_gets W e st) as Hg.
  destruct (get_entry_datetime W e st) as [[d|ex] st1]; cbn in Hg; [|exact Hg].
  run_m. destruct (decide _); cbn; exact Hg.
Qed.

Lemma fetch_rss_gets (W : world) (url : pystr) (st : state) :
  gets (trace (fetch_rss W url st).2) = gets (trace st) ++ [url].
Proof.
  unfold fetch_rss. run_m.
  destruct (requests_get W url) as [resp|e1]; cbn;
    [destruct (raise_for_status resp) as [[]|e2]; cbn;
     [destruct (feedparser_parse W (resp_text resp)) as [entries|e3]; cbn|]|];
    rewrite ?gets_app; cbn; rewrite ?app_nil_r; reflexivity.
Qed.

(** A feed is requested once, before its entries are looked at. *)
Lemma collect_source_gets (W : world) (chat_id : Z)
    (acc : list (pystr * list article) * nat) (src : pystr * pystr) (st : state) :
  gets (trace (collect_source W chat_id acc src st).2)
  = gets (trace st) ++ [src.2].
Proof.
  unfold collect_source. rewrite bind_run.
  pose proof (fetch_rss_gets W src.2 st) as Hg.
  pose proof (fetch_rss_value W src.2 st) as Hv.
  destruct (fetch_rss W src.2 st) as [[entries|ex] st1]; cbn in Hg, Hv;
    [|discriminate].
  rewrite bind_run.
  pose proof (foldM_preserves (collect_entry W chat_id)
                (λ s, gets (trace s) = gets (trace st) ++ [src.2]) entries) as Hl.
  cbn beta in Hl.
  specialize (Hl (λ b x s Hs, eq_trans (collect_entry_gets W chat_id b x s) Hs)
                ([], acc.2) st1 Hg).
  destruct (foldM (collect_entry W chat_id) ([], acc.2) entries st1)
    as [[r|ex] st2]; cbn in Hl |- *; [|exact Hl].
  destruct (r.1); exact Hl.
Qed.

(** The loop over the feeds requests them in the order of the list, and
    all of them when it comes to its end. *)
Lemma collect_sources_gets (W : world) (chat_id : Z)
    (srcs : list (pystr * pystr))
    (acc : list (pystr * list article) * nat) (st : state) :
  ∃ done, gets (trace (foldM (collect_source W chat_id) acc srcs st).2)
          = gets (trace st) ++ done
          ∧ done `prefix_of` srcs.*2
          ∧ (∀ r, (foldM (collect_source W chat_id) acc srcs st).1 = Ok r →
                  done = srcs.*2).
Proof.
  revert acc st. induction srcs as [|src srcs IH]; intros acc st.
  - exists []. cbn. rewrite app_nil_r. repeat split; reflexivity.
  - rewrite foldM_cons.
    pose proof (collect_source_gets W chat_id acc src st) as Hg.
    destruct (collect_source W chat_id acc src st) as [[acc1|ex] st1];
      cbn in Hg.
    + destruct (IH acc1 st1) as (done & Hd & Hp & Hall).
      exists (src.2 :: done). rewrite Hd, Hg, <- (assoc (++)).
      split; [reflexivity|]. split.
      * rewrite fmap_cons. apply prefix_cons. exact Hp.
      * intros r Hr. rewrite fmap_cons, (Hall r Hr). reflexivity.
    + exists [src.2]. split; [exact Hg|]. split.
      * rewrite fmap_cons. apply prefix_cons. apply prefix_nil.
      * intros r Hr. discriminate.
Qed.

Lemma send_collected_gets (W : world) (chat_id : Z)
    (cn : list (pystr * list article)) (st : state) :
  gets (trace (send_collected W chat_id cn st).2) = gets (trace st).
Proof.
  unfold send_collected, for_each.
  apply (foldM_preserves _ (λ s, gets (trace s) = gets (trace st))); [|reflexivity].
  intros [] sa s Hs.
  apply (foldM_preserves _ (λ s, gets (trace s) = gets (trace st))); [|exact Hs].
  intros [] a s' Hs'. rewrite bind_run.
  unfold send_telegram_message. run_m.
  destruct (requests_post W chat_id _) as [resp|e1]; cbn.
  - destruct (raise_for_status resp) as [[]|e2]; cbn;
      rewrite ?gets_app; cbn; rewrite ?app_nil_r; exact Hs'.
  - rewrite ?gets_app; cbn; rewrite ?app_nil_r. exact Hs'.
Qed.

Lemma send_news_from_gets (W : world) (srcs : list (pystr * pystr))
    (chat_id : Z) (st : state) :
  ∃ done, gets (trace (send_news_from W srcs chat_id st).2)
          = gets (trace st) ++ done
          ∧ done `prefix_of` srcs.*2
          ∧ ((send_news_from W srcs chat_id st).1 = Ok tt → done = srcs.*2).
Proof.
  rewrite send_news_from_run, collect_news_run.
  destruct (collect_sources_gets W chat_id srcs ([], O)
              (ensure_chat chat_id (load_sent_links st).2))
    as (done & Hd & Hp & Hall).
  assert (Hst : gets (trace (ensure_chat chat_id (load_sent_links st).2))
                = gets (trace st)).
  { rewrite <- (load_sent_links_gets st). unfold ensure_chat.
    destruct (_ !! _); reflexivity. }
  rewrite Hst in Hd. exists done.
  destruct (foldM (collect_source W chat_id) ([], O) srcs _) as [[r|ex] st1];
    cbn [fst snd] in *.
  - split; [|split; [exact Hp|intros _; exact (Hall r eq_refl)]].
    destruct (r.1) as [|sa cn]; cbn [snd add_event trace].
    + rewrite gets_app. cbn. rewrite app_nil_r. exact Hd.
    + rewrite save_sent_links_run. cbn [snd add_event trace].
      rewrite !gets_app. cbn [gets]. rewrite !app_nil_r.
      rewrite send_collected_gets. exact Hd.
  - split; [exact Hd|]. split; [exact Hp|]. intros Hr. discriminate.
Qed.

(** X14. A run for a recipient requests the feeds in the order of the
    list, each at most once, and it requests nothing else.  When the run
    returns it has requested every feed exactly once, whatever the ledger
    holds: a recipient with nothing new costs as many requests as one with
    news. *)
Theorem run_requests (W : world) (srcs : list (pystr * pystr)) (chat_id : Z)
    (st : state) :
  (∃ done, gets (trace (send_news_from W srcs chat_id st).2)
           = gets (trace st) ++ done
           ∧ done `prefix_of` srcs.*2)
  ∧ ((send_news_from W srcs chat_id st).1 = Ok tt →
     gets (trace (send_news_from W srcs chat_id st).2)
     = gets (trace st) ++ srcs.*2).
Proof.
  destruct (send_news_from_gets W srcs chat_id st) as (done & Hd & Hp & Hall).
  split.
  - exists done. split; assumption.
  - intros Hok. rewrite Hd, (Hall Hok). reflexivity.
Qed.

Lemma run_requests_witness :
  gets (trace (send_news_from sample_world sources 5
                 (initial_state (Some sample_ledger_text) None)).2)
  = [] ++ sources.*2.
Proof.
  apply (proj2 (run_requests sample_world sources 5
                  (initial_state (Some sample_ledger_text) None))).
  vm_compute. reflexivity.
Defined.

(** ** The ledger file between two processes *)

Lemma loaded_ledger_cases (f : option pystr) :
  loaded_ledger f
  = match f with
    | Some content =>
        match result_bind (json_load content) ledger_of_data with
        | Ok m => m
        | Raise _ => ∅
        end
    | None => ∅
    end.
Proof.
  unfold loaded_ledger. rewrite load_sent_links_ledger. reflexivity.
Qed.

(** What a load leaves in [sent_links]: the ledger of the file, or, when
    the file gives none, what was there. *)
Lemma load_sent_links_loaded (st : state) :
  sent_links (load_sent_links st).2 = loaded_ledger (sent_file st)
  ∨ (sent_links (load_sent_links st).2 = sent_links st
     ∧ loaded_ledger (sent_file st) = ∅).
Proof.
  rewrite load_sent_links_ledger, loaded_ledger_cases.
  destruct (sent_file st) as [content|]; [|right; split; reflexivity].
  destruct (result_bind (json_load content) ledger_of_data);
    [left|right; split]; reflexivity.
Qed.

Lemma loaded_ledger_encoded (m : gmap Z (gset (option (list N)))) :
  loaded_ledger (Some (encode_doc (data_of_ledger m))) = m.
Proof.
  unfold loaded_ledger.
  rewrite (load_sent_links_encoded
             (initial_state (Some (encode_doc (data_of_ledger m))) None) m
             eq_refl).
  reflexivity.
Qed.

Lemma loaded_below_load (st : state) (c : Z) :
  default ∅ (loaded_ledger (sent_file st) !! c)
  ⊆ seen c (load_sent_links st).2.
Proof.
  unfold seen. destruct (load_sent_links_loaded st) as [->|[_ ->]].
  - reflexivity.
  - rewrite lookup_empty. cbn. apply empty_subseteq.
Qed.

Lemma synced_load (st : state) : synced st → synced (load_sent_links st).2.
Proof.
  intros Hs c. destruct (load_sent_links_files st) as (Hf & _).
  rewrite Hf. unfold seen.
  destruct (load_sent_links_loaded st) as [->|[-> _]]; [reflexivity|apply Hs].
Qed.

(** A run for a recipient whose set already holds every link of the
    feeds collects nothing: it posts nothing and does not write. *)
Lemma send_news_from_idle (W : world) (srcs : list (pystr * pystr)) (c : Z)
    (st : state) :
  (∀ e, e ∈ all_entries W srcs → link e ∈ seen c (load_sent_links st).2) →
  posts (trace (send_news_from W srcs c st).2) = posts (trace st)
  ∧ sent_file (send_news_from W srcs c st).2 = sent_file st.
Proof.
  intros Hall.
  pose proof (collect_news_extends W srcs c st) as (_ & Hf & _).
  destruct (load_sent_links_files st) as (Hf0 & _).
  pose proof (collect_news_posts W srcs c st) as Hp.
  rewrite send_news_from_run.
  destruct (collect_news W srcs c st) as [[r|ex] st1] eqn:Hrun;
    cbn [fst snd] in *; [|split; [exact Hp|congruence]].
  assert (Hr : r.1 = []).
  { apply (delivery_set_nil _ _ _ _ _ _ Hrun).
    pose proof (collect_news_tracked _ _ _ _ _ _ Hrun) as (_ & Hin & _).
    apply collect_news_spec in Hrun as (_ & Hseen & _).
    destruct (r.1 ≫= snd) as [|a arts] eqn:Ha; [reflexivity|exfalso].
    destruct (Hin (a_link a)) as [Hnew Hold].
    { unfold news_links. rewrite Ha. apply list_elem_of_fmap.
      exists a. split; [reflexivity|left]. }
    rewrite Hseen in Hnew. apply elem_of_union in Hnew as [Hnew|Hnew];
      [exact (Hold Hnew)|].
    apply elem_of_list_to_set, list_elem_of_fmap in Hnew as (e & He & Hin').
    apply Hold. rewrite He. apply Hall. exact Hin'. }
  rewrite Hr. cbn. rewrite posts_app. cbn. rewrite app_nil_r.
  split; [exact Hp|congruence].
Qed.

(** A run that returns leaves the global in step with the file, and the
    file covers the feeds for the recipient of the run and for every
    recipient for whom it did before. *)
Lemma send_news_from_synced (W : world) (srcs : list (pystr * pystr)) (c : Z)
    (st st2 : state) :
  synced st →
  send_news_from W srcs c st = (Ok tt, st2) →
  synced st2
  ∧ covered W srcs (sent_file st2) c
  ∧ (∀ c', covered W srcs (sent_file st) c' → covered W srcs (sent_file st2) c').
Proof.
  intros Hs Hrun. apply synced_load in Hs.
  pose proof (collect_news_extends W srcs c st) as (_ & Hf & _ & Hother & Hgrow).
  destruct (load_sent_links_files st) as (Hf0 & _).
  rewrite send_news_from_run in Hrun.
  destruct (collect_news W srcs c st) as [[r|ex] st1] eqn:Hcol;
    [|discriminate].
  cbn [snd] in Hf, Hother, Hgrow.
  apply collect_news_spec in Hcol as (_ & Hseen & Hnil & _).
  assert (Hext : ∀ c', seen c' (load_sent_links st).2 ⊆ seen c' st1).
  { intros c'. destruct (decide (c' = c)) as [->|Hne]; [exact Hgrow|].
    unfold seen. rewrite (Hother c' Hne). reflexivity. }
  destruct (r.1) as [|sa cn].
  - injection Hrun as <-. unfold synced, covered in *.
    cbn [sent_file add_event].
    specialize (Hnil eq_refl).
    assert (Hsub : ∀ e, e ∈ all_entries W srcs →
                     link e ∈ seen c (load_sent_links st).2)
      by (apply new_entries_nil; exact Hnil).
    assert (Hsame : seen c st1 = seen c (load_sent_links st).2).
    { rewrite Hseen. apply set_eq. intros l. rewrite elem_of_union.
      split; [|tauto]. intros [Hl|Hl]; [exact Hl|].
      apply elem_of_list_to_set, list_elem_of_fmap in Hl as (e & -> & He).
      apply Hsub. exact He. }
    rewrite Hf, Hf0. split; [|split].
    + intros c'. change (seen c' (add_event _ st1)) with (seen c' st1).
      destruct (decide (c' = c)) as [->|Hne].
      * rewrite Hsame. specialize (Hs c). rewrite Hf0 in Hs. exact Hs.
      * unfold seen. rewrite (Hother c' Hne).
        specialize (Hs c'). rewrite Hf0 in Hs. exact Hs.
    + intros e He. specialize (Hs c). rewrite Hf0 in Hs.
      apply Hs, Hsub, He.
    + intros c' Hc'. exact Hc'.
  - rewrite save_sent_links_run in Hrun.
    destruct (send_collected_run W c (sa :: cn) st1) as (_ & (Hl & _) & _).
    injection Hrun as <-. unfold synced, covered.
    cbn [sent_file add_event snd]. rewrite <- Hl.
    rewrite loaded_ledger_encoded.
    split; [|split].
    + intros c'. reflexivity.
    + intros e He. change (link e ∈ seen c st1). rewrite Hseen.
      apply elem_of_union. right.
      apply elem_of_list_to_set, list_elem_of_fmap. exists e. split; auto.
    + intros c' Hc' e He. change (link e ∈ seen c' st1).
      apply Hext. apply loaded_below_load. apply Hc'. exact He.
Qed.

(** The state in which a fresh process enters the loop over the
    recipients. *)
Lemma main_start (sf : option pystr) (cf : option (result (list Z))) :
  ∃ tr, forallb is_log tr = true
        ∧ load_active_chats
            (load_sent_links (add_event (EvLog LInfo MsgRunning)
                                (initial_state sf cf))).2
          = (Ok tt, loop_start sf cf tr).
Proof.
  pose proof (load_sent_links_ledger
                (add_event (EvLog LInfo MsgRunning) (initial_state sf cf))) as Hm.
  cbn [sent_file sent_links add_event initial_state] in Hm.
  rewrite <- loaded_ledger_cases in Hm.
  destruct (load_sent_links_run
              (add_event (EvLog LInfo MsgRunning) (initial_state sf cf)))
    as (m & tr1 & Hload & Hlog1).
  rewrite Hload in Hm |- *. cbn in Hm. subst m. cbn [snd].
  match goal with
  | |- context [load_active_chats ?s] =>
      destruct (load_active_chats_run s eq_refl) as (tr2 & Hchats & Hlog2)
  end.
  rewrite Hchats. cbn.
  exists ((EvLog LInfo MsgRunning :: tr1) ++ tr2). split; [|reflexivity].
  rewrite forallb_app. cbn. rewrite Hlog1, Hlog2. reflexivity.
Qed.

(** [main] in a fresh process, from the loop on. *)
Lemma main_run (W : world) (sf : option pystr) (cf : option (result (list Z))) :
  ∃ tr, forallb is_log tr = true
        ∧ main W (initial_state sf cf)
          = if decide (registry_of cf = ∅)
            then (Ok tt,
                  add_event (EvLog LInfo MsgScriptFinished)
                    (add_event (EvLog LWarning MsgNoActiveChats)
                       (loop_start sf cf tr)))
            else match for_each (elements (registry_of cf))
                         (send_news_to_chat W) (loop_start sf cf tr) with
                 | (Ok _, st) =>
                     (Ok tt, add_event (EvLog LInfo MsgScriptFinished) st)
                 | (Raise ex, st) => (Raise ex, st)
                 end.
Proof.
  destruct (main_start sf cf) as (tr & Hlog & Hstart).
  exists tr. split; [exact Hlog|].
  unfold main. rewrite bind_run. cbn [log emit modify].
  rewrite bind_run.
  destruct (load_sent_links_run (add_event (EvLog LInfo MsgRunning)
                                   (initial_state sf cf)))
    as (m & tr1 & Hload & _).
  rewrite Hload in Hstart |- *. cbn [snd] in Hstart.
  rewrite bind_run, Hstart. run_m.
  destruct (decide (registry_of cf = ∅)); cbn; [reflexivity|].
  destruct (for_each _ _ _) as [[[]|ex] st]; reflexivity.
Qed.

(** ** The loop over the recipients *)

Lemma for_each_cons {A} (f : A → M unit) (x : A) (l : list A) (st : state) :
  for_each (x :: l) f st =
  match f x st with
  | (Ok _, st') => for_each l f st'
  | (Raise ex, st') => (Raise ex, st')
  end.
Proof.
  unfold for_each. rewrite foldM_cons.
  destruct (f x st) as [[[]|ex] st']; reflexivity.
Qed.

(** The posts of the runs go to the recipients of the runs. *)
Lemma runs_posts (W : world) (srcs : list (pystr * pystr)) (l : list Z)
    (st : state) :
  ∃ out, posts (trace (for_each l (send_news_from W srcs) st).2)
         = posts (trace st) ++ out
         ∧ Forall (λ p, p.1 ∈ l ∧ (length p.2 ≤ 4000)%nat) out.
Proof.
  revert st. induction l as [|c l IH]; intros st.
  - exists []. cbn. rewrite app_nil_r. split; [reflexivity|constructor].
  - rewrite for_each_cons.
    pose proof (send_news_from_posts W srcs c st) as Hp.
    set (out1 := match (collect_news W srcs c st).1 with
                 | Ok r => outbox c r.1
                 | Raise _ => []
                 end) in Hp.
    assert (H1 : Forall (λ p, p.1 ∈ c :: l ∧ (length p.2 ≤ 4000)%nat) out1).
    { subst out1. destruct (collect_news W srcs c st).1 as [r|ex];
        [|constructor].
      destruct (outbox_facts c r.1) as [_ Hall].
      eapply Forall_impl; [exact Hall|].
      intros p [-> Hlen]. split; [left|exact Hlen]. }
    destruct (send_news_from W srcs c st) as [[[]|ex] st1]; cbn [snd] in Hp.
    + destruct (IH st1) as (out & Ho & Hall).
      exists (out1 ++ out). rewrite Ho, Hp, (assoc (++)).
      split; [reflexivity|]. apply Forall_app. split; [exact H1|].
      eapply Forall_impl; [exact Hall|].
      intros p [Hin Hlen]. split; [right; exact Hin|exact Hlen].
    + exists out1. split; [exact Hp|exact H1].
Qed.

(** Every run that returns has requested every feed. *)
Lemma runs_gets (W : world) (srcs : list (pystr * pystr)) (l : list Z)
    (st st' : state) :
  for_each l (send_news_from W srcs) st = (Ok tt, st') →
  gets (trace st') = gets (trace st) ++ (l ≫= λ _, srcs.*2).
Proof.
  revert st. induction l as [|c l IH]; intros st Hrun.
  - injection Hrun as <-. cbn. rewrite app_nil_r. reflexivity.
  - rewrite for_each_cons in Hrun.
    destruct (send_news_from_gets W srcs c st) as (done & Hd & _ & Hall).
    destruct (send_news_from W srcs c st) as [[[]|ex] st1]; [|discriminate].
    cbn [fst snd] in Hd, Hall. rewrite (Hall eq_refl) in Hd.
    rewrite (IH st1 Hrun), Hd, bind_cons, (assoc (++)). reflexivity.
Qed.

(** When the runs have returned, the file covers the feeds for each of
    their recipients. *)
Lemma runs_cover (W : world) (srcs : list (pystr * pystr)) (l : list Z)
    (st st' : state) :
  synced st →
  for_each l (send_news_from W srcs) st = (Ok tt, st') →
  synced st'
  ∧ (∀ c, c ∈ l → covered W srcs (sent_file st') c)
  ∧ (∀ c, covered W srcs (sent_file st) c → covered W srcs (sent_file st') c).
Proof.
  revert st. induction l as [|c l IH]; intros st Hs Hrun.
  - injection Hrun as <-. split; [exact Hs|]. split; [|auto].
    intros c Hc. inversion Hc.
  - rewrite for_each_cons in Hrun.
    destruct (send_news_from W srcs c st) as [[[]|ex] st1] eqn:Hstep;
      [|discriminate].
    destruct (send_news_from_synced W srcs c st st1 Hs Hstep)
      as (Hs1 & Hc1 & Hkeep1).
    destruct (IH st1 Hs1 Hrun) as (Hs' & Hl & Hkeep).
    split; [exact Hs'|]. split.
    + intros c' Hc'. apply elem_of_cons in Hc' as [->|Hc'].
      * apply Hkeep, Hc1.
      * apply Hl, Hc'.
    + intros c' Hc'. apply Hkeep, Hkeep1, Hc'.
Qed.

(** Runs for recipients for whom the file covers the feeds post nothing
    and leave the file as it is. *)
Lemma runs_idle (W : world) (srcs : list (pystr * pystr)) (l : list Z)
    (st : state) :
  (∀ c, c ∈ l → covered W srcs (sent_file st) c) →
  posts (trace (for_each l (send_news_from W srcs) st).2) = posts (trace st)
  ∧ sent_file (for_each l (send_news_from W srcs) st).2 = sent_file st.
Proof.
  revert st. induction l as [|c l IH]; intros st Hcov; [split; reflexivity|].
  rewrite for_each_cons.
  destruct (send_news_from_idle W srcs c st) as [Hp Hf].
  { intros e He. apply loaded_below_load. apply (Hcov c); [left|exact He]. }
  destruct (send_news_from W srcs c st) as [[[]|ex] st1]; cbn [snd] in Hp, Hf;
    [|split; assumption].
  destruct (IH st1) as [Hp' Hf'].
  { intros c' Hc'. rewrite Hf. apply Hcov. right. exact Hc'. }
  split; congruence.
Qed.

Lemma posts_logs_only (tr : list event) :
  forallb is_log tr = true → posts tr = [].
Proof.
  induction tr as [|ev tr IH]; [reflexivity|].
  destruct ev; cbn; try discriminate. exact IH.
Qed.

Lemma loop_start_synced (sf : option pystr) (cf : option (result (list Z)))
    (tr : list event) :
  synced (loop_start sf cf tr).
Proof. intros c. reflexivity. Qed.

(** ** The script *)

(** X15. Every message the script posts goes to a recipient of the
    registry file and is at most 4000 characters long, whether the script
    ends normally or not.  A registry file that cannot be read gives no
    recipients, so that nothing is posted. *)
Theorem main_posts_registered (W : world) (sf : option pystr)
    (cf : option (result (list Z))) :
  Forall (λ p, p.1 ∈ registry_of cf ∧ (length p.2 ≤ 4000)%nat)
    (posts (trace (main W (initial_state sf cf)).2)).
Proof.
  destruct (main_run W sf cf) as (tr & Hlog & ->).
  apply posts_logs_only in Hlog.
  destruct (decide (registry_of cf = ∅)) as [He|Hne].
  - cbn. rewrite !posts_app, Hlog. constructor.
  - unfold send_news_to_chat.
    destruct (runs_posts W sources (elements (registry_of cf))
                (loop_start sf cf tr)) as (out & Ho & Hall).
    cbn [loop_start trace] in Ho. rewrite Hlog in Ho. cbn [app] in Ho.
    assert (Hreg : Forall (λ p, p.1 ∈ registry_of cf ∧ (length p.2 ≤ 4000)%nat)
                     out).
    { eapply Forall_impl; [exact Hall|].
      intros p [Hin Hlen]. split; [|exact Hlen].
      apply elem_of_elements. exact Hin. }
    destruct (for_each _ _ _) as [[[]|ex] st]; cbn [snd] in Ho |- *.
    + cbn. rewrite posts_app, Ho. cbn. rewrite app_nil_r. exact Hreg.
    + rewrite Ho. exact Hreg.
Qed.

(** X16. When the script ends normally it has requested the four feeds
    once for each recipient of the registry, in the order of [sources]:
    nothing is kept from one recipient to the next. *)
Theorem main_requests (W : world) (sf : option pystr)
    (cf : option (result (list Z))) :
  (main W (initial_state sf cf)).1 = Ok tt →
  gets (trace (main W (initial_state sf cf)).2)
  = elements (registry_of cf) ≫= λ _, sources.*2.
Proof.
  destruct (main_run W sf cf) as (tr & Hlog & ->).
  apply gets_logs_only in Hlog.
  destruct (decide (registry_of cf = ∅)) as [He|Hne].
  - intros _. rewrite He, elements_empty. cbn.
    rewrite !gets_app, Hlog. reflexivity.
  - unfold send_news_to_chat.
    destruct (for_each _ _ _) as [[[]|ex] st] eqn:Hrun; [|discriminate].
    intros _. apply runs_gets in Hrun. cbn [loop_start trace] in Hrun.
    rewrite Hlog in Hrun. cbn [snd add_event trace].
    rewrite gets_app, Hrun. cbn. rewrite app_nil_r. reflexivity.
Qed.

Lemma main_requests_witness :
  gets (trace (main sample_world (initial_state None (Some (Ok [5; 7])))).2)
  = elements (registry_of (Some (Ok [5; 7]))) ≫= λ _, sources.*2.
Proof.
  apply main_requests. vm_compute. reflexivity.
Defined.

(** When the loop over the recipients has returned, the file covers the
    feeds for every recipient of the registry. *)
Lemma loop_covers (W : world) (sf : option pystr)
    (cf : option (result (list Z))) (tr : list event) (st : state) :
  for_each (elements (registry_of cf)) (send_news_to_chat W)
    (loop_start sf cf tr) = (Ok tt, st) →
  ∀ c, c ∈ registry_of cf → covered W sources (sent_file st) c.
Proof.
  intros Hrun c Hc.
  destruct (runs_cover W sources _ _ _ (loop_start_synced sf cf tr) Hrun)
    as (_ & Hl & _).
  apply Hl, elem_of_elements, Hc.
Qed.

(** X17. When the script ends normally, the ledger file it leaves holds,
    for every recipient of the registry, the link of every entry of every
    feed that could be fetched: what the next process loads for the
    recipient covers the feeds. *)
Theorem main_ledger_covers (W : world) (sf : option pystr)
    (cf : option (result (list Z))) (c : Z) (e : entry) :
  (main W (initial_state sf cf)).1 = Ok tt →
  c ∈ registry_of cf →
  e ∈ all_entries W sources →
  link e ∈ default ∅
             (loaded_ledger (sent_file (main W (initial_state sf cf)).2) !! c).
Proof.
  destruct (main_run W sf cf) as (tr & _ & ->).
  destruct (decide (registry_of cf = ∅)) as [He|Hne].
  - intros _ Hc. rewrite He in Hc. apply not_elem_of_empty in Hc as [].
  - destruct (for_each _ _ _) as [[[]|ex] st] eqn:Hrun; [|discriminate].
    intros _ Hc He. cbn [snd add_event sent_file].
    exact (loop_covers W sf cf tr st Hrun c Hc e He).
Qed.

Lemma main_ledger_covers_witness :
  Some (py "a")
  ∈ default ∅
      (loaded_ledger
         (sent_file (main sample_world
                       (initial_state None (Some (Ok [5; 7])))).2) !! 7).
Proof.
  refine (main_ledger_covers sample_world None (Some (Ok [5; 7])) 7
            (plain_entry (Some (py "a")) (py "A")) _ _ _).
  - vm_compute. reflexivity.
  - by_compute.
  - left.
Defined.

(** X18. No redelivery from one process to the next: when the script has
    ended normally, a fresh process that finds the ledger file it left,
    the same registry and the same feeds posts nothing and leaves the
    ledger file as it is. *)
Theorem main_rerun_silent (W : world) (sf : option pystr)
    (cf : option (result (list Z))) :
  (main W (initial_state sf cf)).1 = Ok tt →
  posts (trace (main W (initial_state
                          (sent_file (main W (initial_state sf cf)).2) cf)).2)
  = []
  ∧ sent_file (main W (initial_state
                         (sent_file (main W (initial_state sf cf)).2) cf)).2
    = sent_file (main W (initial_state sf cf)).2.
Proof.
  intros Hok.
  assert (Hcov : ∀ c, c ∈ registry_of cf →
            covered W sources (sent_file (main W (initial_state sf cf)).2) c).
  { destruct (main_run W sf cf) as (tr & _ & Hmain).
    rewrite Hmain in Hok |- *.
    destruct (decide (registry_of cf = ∅)) as [He|Hne].
    - intros c Hc. rewrite He in Hc. apply not_elem_of_empty in Hc as [].
    - destruct (for_each _ _ _) as [[[]|ex] st] eqn:Hrun; [|discriminate].
      exact (loop_covers W sf cf tr st Hrun). }
  set (f1 := sent_file (main W (initial_state sf cf)).2) in *.
  destruct (main_run W f1 cf) as (tr & Hlog & ->).
  apply posts_logs_only in Hlog.
  destruct (decide (registry_of cf = ∅)) as [He|Hne].
  - cbn. rewrite !posts_app, Hlog. split; reflexivity.
  - destruct (runs_idle W sources (elements (registry_of cf))
                (loop_start f1 cf tr)) as [Hp Hf].
    { intros c Hc. apply Hcov, elem_of_elements, Hc. }
    unfold send_news_to_chat.
    cbn [loop_start trace sent_file] in Hp, Hf. rewrite Hlog in Hp.
    destruct (for_each _ _ _) as [[[]|ex] st]; cbn [snd] in Hp, Hf |- *.
    + cbn. rewrite posts_app, Hp. split; [reflexivity|exact Hf].
    + split; assumption.
Qed.

Lemma main_rerun_silent_witness :
  posts (trace (main sample_world
                  (initial_state
                     (sent_file (main sample_world
                                   (initial_state None (Some (Ok [5; 7])))).2)
                     (Some (Ok [5; 7])))).2)
  = [].
Proof.
  refine (proj1 (main_rerun_silent sample_world None (Some (Ok [5; 7])) _)).
  vm_compute. reflexivity.
Defined.

(** ** How the script ends *)

Lemma entry_time_any_state (W : world) (e : entry) (st : state) :
  (get_entry_datetime W e st).1 = entry_time W e.
Proof.
  unfold entry_time. rewrite !get_entry_datetime_chain. reflexivity.
Qed.

Lemma entry_time_raises (W : world) (e : entry) (ex : exn) :
  entry_time W e = Raise ex → ex = OverflowError.
Proof.
  unfold entry_time. rewrite get_entry_datetime_chain.
  unfold spec_resolve_timestamp.
  destruct (spec_chosen_time W e) as [[d|]|]; try discriminate.
  unfold astimezone. case_match; [discriminate|]. intros [= <-]. reflexivity.
Qed.

(** A loop whose body returns or raises according to the element alone
    returns exactly when the body returns for every element. *)
Lemma foldM_outcome {A B} (f : B → A → M B) (ok : A → Prop) (Q : exn → Prop)
    (l : list A) :
  (∀ b x st, match (f b x st).1 with
             | Ok _ => ok x
             | Raise ex => Q ex ∧ ¬ ok x
             end) →
  ∀ b st, match (foldM f b l st).1 with
          | Ok _ => Forall ok l
          | Raise ex => Q ex ∧ ¬ Forall ok l
          end.
Proof.
  intros Hf. induction l as [|x l IH]; intros b st; [constructor|].
  rewrite foldM_cons. specialize (Hf b x st).
  destruct (f b x st) as [[b1|ex] st1]; cbn [fst] in Hf |- *.
  - specialize (IH b1 st1).
    destruct (foldM f b1 l st1).1 as [b2|ex].
    + constructor; assumption.
    + destruct IH as [HQ Hno]. split; [exact HQ|].
      intros HF. apply Forall_cons in HF as [_ HF]. exact (Hno HF).
  - destruct Hf as [HQ Hno]. split; [exact HQ|].
    intros HF. apply Forall_cons in HF as [HF _]. exact (Hno HF).
Qed.

Lemma collect_entry_outcome (W : world) (chat_id : Z)
    (acc : list article * nat) (e : entry) (st : state) :
  match (collect_entry W chat_id acc e st).1 with
  | Ok _ => timely W e
  | Raise ex => ex = OverflowError ∧ ¬ timely W e
  end.
Proof.
  rewrite collect_entry_run.
  pose proof (entry_time_any_state W e st) as Ht.
  destruct (get_entry_datetime W e st) as [[d|ex] st1]; cbn [fst] in Ht |- *.
  - destruct (decide _); cbn; exists d; symmetry; exact Ht.
  - split; [exact (entry_time_raises W e ex (eq_sym Ht))|].
    intros [d Hd]. congruence.
Qed.

Lemma collect_source_outcome (W : world) (chat_id : Z)
    (acc : list (pystr * list article) * nat) (src : pystr * pystr)
    (st : state) :
  match (collect_source W chat_id acc src st).1 with
  | Ok _ => Forall (timely W) (feed_entries W src.2)
  | Raise ex => ex = OverflowError ∧ ¬ Forall (timely W) (feed_entries W src.2)
  end.
Proof.
  rewrite collect_source_run.
  pose proof (fetch_rss_value W src.2 st) as Hv.
  destruct (fetch_rss W src.2 st) as [[entries|ex] st1]; cbn [fst] in Hv;
    [|discriminate].
  injection Hv as ->.
  pose proof (foldM_outcome (collect_entry W chat_id) (timely W)
                (λ ex, ex = OverflowError) (feed_entries W src.2)
                (collect_entry_outcome W chat_id) ([], acc.2) st1) as Hl.
  destruct (foldM (collect_entry W chat_id) ([], acc.2) _ st1) as [[r|ex] st2];
    exact Hl.
Qed.

(** A run for a recipient returns exactly when [get_entry_datetime]
    returns for every entry of the feeds. *)
Lemma send_news_from_outcome (W : world) (srcs : list (pystr * pystr))
    (chat_id : Z) (st : state) :
  match (send_news_from W srcs chat_id st).1 with
  | Ok _ => Forall (timely W) (all_entries W srcs)
  | Raise ex => ex = OverflowError ∧ ¬ Forall (timely W) (all_entries W srcs)
  end.
Proof.
  rewrite send_news_from_run, collect_news_run.
  pose proof (foldM_outcome (collect_source W chat_id)
                (λ src, Forall (timely W) (feed_entries W src.2))
                (λ ex, ex = OverflowError) srcs
                (collect_source_outcome W chat_id) ([], O)
                (ensure_chat chat_id (load_sent_links st).2)) as Hl.
  assert (Hall : Forall (timely W) (all_entries W srcs)
                 ↔ Forall (λ src, Forall (timely W) (feed_entries W src.2)) srcs).
  { unfold all_entries. apply Forall_bind. }
  destruct (foldM (collect_source W chat_id) ([], O) srcs _) as [[r|ex] st1];
    cbn [fst] in Hl |- *.
  - apply Hall in Hl. destruct (r.1); exact Hl.
  - rewrite Hall. exact Hl.
Qed.

(** X19. The script ends normally exactly when the registry gives no
    recipient or [get_entry_datetime] returns for every entry of every
    feed that can be fetched, and the only exception with which it ends
    otherwise is [OverflowError]: a request that fails, a feed that cannot
    be parsed, a message that is refused and a ledger file that cannot be
    read do not end the script. *)
Theorem main_returns_iff (W : world) (sf : option pystr)
    (cf : option (result (list Z))) :
  ((main W (initial_state sf cf)).1 = Ok tt
   ↔ registry_of cf = ∅ ∨ Forall (timely W) (all_entries W sources))
  ∧ (∀ ex, (main W (initial_state sf cf)).1 = Raise ex → ex = OverflowError).
Proof.
  destruct (main_run W sf cf) as (tr & _ & ->).
  destruct (decide (registry_of cf = ∅)) as [He|Hne].
  - split; [split; [left; exact He|reflexivity]|discriminate].
  - pose proof (foldM_outcome (λ _ c, send_news_to_chat W c)
                  (λ _, Forall (timely W) (all_entries W sources))
                  (λ ex, ex = OverflowError) (elements (registry_of cf))
                  (λ _ c st, send_news_from_outcome W sources c st)
                  tt (loop_start sf cf tr)) as Hl.
    fold (for_each (elements (registry_of cf)) (send_news_to_chat W)) in Hl.
    assert (Hsome : ∃ c, c ∈ elements (registry_of cf)).
    { apply set_choose_L in Hne as [c Hc]. exists c.
      apply elem_of_elements. exact Hc. }
    destruct Hsome as [c Hc].
    destruct (for_each _ _ _) as [[[]|ex] st]; cbn [fst] in Hl |- *.
    + split; [|discriminate]. split; [intros _; right|reflexivity].
      apply (proj1 (Forall_forall _ _) Hl c Hc).
    + destruct Hl as [-> Hno]. split.
      * split; [discriminate|]. intros [He|Hall]; [contradiction|].
        exfalso. apply Hno. apply Forall_forall. intros _ _. exact Hall.
      * intros ex' [= <-]. reflexivity.
Qed.

(** ** The text of a message *)



